(** * NannyML performance estimation: CBPE (binary classification) and DLE

    A shallow embedding of
      - nannyml/performance_estimation/confidence_based/_cbpe_binary_classification.py
      - nannyml/performance_estimation/direct_loss_estimation/dle.py
    and the properties of the estimation engine proved about it.

    Conventions of the embedding.
      - Python floats are exact rationals ([Q]); NaN, infinities and rounding
        are outside the model.  [None]/NaN/NaT cells are [CNone].
      - A method that mutates [self] or the frame it was handed is a
        computation in the monad [Py], whose state survives a raised
        exception, as the attributes of a Python object do.
      - The chunker, the calibrator, the metrics, the imputer and the label
        encoders are collaborators: interfaces (type classes) whose
        implementations are arbitrary. *)

From Stdlib Require Import QArith Qminmax.
From stdpp Require Import base option list strings gmap.

Open Scope string_scope.
Open Scope list_scope.

(** ** Python values *)

Module Py.

(** [a < b] on floats, as a boolean. *)
Definition Qltb (a b : Q) : bool := negb (Qle_bool b a).

(** [min(a, b)]: the first argument unless the second is strictly smaller. *)
Definition min (a b : Q) : Q := if Qltb b a then b else a.

(** [max(a, b)]: the first argument unless the second is strictly larger. *)
Definition max (a b : Q) : Q := if Qltb a b then b else a.

(** Truth value of an [Optional[float]]: [None] and zero are falsy. *)
Definition truthy (o : option Q) : bool :=
  match o with
  | None => false
  | Some q => negb (Qeq_bool q 0)
  end.

(** [x is not None] *)
Definition is_not_None {A} (o : option A) : bool :=
  match o with Some _ => true | None => false end.

(** One cell of a frame or one value of a record. *)
Inductive cell : Type :=
  | CNone
  | CBool (b : bool)
  | CInt (z : Z)
  | CFloat (q : Q)
  | CStr (s : string)
  | CTime (t : Z).

Definition of_float (o : option Q) : cell :=
  match o with Some q => CFloat q | None => CNone end.

Definition of_time (o : option Z) : cell :=
  match o with Some t => CTime t | None => CNone end.

(** Exceptions the modelled code can raise. *)
Inductive message : Type :=
  | NoRows                                  (* 'data contains no rows. ...' *)
  | MissingColumns (missing dataset_columns : list string).

Inductive exn : Type :=
  | InvalidArgumentsException (m : message)
  | TypeError
  | KeyError (k : string)
  | ValueError
  | External (what : string).

(** A [dict] with string keys: insertion ordered, assignment to a key that is
    present replaces its value in place. *)
Definition dict (V : Type) := list (string * V).

(** [d[k] = v] *)
Fixpoint setitem {V} (k : string) (v : V) (d : dict V) : dict V :=
  match d with
  | [] => [(k, v)]
  | (k', v') :: d' =>
      if decide (k' = k) then (k, v) :: d' else (k', v') :: setitem k v d'
  end.

(** [d.get(k)] *)
Fixpoint getitem {V} (k : string) (d : dict V) : option V :=
  match d with
  | [] => None
  | (k', v) :: d' => if decide (k' = k) then Some v else getitem k d'
  end.

(** [{**d, **e}] *)
Definition update {V} (d e : dict V) : dict V :=
  fold_left (fun acc kv => setitem kv.1 kv.2 acc) e d.

Definition keys {V} (d : dict V) : list string := d.*1.
Definition values {V} (d : dict V) : list V := d.*2.

End Py.

Import Py.

(** ** Result column layout builder (dle.py, [_create_multilevel_index]) *)

Definition chunk_column_names : list string :=
  [ "key"; "chunk_index"; "start_index"; "end_index";
    "start_date"; "end_date"; "period" ].

Definition method_column_names : list string :=
  [ "sampling_error"; "realized"; "value";
    "upper_confidence_boundary"; "lower_confidence_boundary";
    "upper_threshold"; "lower_threshold"; "alert" ].

Definition _create_multilevel_index (metric_names : list string)
  : list (string * string) :=
  let chunk_tuples :=
    map (fun chunk_column_name => ("chunk", chunk_column_name))
        chunk_column_names in
  let reconstruction_tuples :=
    flat_map (fun metric_name =>
                map (fun column_name => (metric_name, column_name))
                    method_column_names)
             metric_names in
  let tuples := chunk_tuples ++ reconstruction_tuples in
  tuples.

(** The layout in the words of the specification: seven columns under
    'chunk', then eight columns per metric. *)
Definition metric_group (m : string) : list (string * string) :=
  [ (m, "sampling_error"); (m, "realized"); (m, "value");
    (m, "upper_confidence_boundary"); (m, "lower_confidence_boundary");
    (m, "upper_threshold"); (m, "lower_threshold"); (m, "alert") ].

Definition chunk_group : list (string * string) :=
  [ ("chunk", "key"); ("chunk", "chunk_index"); ("chunk", "start_index");
    ("chunk", "end_index"); ("chunk", "start_date"); ("chunk", "end_date");
    ("chunk", "period") ].

(** ** Frames and tables (the part of pandas the estimators use) *)

Module Pandas.

Definition Series := list cell.

(** An input frame: row labels and named columns, in column order. *)
Record DataFrame : Type := mkDataFrame {
  index : list Z;
  columns : dict Series;
}.

(** [df.empty]: one of the axes has length zero. *)
Definition empty (df : DataFrame) : bool :=
  match index df, columns df with
  | [], _ => true
  | _, [] => true
  | _ :: _, _ :: _ => false
  end.

(** [list(df.columns)] *)
Definition column_names (df : DataFrame) : list string := keys (columns df).

(** [df[c]] *)
Definition get (df : DataFrame) (c : string) : exn + Series :=
  match getitem c (columns df) with
  | Some s => inr s
  | None => inl (KeyError c)
  end.

(** [df[c] = s]: an existing column keeps its place, a new one goes last. *)
Definition set (df : DataFrame) (c : string) (s : Series) : DataFrame :=
  {| index := index df; columns := setitem c s (columns df) |}.

(** [df.reset_index(drop=True)]: a new frame labelled 0 .. n-1. *)
Definition reset_index (df : DataFrame) : DataFrame :=
  {| index := Z.of_nat <$> seq 0 (length (index df)); columns := columns df |}.

(** [df[cs]]: the listed columns, in the order listed. *)
Fixpoint get_many (df : DataFrame) (cs : list string) : exn + list Series :=
  match cs with
  | [] => inr []
  | c :: cs' =>
      match get df c with
      | inl e => inl e
      | inr s =>
          match get_many df cs' with
          | inl e => inl e
          | inr ss => inr (s :: ss)
          end
      end
  end.

Fixpoint set_each (df : DataFrame) (cs : list string) (ss : list Series)
  : DataFrame :=
  match cs, ss with
  | c :: cs', s :: ss' => set_each (set df c s) cs' ss'
  | _, _ => df
  end.

(** [df[cs] = block]: as many columns as keys, else a ValueError. *)
Definition set_many (df : DataFrame) (cs : list string) (ss : list Series)
  : exn + DataFrame :=
  if decide (length cs = length ss) then inr (set_each df cs ss)
  else inl ValueError.

(** A table of result rows under column labels of type [L]. *)
Record Table (L : Type) : Type := mkTable {
  labels : list L;
  rows : list (list cell);
}.
Arguments mkTable {L} _ _.
Arguments labels {L} _.
Arguments rows {L} _.

(** Keys of a list of records, each at its first appearance. *)
Definition union_keys (records : list (dict cell)) : list string :=
  fold_left (fun acc r => acc ++ filter (fun k => k ∉ acc) (keys r))
            records [].

(** [pd.DataFrame.from_records(records)] for a list of dicts: a key that a
    record lacks is a missing value in its row. *)
Definition from_records (records : list (dict cell)) : Table string :=
  let cols := union_keys records in
  {| labels := cols;
     rows := map (fun r => map (fun k => default CNone (getitem k r)) cols)
                 records |}.

(** [t.columns = new_labels]: the number of labels must match. *)
Definition set_labels {L L'} (t : Table L) (new_labels : list L')
  : exn + Table L' :=
  if decide (length (labels t) = length new_labels)
  then inr {| labels := new_labels; rows := rows t |}
  else inl ValueError.

(** The value of a row under a label (the first column so labelled). *)
Fixpoint row_get {L} `{EqDecision L} (ls : list L) (row : list cell) (l : L)
  : option cell :=
  match ls, row with
  | l' :: ls', x :: row' => if decide (l' = l) then Some x else row_get ls' row' l
  | _, _ => None
  end.

(** A row re-laid under the labels [to]. *)
Definition reindex {L} `{EqDecision L} (from : list L) (to : list L)
    (row : list cell) : list cell :=
  map (fun l => default CNone (row_get from row l)) to.

(** [pd.concat([a, b]).reset_index(drop=True)]: the rows of [a] then those of
    [b]; the labels of [a], then the labels only [b] has. *)
Definition concat {L} `{EqDecision L} (a b : Table L) : Table L :=
  let ls := labels a ++ filter (fun l => l ∉ labels a) (labels b) in
  {| labels := ls;
     rows := map (reindex (labels a) ls) (rows a)
             ++ map (reindex (labels b) ls) (rows b) |}.

Fixpoint row_set {L} `{EqDecision L} (ls : list L) (row : list cell)
    (l : L) (v : cell) : list cell :=
  match ls, row with
  | l' :: ls', x :: row' =>
      (if decide (l' = l) then v else x) :: row_set ls' row' l v
  | _, _ => row
  end.

(** [t[l] = v] for a scalar [v]: every row gets [v] under [l]; a label the
    table lacks is added as its last column. *)
Definition set_scalar {L} `{EqDecision L} (t : Table L) (l : L) (v : cell)
  : Table L :=
  if decide (l ∈ labels t)
  then {| labels := labels t;
          rows := map (fun row => row_set (labels t) row l v) (rows t) |}
  else {| labels := labels t ++ [l];
          rows := map (fun row => row ++ [v]) (rows t) |}.

End Pandas.

Import Pandas.

(** ** Chunks and the chunking collaborator (nannyml.chunk) *)

Record Chunk : Type := mkChunk {
  key : string;
  chunk_index : Z;
  start_index : Z;
  end_index : Z;
  start_datetime : option Z;
  end_datetime : option Z;
  chunk_data : DataFrame;
}.

(** [chunker.split(data)] *)
Class Chunker (K : Type) : Type :=
  split : K -> DataFrame -> list Chunk.

(** The seven leading entries of every result record. *)
Definition chunk_record (chunk : Chunk) : dict cell :=
  [ ("key", CStr (key chunk));
    ("chunk_index", CInt (chunk_index chunk));
    ("start_index", CInt (start_index chunk));
    ("end_index", CInt (end_index chunk));
    ("start_date", of_time (start_datetime chunk));
    ("end_date", of_time (end_datetime chunk));
    ("period", CStr "analysis") ].

(** Modelled from the spec: [nannyml.base._list_missing] is imported by both
    estimators and is not among the sources.  Missing required columns are an
    invalid-input error whose message enumerates the missing column names. *)
Definition _list_missing (columns_to_find dataset_columns : list string)
  : exn + unit :=
  let missing := filter (fun c => c ∉ dataset_columns) columns_to_find in
  match missing with
  | [] => inr tt
  | _ :: _ =>
      inl (InvalidArgumentsException (MissingColumns missing dataset_columns))
  end.

(** Modelled from the spec: [nannyml.sampling_error.SAMPLING_ERROR_RANGE] is
    not among the sources; the factor of the confidence band is 3. *)
Definition SAMPLING_ERROR_RANGE : Q := 3.

(** ** Calls, state and exceptions *)

(** Calls to the calibration collaborator, in the order they were made. *)
Inductive call : Type :=
  | needs_calibration_call (y_true y_pred_proba : Series)
  | calibrator_fit_call (y_pred_proba y_true : Series)
  | calibrate_call (y_pred_proba : Series).

(** What a method can change: the estimator, the frame object the caller
    passed, and the log of collaborator calls. *)
Record World (E : Type) : Type := mkWorld {
  self : E;
  data : DataFrame;
  calls : list call;
}.
Arguments mkWorld {E} _ _ _.
Arguments self {E} _.
Arguments data {E} _.
Arguments calls {E} _.

(** A computation that returns or raises, and changes the world either way. *)
Definition PyM (E A : Type) : Type := World E -> (exn + A) * World E.

Definition ret {E A} (a : A) : PyM E A := fun w => (inr a, w).

Definition raise {E A} (e : exn) : PyM E A := fun w => (inl e, w).

Definition bind {E A B} (m : PyM E A) (k : A -> PyM E B) : PyM E B :=
  fun w =>
    match m w with
    | (inl e, w') => (inl e, w')
    | (inr a, w') => k a w'
    end.

Notation "x <- c1 ;; c2" := (bind c1 (fun x => c2))
  (at level 100, c1 at next level, right associativity).
Notation "c1 ;; c2" := (bind c1 (fun _ => c2))
  (at level 100, right associativity).

(** A pure step that may raise. *)
Definition lift {E A} (r : exn + A) : PyM E A :=
  match r with
  | inl e => raise e
  | inr a => ret a
  end.

Definition get_self {E} : PyM E E := fun w => (inr (self w), w).
Definition get_data {E} : PyM E DataFrame := fun w => (inr (data w), w).

Definition put_self {E} (s : E) : PyM E unit :=
  fun w => (inr tt, mkWorld s (data w) (calls w)).
Definition put_data {E} (d : DataFrame) : PyM E unit :=
  fun w => (inr tt, mkWorld (self w) d (calls w)).
Definition log {E} (c : call) : PyM E unit :=
  fun w => (inr tt, mkWorld (self w) (data w) (calls w ++ [c])).

(** [data[c]] and [data[c] = s] on the caller's frame. *)
Definition data_get {E} (c : string) : PyM E Series :=
  d <- get_data ;; lift (get d c).
Definition data_set {E} (c : string) (s : Series) : PyM E unit :=
  d <- get_data ;; put_data (set d c s).

(** [[f(x) for x in xs]] where [f] may raise. *)
Fixpoint traverse {A B} (f : A -> exn + B) (xs : list A) : exn + list B :=
  match xs with
  | [] => inr []
  | x :: xs' =>
      match f x with
      | inl e => inl e
      | inr y =>
          match traverse f xs' with
          | inl e => inl e
          | inr ys => inr (y :: ys)
          end
      end
  end.

(** ** The calibration collaborator (nannyml.calibration) *)

Module Calibration.

(** A [Calibrator]: [fit(y_pred_proba, y_true)] changes the calibrator,
    [calibrate(y_pred_proba)] returns the calibrated scores. *)
Class Calibrator (C : Type) : Type := {
  fit : C -> Series -> Series -> C;
  calibrate : C -> Series -> Series;
}.

(** The free function [needs_calibration(y_true, y_pred_proba, calibrator)]. *)
Class Check (C : Type) : Type :=
  needs_calibration : Series -> Series -> C -> bool.

End Calibration.

(** ** Confidence-based estimator for binary classification *)

Module CBPE.

(** A metric of the confidence-based estimator. *)
Class Metric (M : Type) : Type := {
  column_name : M -> string;
  upper_threshold : M -> option Q;
  lower_threshold : M -> option Q;
  fit : M -> DataFrame -> M;
  estimate : M -> DataFrame -> Q;
  sampling_error : M -> DataFrame -> Q;
  realized_performance : M -> DataFrame -> option Q;
}.

Section Estimator.

Context {M K C : Type}.
Context `{!Metric M, !Chunker K, !Calibration.Calibrator C, !Calibration.Check C}.

Record Result : Type := mkResult {
  results_data : Table (string * string);
  result_y_pred_proba : string;
  result_y_pred : string;
  result_y_true : string;
  result_timestamp_column_name : option string;
  result_metrics : list M;
  result_chunker : K;
}.

Record estimator : Type := mkEstimator {
  metrics : list M;
  y_pred : string;
  y_pred_proba : string;
  y_true : string;
  timestamp_column_name : option string;
  chunker : K;
  calibrator : C;
  needs_calibration : bool;
  confidence_upper_bound : Q;
  confidence_lower_bound : Q;
  result : option Result;
}.

Definition with_metrics (ms : list M) (s : estimator) : estimator :=
  mkEstimator ms (y_pred s) (y_pred_proba s) (y_true s)
    (timestamp_column_name s) (chunker s) (calibrator s) (needs_calibration s)
    (confidence_upper_bound s) (confidence_lower_bound s) (result s).

Definition with_calibrator (c : C) (s : estimator) : estimator :=
  mkEstimator (metrics s) (y_pred s) (y_pred_proba s) (y_true s)
    (timestamp_column_name s) (chunker s) c (needs_calibration s)
    (confidence_upper_bound s) (confidence_lower_bound s) (result s).

Definition with_needs_calibration (b : bool) (s : estimator) : estimator :=
  mkEstimator (metrics s) (y_pred s) (y_pred_proba s) (y_true s)
    (timestamp_column_name s) (chunker s) (calibrator s) b
    (confidence_upper_bound s) (confidence_lower_bound s) (result s).

Definition with_result (r : option Result) (s : estimator) : estimator :=
  mkEstimator (metrics s) (y_pred s) (y_pred_proba s) (y_true s)
    (timestamp_column_name s) (chunker s) (calibrator s) (needs_calibration s)
    (confidence_upper_bound s) (confidence_lower_bound s) r.

Definition with_results_data (t : Table (string * string)) (r : Result)
  : Result :=
  mkResult t (result_y_pred_proba r) (result_y_pred r) (result_y_true r)
    (result_timestamp_column_name r) (result_metrics r) (result_chunker r).

(** [__init__]: the attributes [super().__init__] leaves behind are those of
    [super]; the class then fixes the confidence bounds and clears the
    result. *)
Definition __init__ (super : estimator) : estimator :=
  mkEstimator (metrics super) (y_pred super) (y_pred_proba super)
    (y_true super) (timestamp_column_name super) (chunker super)
    (calibrator super) (needs_calibration super)
    1 0 None.

(** [x > t] and [x < t] against a threshold attribute: comparing a float
    with [None] is a TypeError. *)
Definition gt (x : Q) (t : option Q) : exn + bool :=
  match t with
  | Some t => inr (Qltb t x)
  | None => inl TypeError
  end.

Definition lt (x : Q) (t : option Q) : exn + bool :=
  match t with
  | Some t => inr (Qltb x t)
  | None => inl TypeError
  end.

(** [a or b]: [b] is evaluated only when [a] is false. *)
Definition or_else (a : exn + bool) (b : exn + bool) : exn + bool :=
  match a with
  | inl e => inl e
  | inr true => inr true
  | inr false => b
  end.

(** One turn of the loop of [_estimate_chunk]. *)
Definition estimate_metric (s : estimator) (chunk : Chunk) (metric : M)
    (estimates : dict cell) : exn + dict cell :=
  let estimated_metric := estimate metric (chunk_data chunk) in
  let sampling_error := sampling_error metric (chunk_data chunk) in
  let name := column_name metric in
  let estimates :=
    setitem ("sampling_error_" +:+ name) (CFloat sampling_error) estimates in
  let estimates :=
    setitem ("realized_" +:+ name)
            (of_float (realized_performance metric (chunk_data chunk)))
            estimates in
  let estimates :=
    setitem ("estimated_" +:+ name) (CFloat estimated_metric) estimates in
  let estimates :=
    setitem ("upper_confidence_" +:+ name)
            (CFloat (Py.min (confidence_upper_bound s)
                       (estimated_metric + SAMPLING_ERROR_RANGE * sampling_error)%Q))
            estimates in
  let estimates :=
    setitem ("lower_confidence_" +:+ name)
            (CFloat (Py.max (confidence_lower_bound s)
                       (estimated_metric - SAMPLING_ERROR_RANGE * sampling_error)%Q))
            estimates in
  let estimates :=
    setitem ("upper_threshold_" +:+ name) (of_float (upper_threshold metric))
            estimates in
  let estimates :=
    setitem ("lower_threshold_" +:+ name) (of_float (lower_threshold metric))
            estimates in
  match or_else (gt estimated_metric (upper_threshold metric))
                (lt estimated_metric (lower_threshold metric)) with
  | inl e => inl e
  | inr alert => inr (setitem ("alert_" +:+ name) (CBool alert) estimates)
  end.

Fixpoint estimate_metrics (s : estimator) (chunk : Chunk) (ms : list M)
    (estimates : dict cell) : exn + dict cell :=
  match ms with
  | [] => inr estimates
  | metric :: ms' =>
      match estimate_metric s chunk metric estimates with
      | inl e => inl e
      | inr estimates' => estimate_metrics s chunk ms' estimates'
      end
  end.

Definition _estimate_chunk (s : estimator) (chunk : Chunk) : exn + dict cell :=
  estimate_metrics s chunk (metrics s) [].

(** The record of one chunk: [{'key': ..., 'period': 'analysis',
    **self._estimate_chunk(chunk)}]. *)
Definition record_of (s : estimator) (chunk : Chunk) : exn + dict cell :=
  match _estimate_chunk s chunk with
  | inl e => inl e
  | inr estimates => inr (update (chunk_record chunk) estimates)
  end.

(** Modelled from the spec: [confidence_based.cbpe._create_multilevel_index]
    is not among the sources; the layout is the one of section 4.3, which
    dle.py builds with the function of the same name. *)
Definition create_index (metric_names : list string) : list (string * string) :=
  _create_multilevel_index metric_names.

Definition _estimate : PyM estimator Result :=
  d <- get_data ;;
  if empty d then raise (InvalidArgumentsException NoRows) else
  s <- get_self ;;
  lift (_list_missing [y_pred_proba s; y_pred s] (column_names d)) ;;
  scores <- data_get (y_pred_proba s) ;;
  data_set ("uncalibrated_" +:+ y_pred_proba s) scores ;;
  (if needs_calibration s then
     scores <- data_get (y_pred_proba s) ;;
     log (calibrate_call scores) ;;
     data_set (y_pred_proba s) (Calibration.calibrate (calibrator s) scores)
   else ret tt) ;;
  d <- get_data ;;
  let chunks := split (chunker s) d in
  records <- lift (traverse (record_of s) chunks) ;;
  let res := from_records records in
  let multilevel_index := create_index (map column_name (metrics s)) in
  res <- lift (set_labels res multilevel_index) ;;
  match result s with
  | None =>
      let r := mkResult res (y_pred_proba s) (y_pred s) (y_true s)
                 (timestamp_column_name s) (metrics s) (chunker s) in
      put_self (with_result (Some r) s) ;;
      ret r
  | Some r =>
      let r := with_results_data (concat (results_data r) res) r in
      put_self (with_result (Some r) s) ;;
      ret r
  end.

Definition _fit : PyM estimator unit :=
  reference_data <- get_data ;;
  if empty reference_data then raise (InvalidArgumentsException NoRows) else
  s <- get_self ;;
  lift (_list_missing [y_true s; y_pred_proba s; y_pred s]
          (column_names reference_data)) ;;
  scores <- data_get (y_pred_proba s) ;;
  data_set ("uncalibrated_" +:+ y_pred_proba s) scores ;;
  reference_data <- get_data ;;
  put_self (with_metrics (map (fun metric => fit metric reference_data)
                              (metrics s)) s) ;;
  let aligned_reference_data := reset_index reference_data in
  labels <- lift (get aligned_reference_data (y_true s)) ;;
  scores <- lift (get aligned_reference_data (y_pred_proba s)) ;;
  s <- get_self ;;
  log (needs_calibration_call labels scores) ;;
  let flag := Calibration.needs_calibration labels scores (calibrator s) in
  put_self (with_needs_calibration flag s) ;;
  (if flag then
     log (calibrator_fit_call scores labels) ;;
     s <- get_self ;;
     put_self (with_calibrator (Calibration.fit (calibrator s) scores labels) s)
   else ret tt) ;;
  r <- _estimate ;;
  s <- get_self ;;
  put_self (with_result
              (Some (with_results_data
                       (set_scalar (results_data r) ("chunk", "period")
                                   (CStr "reference")) r)) s) ;;
  ret tt.

End Estimator.

Arguments Result : clear implicits.
Arguments estimator : clear implicits.

End CBPE.

(** ** The categorical preprocessing collaborators (scikit-learn) *)

Module SimpleImputer.

(** [fit_transform] and [transform] take and return a block of columns;
    [fit_transform] also returns the fitted imputer. *)
Class t (I : Type) : Type := {
  new : string -> string -> I;        (* strategy, fill_value *)
  fit_transform : I -> list Series -> exn + (I * list Series);
  transform : I -> list Series -> exn + list Series;
}.

End SimpleImputer.

Module LabelEncoder.

(** Integer codes of one column. *)
Class t (L : Type) : Type := {
  new : L;
  fit_transform : L -> Series -> exn + (L * list Z);
  transform : L -> Series -> exn + list Z;
}.

End LabelEncoder.

(** Modelled from the spec: [nannyml.base._split_features_by_type] is not
    among the sources.  The feature columns are split into numeric and
    categorical by column content: a column is categorical when it holds a
    string or a boolean. *)
Definition is_object (c : cell) : bool :=
  match c with
  | CStr _ | CBool _ => true
  | _ => false
  end.

Definition is_categorical (s : Series) : bool := existsb is_object s.

Fixpoint _split_features_by_type (df : DataFrame)
    (feature_column_names : list string) : exn + (list string * list string) :=
  match feature_column_names with
  | [] => inr ([], [])
  | col :: rest =>
      match get df col with
      | inl e => inl e
      | inr s =>
          match _split_features_by_type df rest with
          | inl e => inl e
          | inr (continuous, categorical) =>
              if is_categorical s
              then inr (continuous, col :: categorical)
              else inr (col :: continuous, categorical)
          end
      end
  end.

(** ** Direct loss estimator *)

Module DLE.

(** A metric of the direct loss estimator. *)
Class Metric (M : Type) : Type := {
  column_name : M -> string;
  upper_threshold : M -> option Q;
  lower_threshold : M -> option Q;
  upper_value_limit : M -> option Q;
  lower_value_limit : M -> option Q;
  fit : M -> DataFrame -> M;
  estimate : M -> DataFrame -> Q;
  sampling_error : M -> DataFrame -> Q;
  realized_performance : M -> DataFrame -> option Q;
}.

Section Estimator.

Context {M K I L : Type}.
Context `{!Metric M, !Chunker K, !SimpleImputer.t I, !LabelEncoder.t L}.

(** The hyperparameter attributes are stored and handed to [Result] only;
    no step below reads them, and they are left out. *)
Record Result : Type := mkResult {
  results_data : Table (string * string);
  result_metrics : list M;
  result_feature_column_names : list string;
  result_y_pred : string;
  result_y_true : string;
  result_timestamp_column_name : option string;
  result_chunker : K;
}.

Record estimator : Type := mkEstimator {
  feature_column_names : list string;
  y_pred : string;
  y_true : string;
  timestamp_column_name : option string;
  chunker : K;
  metrics : list M;
  _categorical_imputer : I;
  _categorical_encoders : gmap string L;
  result : option Result;
}.

Definition with_metrics (ms : list M) (s : estimator) : estimator :=
  mkEstimator (feature_column_names s) (y_pred s) (y_true s)
    (timestamp_column_name s) (chunker s) ms (_categorical_imputer s)
    (_categorical_encoders s) (result s).

Definition with_imputer (i : I) (s : estimator) : estimator :=
  mkEstimator (feature_column_names s) (y_pred s) (y_true s)
    (timestamp_column_name s) (chunker s) (metrics s) i
    (_categorical_encoders s) (result s).

Definition with_encoders (e : gmap string L) (s : estimator) : estimator :=
  mkEstimator (feature_column_names s) (y_pred s) (y_true s)
    (timestamp_column_name s) (chunker s) (metrics s) (_categorical_imputer s)
    e (result s).

Definition with_result (r : option Result) (s : estimator) : estimator :=
  mkEstimator (feature_column_names s) (y_pred s) (y_true s)
    (timestamp_column_name s) (chunker s) (metrics s) (_categorical_imputer s)
    (_categorical_encoders s) r.

Definition with_results_data (t : Table (string * string)) (r : Result)
  : Result :=
  mkResult t (result_metrics r) (result_feature_column_names r)
    (result_y_pred r) (result_y_true r) (result_timestamp_column_name r)
    (result_chunker r).

(** [__init__]: [metrics] are the objects [MetricFactory.create] returned. *)
Definition __init__ (feature_column_names : list string) (y_pred y_true : string)
    (timestamp_column_name : option string) (chunker : K) (metrics : list M)
  : estimator :=
  mkEstimator feature_column_names y_pred y_true timestamp_column_name chunker
    metrics (SimpleImputer.new "constant" "NML_missing_value") ∅ None.

(** [x > t if t else False]: the comparison is made only against a truthy
    threshold. *)
Definition gt_if_truthy (x : Q) (t : option Q) : bool :=
  match t with
  | Some t' => if truthy t then Qltb t' x else false
  | None => false
  end.

(** [x < t if t else False] *)
Definition lt_if_truthy (x : Q) (t : option Q) : bool :=
  match t with
  | Some t' => if truthy t then Qltb x t' else false
  | None => false
  end.

Definition upper_confidence_boundary (metric : M) (chunk : Chunk) : Q :=
  let estimated_metric := estimate metric (chunk_data chunk) in
  let sampling_error := sampling_error metric (chunk_data chunk) in
  let upper_confidence_boundary := (estimated_metric + 3 * sampling_error)%Q in
  match upper_value_limit metric with
  | Some limit => Py.min limit upper_confidence_boundary
  | None => upper_confidence_boundary
  end.

Definition lower_confidence_boundary (metric : M) (chunk : Chunk) : Q :=
  let estimated_metric := estimate metric (chunk_data chunk) in
  let sampling_error := sampling_error metric (chunk_data chunk) in
  let lower_confidence_boundary := (estimated_metric - 3 * sampling_error)%Q in
  match lower_value_limit metric with
  | Some limit => Py.max limit lower_confidence_boundary
  | None => lower_confidence_boundary
  end.

(** One turn of the loop of [_estimate_chunk]. *)
Definition estimate_metric (chunk : Chunk) (metric : M) (estimates : dict cell)
  : dict cell :=
  let estimated_metric := estimate metric (chunk_data chunk) in
  let sampling_error := sampling_error metric (chunk_data chunk) in
  let name := column_name metric in
  let estimates :=
    setitem ("sampling_error_" +:+ name) (CFloat sampling_error) estimates in
  let estimates :=
    setitem ("realized_" +:+ name)
            (of_float (realized_performance metric (chunk_data chunk)))
            estimates in
  let estimates :=
    setitem ("estimated_" +:+ name) (CFloat estimated_metric) estimates in
  let estimates :=
    setitem ("upper_confidence_" +:+ name)
            (CFloat (upper_confidence_boundary metric chunk)) estimates in
  let estimates :=
    setitem ("lower_confidence_" +:+ name)
            (CFloat (lower_confidence_boundary metric chunk)) estimates in
  let estimates :=
    setitem ("upper_threshold_" +:+ name) (of_float (upper_threshold metric))
            estimates in
  let estimates :=
    setitem ("lower_threshold_" +:+ name) (of_float (lower_threshold metric))
            estimates in
  setitem ("alert_" +:+ name)
          (CBool (gt_if_truthy estimated_metric (upper_threshold metric)
                  || lt_if_truthy estimated_metric (lower_threshold metric)))
          estimates.

Definition _estimate_chunk (s : estimator) (chunk : Chunk) : dict cell :=
  fold_left (fun estimates metric => estimate_metric chunk metric estimates)
            (metrics s) [].

Definition record_of (s : estimator) (chunk : Chunk) : dict cell :=
  update (chunk_record chunk) (_estimate_chunk s chunk).

(** [self._categorical_encoders[name]] on a [defaultdict(LabelEncoder)]. *)
Definition encoder_of (encoders : gmap string L) (name : string) : L :=
  default LabelEncoder.new (encoders !! name).

(** [block.apply(lambda x: self._categorical_encoders[x.name].fit_transform(x))] *)
Fixpoint fit_transform_each (names : list string) (block : list Series)
  : PyM estimator (list (list Z)) :=
  match names, block with
  | name :: names', x :: block' =>
      s <- get_self ;;
      let encoder := encoder_of (_categorical_encoders s) name in
      match LabelEncoder.fit_transform encoder x with
      | inl e =>
          put_self (with_encoders (<[name := encoder]> (_categorical_encoders s)) s) ;;
          raise e
      | inr (encoder', codes) =>
          put_self (with_encoders (<[name := encoder']> (_categorical_encoders s)) s) ;;
          rest <- fit_transform_each names' block' ;;
          ret (codes :: rest)
      end
  | _, _ => ret []
  end.

(** [block.apply(lambda x: self._categorical_encoders[x.name].transform(x))] *)
Fixpoint transform_each (names : list string) (block : list Series)
  : PyM estimator (list (list Z)) :=
  match names, block with
  | name :: names', x :: block' =>
      s <- get_self ;;
      let encoder := encoder_of (_categorical_encoders s) name in
      put_self (with_encoders (<[name := encoder]> (_categorical_encoders s)) s) ;;
      codes <- lift (LabelEncoder.transform encoder x) ;;
      rest <- transform_each names' block' ;;
      ret (codes :: rest)
  | _, _ => ret []
  end.

Definition int_block (codes : list (list Z)) : list Series :=
  map (map CInt) codes.

Definition _estimate : PyM estimator Result :=
  d <- get_data ;;
  if empty d then raise (InvalidArgumentsException NoRows) else
  s <- get_self ;;
  lift (_list_missing [y_pred s] (column_names d)) ;;
  split_ <- lift (_split_features_by_type d (feature_column_names s)) ;;
  let categorical_feature_columns := split_.2 in
  (if decide (0 < length categorical_feature_columns) then
     block <- lift (get_many d categorical_feature_columns) ;;
     imputed <- lift (SimpleImputer.transform (_categorical_imputer s) block) ;;
     d <- lift (set_many d categorical_feature_columns imputed) ;;
     put_data d ;;
     block <- lift (get_many d categorical_feature_columns) ;;
     codes <- transform_each categorical_feature_columns block ;;
     d <- lift (set_many d categorical_feature_columns (int_block codes)) ;;
     put_data d
   else ret tt) ;;
  d <- get_data ;;
  s <- get_self ;;
  let chunks := split (chunker s) d in
  let res := from_records (map (record_of s) chunks) in
  let multilevel_index :=
    _create_multilevel_index (map column_name (metrics s)) in
  res <- lift (set_labels res multilevel_index) ;;
  match result s with
  | None =>
      let r := mkResult res (metrics s) (feature_column_names s) (y_pred s)
                 (y_true s) (timestamp_column_name s) (chunker s) in
      put_self (with_result (Some r) s) ;;
      ret r
  | Some r =>
      let r := with_results_data (concat (results_data r) res) r in
      put_self (with_result (Some r) s) ;;
      ret r
  end.

Definition _fit : PyM estimator unit :=
  reference_data <- get_data ;;
  if empty reference_data then raise (InvalidArgumentsException NoRows) else
  s <- get_self ;;
  lift (_list_missing [y_true s; y_pred s] (column_names reference_data)) ;;
  split_ <- lift (_split_features_by_type reference_data
                    (feature_column_names s)) ;;
  let categorical_feature_columns := split_.2 in
  (if decide (0 < length categorical_feature_columns) then
     block <- lift (get_many reference_data categorical_feature_columns) ;;
     fitted <- lift (SimpleImputer.fit_transform (_categorical_imputer s) block) ;;
     put_self (with_imputer fitted.1 s) ;;
     d <- lift (set_many reference_data categorical_feature_columns fitted.2) ;;
     put_data d ;;
     block <- lift (get_many d categorical_feature_columns) ;;
     codes <- fit_transform_each categorical_feature_columns block ;;
     d <- lift (set_many d categorical_feature_columns (int_block codes)) ;;
     put_data d
   else ret tt) ;;
  reference_data <- get_data ;;
  s <- get_self ;;
  put_self (with_metrics (map (fun metric => fit metric reference_data)
                              (metrics s)) s) ;;
  r <- _estimate ;;
  s <- get_self ;;
  put_self (with_result
              (Some (with_results_data
                       (set_scalar (results_data r) ("chunk", "period")
                                   (CStr "reference")) r)) s) ;;
  ret tt.

End Estimator.

Arguments Result : clear implicits.
Arguments estimator : clear implicits.

End DLE.

(** ** The records of a chunk, entry by entry *)

(** The eight keys [_estimate_chunk] assigns for a metric named [name]. *)
Definition metric_keys (name : string) : list string :=
  [ "sampling_error_" +:+ name; "realized_" +:+ name; "estimated_" +:+ name;
    "upper_confidence_" +:+ name; "lower_confidence_" +:+ name;
    "upper_threshold_" +:+ name; "lower_threshold_" +:+ name;
    "alert_" +:+ name ].

Module CBPESpec.
Import CBPE.

Section Entries.

Context {M K C : Type}.
Context `{!Metric M, !Chunker K, !Calibration.Calibrator C, !Calibration.Check C}.

(** The alert expression of one metric. *)
Definition alert (chunk : Chunk) (metric : M) : exn + bool :=
  or_else (gt (estimate metric (chunk_data chunk)) (upper_threshold metric))
          (lt (estimate metric (chunk_data chunk)) (lower_threshold metric)).

(** The eight entries of one metric, given the value of its alert. *)
Definition entries (s : estimator M K C) (chunk : Chunk)
    (metric : M) (a : bool) : dict cell :=
  let est := estimate metric (chunk_data chunk) in
  let err := sampling_error metric (chunk_data chunk) in
  let name := column_name metric in
  [ ("sampling_error_" +:+ name, CFloat err);
    ("realized_" +:+ name,
       of_float (realized_performance metric (chunk_data chunk)));
    ("estimated_" +:+ name, CFloat est);
    ("upper_confidence_" +:+ name,
       CFloat (Py.min (confidence_upper_bound s)
                 (est + SAMPLING_ERROR_RANGE * err)%Q));
    ("lower_confidence_" +:+ name,
       CFloat (Py.max (confidence_lower_bound s)
                 (est - SAMPLING_ERROR_RANGE * err)%Q));
    ("upper_threshold_" +:+ name, of_float (upper_threshold metric));
    ("lower_threshold_" +:+ name, of_float (lower_threshold metric));
    ("alert_" +:+ name, CBool a) ].

(** Both thresholds of every metric are numbers. *)
Definition thresholds_defined (ms : list M) : Prop :=
  Forall (fun m => is_Some (upper_threshold m) /\ is_Some (lower_threshold m)) ms.

(** The alert of a metric whose thresholds are numbers. *)
Definition alert_value (chunk : Chunk) (metric : M) : bool :=
  match alert chunk metric with
  | inr a => a
  | inl _ => false
  end.

End Entries.

End CBPESpec.

(** ** The two methods as functions of the world they start in *)

(** The column [c] of a frame that has it. *)
Definition column (d : DataFrame) (c : string) : Series :=
  default [] (getitem c (columns d)).

Module CBPERun.
Import CBPE.

Section Run.

Context {M K C : Type}.
Context `{!Metric M, !Chunker K, !Calibration.Calibrator C, !Calibration.Check C}.

Implicit Types (s : estimator M K C).
Implicit Types (w : World (estimator M K C)).

Definition uncalibrated s : string := "uncalibrated_" +:+ y_pred_proba s.

(** The caller's frame with the scores kept under the derived name. *)
Definition with_uncalibrated s (d : DataFrame) : DataFrame :=
  set d (uncalibrated s) (column d (y_pred_proba s)).

(** The caller's frame once [_estimate] has validated it. *)
Definition prepared s (d : DataFrame) : DataFrame :=
  let d1 := with_uncalibrated s d in
  if needs_calibration s
  then set d1 (y_pred_proba s)
           (Calibration.calibrate (calibrator s) (column d1 (y_pred_proba s)))
  else d1.

(** The calls to [calibrate] one [_estimate] makes. *)
Definition calibrate_calls s (d : DataFrame) : list call :=
  if needs_calibration s
  then [calibrate_call (column (with_uncalibrated s d) (y_pred_proba s))]
  else [].

(** The table of one call, from the prepared frame. *)
Definition table_of s (d : DataFrame) : exn + Table (string * string) :=
  match traverse (record_of s) (split (chunker s) d) with
  | inl e => inl e
  | inr records =>
      set_labels (from_records records)
                 (create_index (map column_name (metrics s)))
  end.

(** The result object after the rows [res] have been taken in. *)
Definition accumulate s (res : Table (string * string)) : Result M K :=
  match result s with
  | None =>
      mkResult res (y_pred_proba s) (y_pred s) (y_true s)
        (timestamp_column_name s) (metrics s) (chunker s)
  | Some r => with_results_data (concat (results_data r) res) r
  end.

(** [_estimate] on a frame that passes validation. *)
Definition estimate_run w : (exn + Result M K) * World (estimator M K C) :=
  let s := self w in
  let d := prepared s (data w) in
  let cs := calls w ++ calibrate_calls s (data w) in
  match table_of s d with
  | inl e => (inl e, mkWorld s d cs)
  | inr res =>
      let r := accumulate s res in
      (inr r, mkWorld (with_result (Some r) s) d cs)
  end.

(** The world in which [_fit] calls [_estimate]. *)
Definition fitted w : World (estimator M K C) :=
  let s := self w in
  let d := with_uncalibrated s (data w) in
  let ms := map (fun metric => fit metric d) (metrics s) in
  let labels := column d (y_true s) in
  let scores := column d (y_pred_proba s) in
  let flag := Calibration.needs_calibration labels scores (calibrator s) in
  let s1 := with_needs_calibration flag (with_metrics ms s) in
  mkWorld
    (if flag
     then with_calibrator (Calibration.fit (calibrator s) scores labels) s1
     else s1)
    d
    (calls w ++ needs_calibration_call labels scores
       :: (if flag then [calibrator_fit_call scores labels] else [])).

(** [self.result.data[('chunk', 'period')] = 'reference'] *)
Definition as_reference (r : Result M K) : Result M K :=
  with_results_data
    (set_scalar (results_data r) ("chunk", "period") (CStr "reference")) r.

(** [_fit] on a frame that passes validation. *)
Definition fit_run w : (exn + unit) * World (estimator M K C) :=
  match estimate_run (fitted w) with
  | (inl e, w') => (inl e, w')
  | (inr r, w') =>
      (inr tt,
       mkWorld (with_result (Some (as_reference r)) (self w')) (data w')
               (calls w'))
  end.

End Run.

End CBPERun.

(** ** Rows of the result table *)

(** The period under which a row of the layout for [names] is filed. *)
Definition period_of (names : list string) (row : list cell) : option cell :=
  row_get (_create_multilevel_index names) row ("chunk", "period").

Module CBPERows.
Import CBPE CBPESpec CBPERun.

Section Rows.

Context {M K C : Type}.
Context `{!Metric M, !Chunker K, !Calibration.Calibrator C, !Calibration.Check C}.

Implicit Types (s : estimator M K C) (r : Result M K).

Definition names s : list string := map column_name (metrics s).

(** The chunks of one [_estimate] call on the frame [d]. *)
Definition chunks s (d : DataFrame) : list Chunk :=
  split (chunker s) (prepared s d).

(** The row of one chunk: its seven chunk values, then eight values per
    metric. *)
Definition row_of s (chunk : Chunk) : list cell :=
  values (chunk_record chunk
          ++ flat_map (fun m => entries s chunk m (alert_value chunk m))
                      (metrics s)).

(** The rows one [_estimate] call on the frame [d] produces. *)
Definition new_rows s (d : DataFrame) : list (list cell) :=
  map (row_of s) (chunks s d).

(** A result table under the layout of the estimator's metrics. *)
Definition well_formed s r : Prop :=
  labels (results_data r) = create_index (names s)
  /\ Forall (fun row => length row = 7 + 8 * length (metrics s))
            (rows (results_data r)).

(** An estimator that [_estimate] can run on: distinct metric names, numeric
    thresholds, and a result, if any, under its own layout. *)
Definition ready s : Prop :=
  NoDup (names s)
  /\ thresholds_defined (metrics s)
  /\ match result s with Some r => well_formed s r | None => True end.

(** A frame [_estimate] accepts and the chunker cuts into at least one
    chunk. *)
Definition accepted s (d : DataFrame) : Prop :=
  empty d = false
  /\ y_pred_proba s ∈ column_names d
  /\ y_pred s ∈ column_names d
  /\ chunks s d <> [].

(** The rows a result holds, none before the first call. *)
Definition rows_so_far s : list (list cell) :=
  match result s with
  | Some r => rows (results_data r)
  | None => []
  end.

End Rows.

End CBPERows.

Module DLESpec.
Import DLE.

Section Entries.

Context {M K I L : Type}.
Context `{!Metric M, !Chunker K, !SimpleImputer.t I, !LabelEncoder.t L}.

(** The eight entries of one metric. *)
Definition entries (chunk : Chunk) (metric : M) : dict cell :=
  let est := estimate metric (chunk_data chunk) in
  let err := sampling_error metric (chunk_data chunk) in
  let name := column_name metric in
  [ ("sampling_error_" +:+ name, CFloat err);
    ("realized_" +:+ name,
       of_float (realized_performance metric (chunk_data chunk)));
    ("estimated_" +:+ name, CFloat est);
    ("upper_confidence_" +:+ name,
       CFloat (upper_confidence_boundary metric chunk));
    ("lower_confidence_" +:+ name,
       CFloat (lower_confidence_boundary metric chunk));
    ("upper_threshold_" +:+ name, of_float (upper_threshold metric));
    ("lower_threshold_" +:+ name, of_float (lower_threshold metric));
    ("alert_" +:+ name,
       CBool (gt_if_truthy est (upper_threshold metric)
              || lt_if_truthy est (lower_threshold metric))) ].

(** The alert in the words of the specification: a side alerts when its
    threshold is defined and the estimate crosses it. *)
Definition alert_when_defined (est : Q) (upper lower : option Q) : bool :=
  match upper with Some u => Qltb u est | None => false end
  || match lower with Some l => Qltb est l | None => false end.

End Entries.

End DLESpec.

Module DLERun.
Import DLE DLESpec.

Section Run.

Context {M K I L : Type}.
Context `{!Metric M, !Chunker K, !SimpleImputer.t I, !LabelEncoder.t L}.

Implicit Types (s : estimator M K I L) (r : Result M K).
Implicit Types (w : World (estimator M K I L)).

Definition names s : list string := map column_name (metrics s).

(** The categorical feature columns of a frame. *)
Definition categorical s (d : DataFrame) : exn + list string :=
  match _split_features_by_type d (feature_column_names s) with
  | inl e => inl e
  | inr split_ => inr split_.2
  end.

(** The statements of [_estimate] under [if len(categorical) > 0], for the
    frame [d] and the estimator [s] the method started with. *)
Definition estimate_block s (d : DataFrame) (cats : list string)
  : PyM (estimator M K I L) unit :=
  if decide (0 < length cats) then
    block <- lift (get_many d cats) ;;
    imputed <- lift (SimpleImputer.transform (_categorical_imputer s) block) ;;
    d <- lift (set_many d cats imputed) ;;
    put_data d ;;
    block <- lift (get_many d cats) ;;
    codes <- transform_each cats block ;;
    d <- lift (set_many d cats (int_block codes)) ;;
    put_data d
  else ret tt.

(** The statements of [_fit] under [if len(categorical) > 0]. *)
Definition fit_block s (d : DataFrame) (cats : list string)
  : PyM (estimator M K I L) unit :=
  if decide (0 < length cats) then
    block <- lift (get_many d cats) ;;
    fitted <- lift (SimpleImputer.fit_transform (_categorical_imputer s) block) ;;
    put_self (with_imputer fitted.1 s) ;;
    d <- lift (set_many d cats fitted.2) ;;
    put_data d ;;
    block <- lift (get_many d cats) ;;
    codes <- fit_transform_each cats block ;;
    d <- lift (set_many d cats (int_block codes)) ;;
    put_data d
  else ret tt.

(** The row of one chunk. *)
Definition row_of s (chunk : Chunk) : list cell :=
  values (chunk_record chunk ++ flat_map (entries chunk) (metrics s)).

(** The rows [_estimate] makes of the encoded frame [d]. *)
Definition new_rows s (d : DataFrame) : list (list cell) :=
  map (row_of s) (split (chunker s) d).

(** The table of one call, from the encoded frame. *)
Definition table_of s (d : DataFrame) : exn + Table (string * string) :=
  set_labels (from_records (map (record_of s) (split (chunker s) d)))
             (_create_multilevel_index (names s)).

Definition accumulate s (res : Table (string * string)) : Result M K :=
  match result s with
  | None =>
      mkResult res (metrics s) (feature_column_names s) (y_pred s) (y_true s)
        (timestamp_column_name s) (chunker s)
  | Some r => with_results_data (concat (results_data r) res) r
  end.

(** [_estimate] from the point where the frame is encoded. *)
Definition estimate_tail w : (exn + Result M K) * World (estimator M K I L) :=
  match table_of (self w) (data w) with
  | inl e => (inl e, w)
  | inr res =>
      let r := accumulate (self w) res in
      (inr r, mkWorld (with_result (Some r) (self w)) (data w) (calls w))
  end.

(** [_estimate] on a frame that passes validation. *)
Definition estimate_run w : (exn + Result M K) * World (estimator M K I L) :=
  match categorical (self w) (data w) with
  | inl e => (inl e, w)
  | inr cats =>
      match estimate_block (self w) (data w) cats w with
      | (inl e, w') => (inl e, w')
      | (inr _, w') => estimate_tail w'
      end
  end.

Definition as_reference (r : Result M K) : Result M K :=
  with_results_data
    (set_scalar (results_data r) ("chunk", "period") (CStr "reference")) r.

(** The world with every metric fitted on its frame. *)
Definition fit_metrics w : World (estimator M K I L) :=
  mkWorld (with_metrics (map (fun metric => fit metric (data w))
                             (metrics (self w))) (self w))
          (data w) (calls w).

(** [_fit] from the point where the frame is encoded. *)
Definition fit_tail w : (exn + unit) * World (estimator M K I L) :=
  match _estimate (fit_metrics w) with
  | (inl e, w') => (inl e, w')
  | (inr r, w') =>
      (inr tt,
       mkWorld (with_result (Some (as_reference r)) (self w')) (data w')
               (calls w'))
  end.

(** [_fit] on a frame that passes validation. *)
Definition fit_run w : (exn + unit) * World (estimator M K I L) :=
  match categorical (self w) (data w) with
  | inl e => (inl e, w)
  | inr cats =>
      match fit_block (self w) (data w) cats w with
      | (inl e, w') => (inl e, w')
      | (inr _, w') => fit_tail w'
      end
  end.

(** The encoders [after] keep every encoder of [before] as it is and add
    only encoders fresh from the factory. *)
Definition keeps_fitted (before after : gmap string L) : Prop :=
  (forall name e, before !! name = Some e -> after !! name = Some e)
  /\ (forall name e, after !! name = Some e ->
         before !! name = Some e
         \/ (before !! name = None /\ e = LabelEncoder.new)).

(** The world in which [_fit] calls [_estimate]: the frame encoded, the
    metrics fitted on it. *)
Definition encoded_fit w : World (estimator M K I L) :=
  match categorical (self w) (data w) with
  | inl _ => w
  | inr cats => fit_metrics (fit_block (self w) (data w) cats w).2
  end.

(** The world in which [_estimate] cuts the frame into chunks: the frame
    encoded. *)
Definition encoded_estimate w : World (estimator M K I L) :=
  match categorical (self w) (data w) with
  | inl _ => w
  | inr cats => (estimate_block (self w) (data w) cats w).2
  end.

Definition rows_so_far s : list (list cell) :=
  match result s with
  | Some r => rows (results_data r)
  | None => []
  end.

Definition well_formed s r : Prop :=
  labels (results_data r) = _create_multilevel_index (names s)
  /\ Forall (fun row => length row = 7 + 8 * length (metrics s))
            (rows (results_data r)).

(** An estimator [_estimate] can build a table with: distinct metric names
    and a result, if any, under its own layout. *)
Definition ready s : Prop :=
  NoDup (names s)
  /\ match result s with Some r => well_formed s r | None => True end.

(** What the encoding of a block may change of the world: the encoders and
    the imputer of the estimator, and the frame. *)
Definition only_encoding (w w' : World (estimator M K I L)) : Prop :=
  calls w' = calls w
  /\ exists imp enc, self w' = with_imputer imp (with_encoders enc (self w)).

End Run.

End DLERun.

(** ** Eager validation *)

(** [run] validates its frame against the columns [required] before it
    changes anything: an empty frame, or a frame that lacks a required
    column, is refused with an invalid-input error and the world is left as
    it was; for a frame with rows the error lists the missing columns. *)
Definition validates_eagerly {E A} (run : PyM E A)
    (required : E -> list string) : Prop :=
  forall w : World E,
    let cols := column_names (data w) in
    let missing := filter (fun c => c ∉ cols) (required (self w)) in
    (empty (data w) = true ->
     run w = (inl (InvalidArgumentsException NoRows), w))
    /\ (empty (data w) = false -> missing <> [] ->
        run w = (inl (InvalidArgumentsException (MissingColumns missing cols)),
                 w))
    /\ (forall c, c ∈ required (self w) -> c ∉ cols ->
        exists m, run w = (inl (InvalidArgumentsException m), w)).

(** ** Small collaborators to run the estimators on *)

Module Example.

#[export] Instance Q_eq_dec : EqDecision Q.
Proof. solve_decision. Defined.

#[export] Instance cell_eq_dec : EqDecision cell.
Proof. solve_decision. Defined.

(** One chunk per row label, holding the whole frame. *)
Inductive per_row : Type := PerRow.

#[export] Instance per_row_chunker : Chunker per_row :=
  fun _ d => map (fun i => mkChunk "row" i i i None None d) (index d).

(** A chunker that finds no chunk. *)
Inductive silent : Type := Silent.

#[export] Instance silent_chunker : Chunker silent := fun _ _ => [].

(** A metric that answers with the numbers it was built with. *)
Record constant_metric : Type := mkConstant {
  cm_name : string;
  cm_upper_threshold : option Q;
  cm_lower_threshold : option Q;
  cm_upper_value_limit : option Q;
  cm_lower_value_limit : option Q;
  cm_value : Q;
  cm_error : Q;
}.

#[export] Instance constant_cbpe_metric : CBPE.Metric constant_metric := {|
  CBPE.column_name := cm_name;
  CBPE.upper_threshold := cm_upper_threshold;
  CBPE.lower_threshold := cm_lower_threshold;
  CBPE.fit := fun m _ => m;
  CBPE.estimate := fun m _ => cm_value m;
  CBPE.sampling_error := fun m _ => cm_error m;
  CBPE.realized_performance := fun _ _ => None;
|}.

#[export] Instance constant_dle_metric : DLE.Metric constant_metric := {|
  DLE.column_name := cm_name;
  DLE.upper_threshold := cm_upper_threshold;
  DLE.lower_threshold := cm_lower_threshold;
  DLE.upper_value_limit := cm_upper_value_limit;
  DLE.lower_value_limit := cm_lower_value_limit;
  DLE.fit := fun m _ => m;
  DLE.estimate := fun m _ => cm_value m;
  DLE.sampling_error := fun m _ => cm_error m;
  DLE.realized_performance := fun _ _ => None;
|}.

(** A calibrator that halves every score. *)
Inductive halving : Type := Halving.

Definition halve (c : cell) : cell :=
  match c with
  | CFloat q => CFloat (q / 2)
  | _ => c
  end.

#[export] Instance halving_calibrator : Calibration.Calibrator halving := {|
  Calibration.fit := fun c _ _ => c;
  Calibration.calibrate := fun _ scores => map halve scores;
|}.

(** Calibration is needed unless the scores are the labels. *)
#[export] Instance halving_check : Calibration.Check halving :=
  fun y_true y_pred_proba _ =>
    if decide (y_true = y_pred_proba) then false else true.

(** An imputer that fills missing cells with its fill value. *)
Record filler : Type := mkFiller { fill_value : string }.

Definition fill (f : filler) (c : cell) : cell :=
  match c with
  | CNone => CStr (fill_value f)
  | _ => c
  end.

#[export] Instance filler_imputer : SimpleImputer.t filler := {|
  SimpleImputer.new := fun _ fill_value => mkFiller fill_value;
  SimpleImputer.fit_transform :=
    fun f block => inr (f, map (map (fill f)) block);
  SimpleImputer.transform := fun f block => inr (map (map (fill f)) block);
|}.

(** An encoder that numbers the classes in order of first appearance; a
    class unseen at fit time is a ValueError. *)
Record classes : Type := mkClasses { seen : list cell }.

Fixpoint position (c : cell) (cs : list cell) : option Z :=
  match cs with
  | [] => None
  | c' :: cs' =>
      if decide (c' = c) then Some 0%Z
      else match position c cs' with
           | Some n => Some (n + 1)%Z
           | None => None
           end
  end.

Definition encode (cs : list cell) (c : cell) : exn + Z :=
  match position c cs with
  | Some n => inr n
  | None => inl ValueError
  end.

#[export] Instance classes_encoder : LabelEncoder.t classes := {|
  LabelEncoder.new := mkClasses [];
  LabelEncoder.fit_transform :=
    fun _ col =>
      let cs := remove_dups col in
      match traverse (encode cs) col with
      | inl e => inl e
      | inr codes => inr (mkClasses cs, codes)
      end;
  LabelEncoder.transform := fun e col => traverse (encode (seen e)) col;
|}.

Definition roc_auc : constant_metric :=
  mkConstant "roc_auc" (Some (9 # 10)) (Some (1 # 10)) None None (1 # 2) (1 # 10).

Definition mae (upper lower lower_limit : option Q) (value : Q)
  : constant_metric :=
  mkConstant "mae" upper lower None lower_limit value 0.

(** A bounded metric whose band of three sampling errors leaves [0, 1] on
    both sides. *)
Definition wide : constant_metric :=
  mkConstant "roc_auc" (Some (9 # 10)) (Some (1 # 10)) None None (1 # 2) (1 # 4).

(** A loss with both value limits declared, whose band passes both. *)
Definition bounded : constant_metric :=
  mkConstant "mape" None None (Some 1%Q) (Some 0%Q) (1 # 2) (1 # 4).

Definition reference : DataFrame :=
  {| index := [0; 1]%Z;
     columns := [ ("y_true", [CInt 1; CInt 0]);
                  ("y_pred_proba", [CFloat (9 # 10); CFloat (1 # 10)]);
                  ("y_pred", [CInt 1; CInt 0]);
                  ("fuel", [CStr "diesel"; CNone]) ] |}.

Definition analysis : DataFrame :=
  {| index := [0; 1; 2]%Z;
     columns := [ ("y_pred_proba",
                     [CFloat (8 # 10); CFloat (2 # 10); CFloat (1 # 2)]);
                  ("y_pred", [CInt 1; CInt 0; CInt 1]);
                  ("fuel", [CStr "diesel"; CNone; CStr "diesel"]) ] |}.

(** Reference data whose scores are the labels. *)
Definition perfect : DataFrame :=
  {| index := [0; 1]%Z;
     columns := [ ("y_true", [CInt 1; CInt 0]);
                  ("y_pred_proba", [CInt 1; CInt 0]);
                  ("y_pred", [CInt 1; CInt 0]) ] |}.

(** Analysis data that lacks the predicted labels. *)
Definition scores_only : DataFrame :=
  {| index := [0; 1]%Z;
     columns := [ ("y_pred_proba", [CFloat (8 # 10); CFloat (2 # 10)]) ] |}.

(** A frame with rows and no column. *)
Definition no_columns : DataFrame := {| index := [0]%Z; columns := [] |}.

(** A frame with numeric features only. *)
Definition numeric : DataFrame :=
  {| index := [0; 1]%Z;
     columns := [ ("y_true", [CFloat 1; CFloat 2]);
                  ("y_pred", [CFloat 1; CFloat 3]);
                  ("km_driven", [CInt 100; CInt 200]) ] |}.

(** A frame with one categorical feature. *)
Definition cars : DataFrame :=
  {| index := [0; 1]%Z;
     columns := [ ("y_true", [CFloat 1; CFloat 2]);
                  ("y_pred", [CFloat 1; CFloat 3]);
                  ("fuel", [CStr "diesel"; CNone]) ] |}.

Definition cbpe : CBPE.estimator constant_metric per_row halving :=
  CBPE.__init__
    (CBPE.mkEstimator [roc_auc] "y_pred" "y_pred_proba" "y_true" None PerRow
       Halving false 1 0 None).

Definition cbpe_with (metrics : list constant_metric)
  : CBPE.estimator constant_metric per_row halving :=
  CBPE.__init__
    (CBPE.mkEstimator metrics "y_pred" "y_pred_proba" "y_true" None PerRow
       Halving false 1 0 None).

(** A metric whose thresholds were never set. *)
Definition unfitted : constant_metric :=
  mkConstant "f1" None None None None (1 # 2) (1 # 10).

Definition dle (features : list string) (metrics : list constant_metric)
  : DLE.estimator constant_metric per_row filler classes :=
  DLE.__init__ features "y_pred" "y_true" None PerRow metrics.

Definition a_chunk : Chunk := mkChunk "row" 0 0 0 None None numeric.

(** The estimators of the examples with a chunker that finds no chunk. *)
Definition silent_cbpe : CBPE.estimator constant_metric silent halving :=
  CBPE.__init__
    (CBPE.mkEstimator [roc_auc] "y_pred" "y_pred_proba" "y_true" None Silent
       Halving false 1 0 None).

Definition silent_dle (features : list string)
  : DLE.estimator constant_metric silent filler classes :=
  DLE.__init__ features "y_pred" "y_true" None Silent [mae None None None 1].

End Example.

Import Example.

(** The worlds of a short session: fit on the reference frame, estimate on
    the analysis frame, fit again on the reference frame. *)
Module Session.

Definition start : World (CBPE.estimator constant_metric per_row halving) :=
  mkWorld cbpe reference [].

Definition after_fit := (CBPE._fit start).2.

Definition after_estimate :=
  (CBPE._estimate (mkWorld (self after_fit) analysis (calls after_fit))).2.

Definition after_refit :=
  (CBPE._fit (mkWorld (self after_estimate) reference (calls after_estimate))).2.

End Session.

(** The same session with the regression strategy, on a frame with a
    categorical feature: fit, estimate, and the world of a second fit. *)
Module DLESession.

Definition start
  : World (DLE.estimator constant_metric per_row filler classes) :=
  mkWorld (dle ["fuel"] [mae None None None 1]) cars [].

Definition after_fit := (DLE._fit start).2.

Definition after_estimate :=
  (DLE._estimate (mkWorld (self after_fit) cars [])).2.

Definition refit := mkWorld (self after_estimate) cars [].

(** A fitted estimator whose chunker finds no chunk: the fit fails at the
    layout, after the imputer and the encoders were fitted. *)
Definition silent_fitted := (DLE._fit (mkWorld (silent_dle ["fuel"]) cars [])).2.

End DLESession.

(** * Properties *)

(** ** The column layout *)

Lemma index_unfold names :
  _create_multilevel_index names = chunk_group ++ flat_map metric_group names.
Proof. reflexivity. Qed.

Lemma flat_map_metric_group_length names :
  length (flat_map metric_group names) = 8 * length names.
Proof. induction names as [|m names IH]; simpl in *; lia. Qed.

Lemma index_length names :
  length (_create_multilevel_index names) = 7 + 8 * length names.
Proof.
  rewrite index_unfold, length_app, flat_map_metric_group_length.
  reflexivity.
Qed.

(** The group of the [j]-th metric starts at offset [8 * j]. *)
Lemma flat_map_metric_group_drop names j name :
  names !! j = Some name ->
  take 8 (drop (8 * j) (flat_map metric_group names)) = metric_group name.
Proof.
  revert j. induction names as [|m names IH]; intros j Hj; [done|].
  destruct j as [|j].
  - simpl in Hj. injection Hj as ->. reflexivity.
  - replace (8 * S j) with (8 + 8 * j) by lia.
    change (flat_map metric_group (m :: names))
      with (metric_group m ++ flat_map metric_group names).
    rewrite <- drop_drop.
    change (drop 8 (metric_group m ++ flat_map metric_group names))
      with (flat_map metric_group names).
    apply IH. exact Hj.
Qed.

(** C8. [_create_multilevel_index] returns the seven chunk columns under
    'chunk' followed, for each metric name in input order, by the eight
    metric columns in their fixed order: the index is that list, it has
    [7 + 8 n] entries, and the eight entries from offset [7 + 8 j] are the
    group of the [j]-th name. *)
Theorem create_multilevel_index_layout (metric_names : list string) :
  _create_multilevel_index metric_names
  = [ ("chunk", "key"); ("chunk", "chunk_index"); ("chunk", "start_index");
      ("chunk", "end_index"); ("chunk", "start_date"); ("chunk", "end_date");
      ("chunk", "period") ]
    ++ flat_map (fun m =>
         [ (m, "sampling_error"); (m, "realized"); (m, "value");
           (m, "upper_confidence_boundary"); (m, "lower_confidence_boundary");
           (m, "upper_threshold"); (m, "lower_threshold"); (m, "alert") ])
         metric_names
  /\ length (_create_multilevel_index metric_names)
     = 7 + 8 * length metric_names
  /\ forall j name,
       metric_names !! j = Some name ->
       take 8 (drop (7 + 8 * j) (_create_multilevel_index metric_names))
       = [ (name, "sampling_error"); (name, "realized"); (name, "value");
           (name, "upper_confidence_boundary");
           (name, "lower_confidence_boundary");
           (name, "upper_threshold"); (name, "lower_threshold");
           (name, "alert") ].
Proof.
  split; [reflexivity|]. split; [apply index_length|].
  intros j name Hj. rewrite index_unfold, <- drop_drop.
  change (drop 7 (chunk_group ++ flat_map metric_group metric_names))
    with (flat_map metric_group metric_names).
  by apply flat_map_metric_group_drop.
Qed.

Lemma create_multilevel_index_layout_witness :
  take 8 (drop (7 + 8 * 1) (_create_multilevel_index ["roc_auc"; "f1"]))
  = [ ("f1", "sampling_error"); ("f1", "realized"); ("f1", "value");
      ("f1", "upper_confidence_boundary"); ("f1", "lower_confidence_boundary");
      ("f1", "upper_threshold"); ("f1", "lower_threshold"); ("f1", "alert") ].
Proof.
  apply (proj2 (proj2 (create_multilevel_index_layout ["roc_auc"; "f1"])) 1 "f1").
  reflexivity.
Defined.

(** ** Dictionaries *)

Section Dict.

Context {V : Type}.
Implicit Types (d e : dict V) (k : string) (v : V).

Lemma getitem_setitem_eq k v d : getitem k (setitem k v d) = Some v.
Proof.
  induction d as [|[k' v'] d IH]; simpl.
  - by rewrite decide_True.
  - destruct (decide (k' = k)) as [->|Hne]; simpl.
    + by rewrite decide_True.
    + by rewrite decide_False.
Qed.

Lemma getitem_setitem_ne k k' v d :
  k <> k' -> getitem k' (setitem k v d) = getitem k' d.
Proof.
  intros Hne. induction d as [|[k0 v0] d IH]; simpl.
  - by rewrite decide_False.
  - destruct (decide (k0 = k)) as [->|Hne0]; simpl.
    + by rewrite !decide_False.
    + by rewrite IH.
Qed.

Lemma setitem_fresh k v d : k ∉ keys d -> setitem k v d = d ++ [(k, v)].
Proof.
  induction d as [|[k' v'] d IH]; simpl; intros Hk; [done|].
  apply not_elem_of_cons in Hk as [Hne Hk].
  rewrite decide_False by done. by rewrite IH.
Qed.

Lemma keys_app d e : keys (d ++ e) = keys d ++ keys e.
Proof. unfold keys. apply fmap_app. Qed.

(** Merging in a dictionary whose keys are new appends it. *)
Lemma update_fresh d e :
  NoDup (keys e) -> (forall k, k ∈ keys e -> k ∉ keys d) -> update d e = d ++ e.
Proof.
  unfold update. revert d.
  induction e as [|[k v] e IH]; intros d Hnd Hdisj; simpl.
  - by rewrite app_nil_r.
  - simpl in Hnd. apply NoDup_cons in Hnd as [Hk Hnd].
    rewrite setitem_fresh by (apply Hdisj; simpl; left).
    rewrite IH; [by rewrite <- app_assoc|done|].
    intros k' Hk'. rewrite keys_app. simpl. rewrite elem_of_app, list_elem_of_singleton.
    intros [Hin| ->]; [|done].
    by apply (Hdisj k'); [simpl; right|].
Qed.

Lemma getitem_app_l k d e x :
  getitem k d = Some x -> getitem k (d ++ e) = Some x.
Proof.
  induction d as [|[k' v'] d IH]; simpl; [done|].
  destruct (decide (k' = k)); auto.
Qed.

Lemma getitem_app_r k d e :
  k ∉ keys d -> getitem k (d ++ e) = getitem k e.
Proof.
  induction d as [|[k' v'] d IH]; simpl; intros Hk; [done|].
  apply not_elem_of_cons in Hk as [Hne Hk].
  rewrite decide_False by done. auto.
Qed.

Lemma getitem_is_Some k d : k ∈ keys d -> is_Some (getitem k d).
Proof.
  induction d as [|[k' v] d IH]; simpl; intros Hk; [by apply elem_of_nil in Hk|].
  destruct (decide (k' = k)); [eauto|].
  apply IH. apply elem_of_cons in Hk as [?|?]; [congruence|done].
Qed.

End Dict.

(** ** Keys of the chunk records *)

Ltac key_neq := let H := fresh in intros H; by simplify_eq/=.

Lemma metric_keys_NoDup name : NoDup (metric_keys name).
Proof.
  unfold metric_keys.
  repeat (apply NoDup_cons; split;
          [rewrite ?not_elem_of_cons; repeat split;
           try key_neq; apply not_elem_of_nil|]).
  apply NoDup_nil_2.
Qed.

Lemma metric_keys_disjoint name name' k :
  name <> name' -> k ∈ metric_keys name -> k ∉ metric_keys name'.
Proof.
  intros Hne Hk. unfold metric_keys in *.
  rewrite !elem_of_cons in Hk. rewrite !not_elem_of_cons.
  destruct Hk as [->|[->|[->|[->|[->|[->|[->|[->|Hk]]]]]]]];
    [..|by apply elem_of_nil in Hk];
    repeat split; try key_neq; apply not_elem_of_nil.
Qed.

Lemma metric_keys_not_chunk name k :
  k ∈ metric_keys name -> k ∉ chunk_column_names.
Proof.
  intros Hk. unfold metric_keys, chunk_column_names in *.
  rewrite !elem_of_cons in Hk. rewrite !not_elem_of_cons.
  destruct Hk as [->|[->|[->|[->|[->|[->|[->|[->|Hk]]]]]]]];
    [..|by apply elem_of_nil in Hk];
    repeat split; try key_neq; apply not_elem_of_nil.
Qed.

Lemma keys_chunk_record chunk : keys (chunk_record chunk) = chunk_column_names.
Proof. reflexivity. Qed.

(** ** The record of a chunk, confidence-based estimator *)

Section CBPEChunk.

Import CBPE CBPESpec.

Context {M K C : Type}.
Context `{!Metric M, !Chunker K, !Calibration.Calibrator C, !Calibration.Check C}.

Implicit Types (s : estimator M K C).
Implicit Types (chunk : Chunk) (m : M) (ms : list M).

Lemma cbpe_keys_entries s chunk m a :
  keys (entries s chunk m a) = metric_keys (column_name m).
Proof. reflexivity. Qed.

Lemma cbpe_estimate_metric_eq s chunk m d :
  estimate_metric s chunk m d
  = match alert chunk m with
    | inl e => inl e
    | inr a => inr (update d (entries s chunk m a))
    end.
Proof. unfold estimate_metric, alert. by destruct (or_else _ _). Qed.

Lemma cbpe_alert_defined chunk m :
  is_Some (upper_threshold m) -> is_Some (lower_threshold m) ->
  alert chunk m = inr (alert_value chunk m).
Proof.
  intros [u Hu] [l Hl]. unfold alert_value, alert. rewrite Hu, Hl. simpl.
  by destruct (Qltb u _).
Qed.

(** With numeric thresholds and distinct metric names, the loop appends the
    eight entries of each metric, in metric order. *)
Lemma cbpe_estimate_metrics_fresh s chunk ms d :
  NoDup (map column_name ms) ->
  thresholds_defined ms ->
  (forall m k, m ∈ ms -> k ∈ metric_keys (column_name m) -> k ∉ keys d) ->
  estimate_metrics s chunk ms d
  = inr (d ++ flat_map (fun m => entries s chunk m (alert_value chunk m)) ms).
Proof.
  revert d. induction ms as [|m ms IH]; intros d Hnd Hth Hfresh; simpl.
  - by rewrite app_nil_r.
  - apply NoDup_cons in Hnd as [Hm Hnd].
    apply Forall_cons in Hth as [[Hu Hl] Hth].
    rewrite cbpe_estimate_metric_eq, (cbpe_alert_defined _ _ Hu Hl).
    rewrite update_fresh.
    + rewrite IH; [by rewrite <- app_assoc|done|done|].
      intros m' k Hm' Hk. rewrite keys_app, cbpe_keys_entries.
      apply not_elem_of_app. split.
      * apply (Hfresh m'); [by right|done].
      * apply (metric_keys_disjoint (column_name m')); [|done].
        intros Heq. apply Hm. rewrite <- Heq. by apply list_elem_of_fmap_2.
    + rewrite cbpe_keys_entries. apply metric_keys_NoDup.
    + intros k Hk. rewrite cbpe_keys_entries in Hk.
      apply (Hfresh m); [by left|done].
Qed.

Lemma cbpe_estimate_chunk_ok s chunk :
  NoDup (map column_name (metrics s)) ->
  thresholds_defined (metrics s) ->
  _estimate_chunk s chunk
  = inr (flat_map (fun m => entries s chunk m (alert_value chunk m)) (metrics s)).
Proof.
  intros Hnd Hth. unfold _estimate_chunk.
  rewrite cbpe_estimate_metrics_fresh; [done..|].
  intros m k _ _. apply not_elem_of_nil.
Qed.

Lemma cbpe_keys_flat_entries s chunk ms :
  keys (flat_map (fun m => entries s chunk m (alert_value chunk m)) ms)
  = flat_map metric_keys (map column_name ms).
Proof.
  induction ms as [|m ms IH]; [done|].
  change (flat_map ?f (m :: ms)) with (f m ++ flat_map f ms).
  rewrite keys_app, IH. reflexivity.
Qed.

Lemma elem_of_flat_metric_keys k names :
  k ∈ flat_map metric_keys names ->
  exists name, name ∈ names /\ k ∈ metric_keys name.
Proof.
  induction names as [|n names IH].
  - intros Hk. by apply elem_of_nil in Hk.
  - change (flat_map metric_keys (n :: names))
      with (metric_keys n ++ flat_map metric_keys names).
    rewrite elem_of_app. intros [Hk|Hk].
    + exists n. split; [by left|done].
    + destruct (IH Hk) as (n' & Hn' & Hk'). exists n'. split; [by right|done].
Qed.

Lemma flat_metric_keys_NoDup names :
  NoDup names -> NoDup (flat_map metric_keys names).
Proof.
  induction 1 as [|n names Hn Hnd IH]; [apply NoDup_nil_2|].
  change (flat_map metric_keys (n :: names))
    with (metric_keys n ++ flat_map metric_keys names).
  apply NoDup_app. split; [apply metric_keys_NoDup|]. split; [|done].
  intros k Hk Hk'. apply elem_of_flat_metric_keys in Hk' as (n' & Hn' & Hk').
  apply (metric_keys_disjoint n n' k); [|done|done].
  intros ->. done.
Qed.

Lemma flat_metric_keys_length names :
  length (flat_map metric_keys names) = 8 * length names.
Proof.
  induction names as [|n names IH]; [done|].
  change (flat_map metric_keys (n :: names))
    with (metric_keys n ++ flat_map metric_keys names).
  rewrite length_app, IH. cbn [metric_keys length]. lia.
Qed.

End CBPEChunk.

Section CBPELookup.

Import CBPE CBPESpec.

Context {M K C : Type}.
Context `{!Metric M, !Chunker K, !Calibration.Calibrator C, !Calibration.Check C}.

Implicit Types (s : estimator M K C).
Implicit Types (chunk : Chunk) (m : M) (ms : list M).

(** Under distinct names, a key of metric [m] is found in the entries of
    [m]. *)
Lemma cbpe_getitem_flat_entries s chunk ms m k :
  NoDup (map column_name ms) -> m ∈ ms -> k ∈ metric_keys (column_name m) ->
  getitem k (flat_map (fun m => entries s chunk m (alert_value chunk m)) ms)
  = getitem k (entries s chunk m (alert_value chunk m)).
Proof.
  intros Hnd Hm Hk. induction ms as [|m0 ms IH]; [by apply elem_of_nil in Hm|].
  change (flat_map ?f (m0 :: ms)) with (f m0 ++ flat_map f ms).
  apply NoDup_cons in Hnd as [Hm0 Hnd].
  apply elem_of_cons in Hm as [<-|Hm].
  - assert (is_Some (getitem k (entries s chunk m (alert_value chunk m))))
      as [x Hx].
    { apply getitem_is_Some. by rewrite cbpe_keys_entries. }
    rewrite Hx. by apply getitem_app_l.
  - rewrite getitem_app_r; [by apply IH|].
    rewrite cbpe_keys_entries.
    apply (metric_keys_disjoint (column_name m)); [|done].
    intros Heq. apply Hm0. rewrite <- Heq. by apply list_elem_of_fmap_2.
Qed.

Lemma cbpe_record_of_ok s chunk :
  NoDup (map column_name (metrics s)) ->
  thresholds_defined (metrics s) ->
  record_of s chunk
  = inr (chunk_record chunk
         ++ flat_map (fun m => entries s chunk m (alert_value chunk m))
                     (metrics s)).
Proof.
  intros Hnd Hth. unfold record_of. rewrite cbpe_estimate_chunk_ok by done.
  rewrite update_fresh; [done| |].
  - rewrite cbpe_keys_flat_entries. by apply flat_metric_keys_NoDup.
  - intros k Hk. rewrite cbpe_keys_flat_entries in Hk.
    apply elem_of_flat_metric_keys in Hk as (n & _ & Hk).
    rewrite keys_chunk_record. by apply (metric_keys_not_chunk n).
Qed.

(** The entries of metric [m] in the estimates of a chunk. *)
Lemma cbpe_estimate_chunk_lookup s chunk m :
  NoDup (map column_name (metrics s)) ->
  thresholds_defined (metrics s) ->
  m ∈ metrics s ->
  exists estimates,
    _estimate_chunk s chunk = inr estimates
    /\ forall k, k ∈ metric_keys (column_name m) ->
         getitem k estimates
         = getitem k (entries s chunk m (alert_value chunk m)).
Proof.
  intros Hnd Hth Hm. eexists. split; [by apply cbpe_estimate_chunk_ok|].
  intros k Hk. by apply cbpe_getitem_flat_entries.
Qed.

End CBPELookup.

(** ** Running the monad *)

Lemma list_missing_ok (required cols : list string) :
  (forall c, c ∈ required -> c ∈ cols) -> _list_missing required cols = inr tt.
Proof.
  intros Hall. unfold _list_missing.
  assert (filter (fun c => c ∉ cols) required = []) as ->; [|done].
  induction required as [|c required IH]; [done|].
  rewrite filter_cons. destruct (decide (c ∉ cols)) as [Hc|Hc].
  - exfalso. apply Hc, Hall. by left.
  - apply IH. intros c' Hc'. apply Hall. by right.
Qed.

Lemma list_missing_inv (required cols : list string) :
  _list_missing required cols = inr tt -> forall c, c ∈ required -> c ∈ cols.
Proof.
  unfold _list_missing. intros Hok c Hc.
  destruct (decide (c ∈ cols)) as [|Hn]; [done|].
  assert (c ∈ filter (fun c => c ∉ cols) required) as Hin.
  { apply list_elem_of_filter. done. }
  destruct (filter _ required); [by apply elem_of_nil in Hin|done].
Qed.

Lemma get_column d c : c ∈ column_names d -> get d c = inr (column d c).
Proof.
  intros Hc. unfold get, column.
  by destruct (getitem_is_Some c (columns d) Hc) as [x ->].
Qed.

Lemma keys_setitem_subseteq {V} k k' (v : V) (d : dict V) :
  k' ∈ keys d -> k' ∈ keys (setitem k v d).
Proof.
  induction d as [|[k0 v0] d IH]; simpl; intros Hk; [by apply elem_of_nil in Hk|].
  destruct (decide (k0 = k)) as [->|]; simpl.
  - apply elem_of_cons in Hk as [->|?]; [by left|by right].
  - apply elem_of_cons in Hk as [->|?]; [by left|right; auto].
Qed.


Lemma column_names_set d c x c' :
  c' ∈ column_names d -> c' ∈ column_names (set d c x).
Proof. apply keys_setitem_subseteq. Qed.

Lemma empty_set d c x : empty d = false -> empty (set d c x) = false.
Proof.
  unfold empty, set. simpl. destruct (index d); [done|].
  destruct (columns d) as [|[k v] cs]; [done|]. simpl.
  by destruct (decide (k = c)).
Qed.

Lemma column_set_eq d c x : column (set d c x) c = x.
Proof. unfold column, set. simpl. by rewrite getitem_setitem_eq. Qed.

Lemma column_set_ne d c c' x : c <> c' -> column (set d c x) c' = column d c'.
Proof. intros Hne. unfold column, set. simpl. by rewrite getitem_setitem_ne. Qed.

Lemma string_length_app (p x : string) :
  String.length (p +:+ x) = String.length p + String.length x.
Proof. induction p as [|c p IH]; simpl; [done|]. by rewrite IH. Qed.

Lemma append_length_neq (p x : string) : p <> "" -> p +:+ x <> x.
Proof.
  intros Hp Heq. apply (f_equal String.length) in Heq.
  rewrite string_length_app in Heq.
  destruct p; [done|]. simpl in Heq. lia.
Qed.

(** One step of a run: the primitive computations and the projections of the
    world. *)
Ltac run := cbn [lift ret raise self data calls].

Section CBPERunLemmas.

Import CBPE CBPERun.

Context {M K C : Type}.
Context `{!Metric M, !Chunker K, !Calibration.Calibrator C, !Calibration.Check C}.

Implicit Types (s : estimator M K C).
Implicit Types (w : World (estimator M K C)).

Lemma cbpe_estimate_valid w :
  empty (data w) = false ->
  y_pred_proba (self w) ∈ column_names (data w) ->
  y_pred (self w) ∈ column_names (data w) ->
  _estimate w = estimate_run w.
Proof.
  intros Hne Hproba Hpred. destruct w as [s d cs].
  cbn [self data calls] in *.
  unfold _estimate, estimate_run, prepared, calibrate_calls, table_of, accumulate.
  cbv [bind get_data get_self data_get data_set put_data put_self log].
  run. rewrite Hne. run.
  rewrite list_missing_ok.
  2:{ intros c Hc. rewrite !elem_of_cons in Hc.
      destruct Hc as [->|[->|Hc]]; [done..|by apply elem_of_nil in Hc]. }
  run. rewrite (get_column d) by done. run.
  fold (uncalibrated s). fold (with_uncalibrated s d).
  destruct (needs_calibration s); run.
  - rewrite get_column by (by apply column_names_set). run.
    destruct (traverse _ _) as [e|records]; run; [done|].
    destruct (set_labels _ _) as [e|res]; run; [done|].
    by destruct (result s).
  - rewrite app_nil_r.
    destruct (traverse _ _) as [e|records]; run; [done|].
    destruct (set_labels _ _) as [e|res]; run; [done|].
    by destruct (result s).
Qed.

(** A rejected [_estimate] changes nothing. *)
Lemma cbpe_estimate_empty w :
  empty (data w) = true ->
  _estimate w = (inl (InvalidArgumentsException NoRows), w).
Proof.
  intros He. unfold _estimate. cbv [bind get_data]. by rewrite He.
Qed.

Lemma cbpe_estimate_missing w e :
  empty (data w) = false ->
  _list_missing [y_pred_proba (self w); y_pred (self w)]
                (column_names (data w)) = inl e ->
  _estimate w = (inl e, w).
Proof.
  intros He Hm. unfold _estimate. cbv [bind get_data get_self].
  rewrite He, Hm. reflexivity.
Qed.

Lemma uncalibrated_neq s : uncalibrated s <> y_pred_proba s.
Proof. by apply append_length_neq. Qed.

Lemma cbpe_fit_valid w :
  empty (data w) = false ->
  y_true (self w) ∈ column_names (data w) ->
  y_pred_proba (self w) ∈ column_names (data w) ->
  y_pred (self w) ∈ column_names (data w) ->
  _fit w = fit_run w.
Proof.
  intros Hne Htrue Hproba Hpred.
  assert (_estimate (fitted w) = estimate_run (fitted w)) as Hest.
  { apply cbpe_estimate_valid; destruct w as [s d cs]; unfold fitted;
      cbn [self data calls] in *.
    - by apply empty_set.
    - destruct (Calibration.needs_calibration _ _ _); by apply column_names_set.
    - destruct (Calibration.needs_calibration _ _ _); by apply column_names_set. }
  unfold fit_run. rewrite <- Hest. clear Hest.
  destruct w as [s d cs]. cbn [self data calls] in *.
  unfold _fit, fitted.
  cbv [bind get_data get_self data_get data_set put_data put_self log].
  run. rewrite Hne. run.
  rewrite list_missing_ok.
  2:{ intros c Hc. rewrite !elem_of_cons in Hc.
      destruct Hc as [->|[->|[->|Hc]]]; [done..|by apply elem_of_nil in Hc]. }
  run. rewrite (get_column d) by done. run.
  fold (uncalibrated s). fold (with_uncalibrated s d).
  assert (forall c, get (reset_index (with_uncalibrated s d)) c
                    = get (with_uncalibrated s d) c) as Hreset by done.
  rewrite !Hreset.
  rewrite !get_column by (by apply column_names_set). run.
  destruct (Calibration.needs_calibration _ _ _); run.
  - rewrite <- app_assoc. cbn [app].
    destruct (_estimate _) as [[e|r] w']; done.
  - destruct (_estimate _) as [[e|r] w']; done.
Qed.

End CBPERunLemmas.

(** ** Tables *)

Lemma traverse_ok {A B} (f : A -> exn + B) (g : A -> B) xs :
  (forall x, x ∈ xs -> f x = inr (g x)) -> traverse f xs = inr (map g xs).
Proof.
  induction xs as [|x xs IH]; intros Hf; simpl; [done|].
  rewrite Hf by (by left). rewrite IH; [done|].
  intros y Hy. apply Hf. by right.
Qed.

Lemma filter_not_elem_of_self {A} `{EqDecision A} (l : list A) :
  filter (fun k => k ∉ l) l = [].
Proof.
  assert (forall l', (forall x, x ∈ l' -> x ∈ l) -> filter (fun k => k ∉ l) l' = [])
    as Hgen.
  { induction l' as [|x l' IH]; intros Hsub; [done|].
    rewrite filter_cons. destruct (decide (x ∉ l)) as [Hx|Hx].
    - exfalso. apply Hx, Hsub. by left.
    - apply IH. intros y Hy. apply Hsub. by right. }
  by apply Hgen.
Qed.

Lemma filter_not_elem_of_nil {A} `{EqDecision A} (l : list A) :
  filter (fun k => k ∉ @nil A) l = l.
Proof.
  induction l as [|x l IH]; [done|].
  rewrite filter_cons. destruct (decide (x ∉ [])) as [Hx|Hx].
  - by rewrite IH.
  - exfalso. apply Hx. apply not_elem_of_nil.
Qed.

(** Records that all carry the keys [ks] give a table with columns [ks]. *)
Lemma union_keys_same ks (records : list (dict cell)) :
  records <> [] -> Forall (fun r => keys r = ks) records ->
  union_keys records = ks.
Proof.
  intros Hne Hall. unfold union_keys.
  destruct records as [|r records]; [done|]. clear Hne.
  apply Forall_cons in Hall as [Hr Hall]. cbn [fold_left app].
  rewrite Hr, filter_not_elem_of_nil.
  induction records as [|r' records IH]; cbn [fold_left]; [done|].
  apply Forall_cons in Hall as [Hr' Hall].
  rewrite Hr', filter_not_elem_of_self, app_nil_r. by apply IH.
Qed.

Lemma values_by_keys (r : dict cell) :
  NoDup (keys r) ->
  map (fun k => default CNone (getitem k r)) (keys r) = values r.
Proof.
  induction r as [|[k v] r IH]; simpl; intros Hnd; [done|].
  apply NoDup_cons in Hnd as [Hk Hnd].
  rewrite decide_True by done. simpl. f_equal.
  rewrite <- IH by done.
  apply map_ext_in. intros k' Hk'. apply list_elem_of_In in Hk'.
  rewrite decide_False; [done|]. intros ->. done.
Qed.

Lemma from_records_same ks (records : list (dict cell)) :
  records <> [] -> NoDup ks -> Forall (fun r => keys r = ks) records ->
  from_records records = {| labels := ks; rows := map values records |}.
Proof.
  intros Hne Hnd Hall. unfold from_records.
  rewrite (union_keys_same ks) by done. f_equal.
  apply map_ext_in. intros r Hr. apply list_elem_of_In in Hr.
  rewrite Forall_forall in Hall. specialize (Hall r Hr). subst ks.
  by apply values_by_keys.
Qed.

Lemma row_get_row_set_eq {L} `{EqDecision L} (ls : list L) row l v :
  l ∈ ls -> length row = length ls ->
  row_get ls (row_set ls row l v) l = Some v.
Proof.
  revert row. induction ls as [|l' ls IH]; intros row Hl Hlen.
  - by apply elem_of_nil in Hl.
  - destruct row as [|x row]; [done|]. simpl in *.
    destruct (decide (l' = l)) as [->|Hne]; [done|].
    apply IH; [|lia]. apply elem_of_cons in Hl as [?|?]; [congruence|done].
Qed.

Lemma row_set_length {L} `{EqDecision L} (ls : list L) row l v :
  length (row_set ls row l v) = length row.
Proof.
  revert row. induction ls as [|l' ls IH]; intros [|x row]; simpl; auto.
Qed.

Lemma row_get_row_set_ne {L} `{EqDecision L} (ls : list L) row l l' v :
  l <> l' -> row_get ls (row_set ls row l v) l' = row_get ls row l'.
Proof.
  intros Hne. revert row.
  induction ls as [|l0 ls IH]; intros [|x row]; simpl; try done.
  destruct (decide (l0 = l')) as [->|Hne'].
  - by rewrite decide_False.
  - apply IH.
Qed.

Lemma reindex_self {L} `{EqDecision L} (ls : list L) row :
  NoDup ls -> length row = length ls -> reindex ls ls row = row.
Proof.
  unfold reindex. revert row.
  induction ls as [|l ls IH]; intros row Hnd Hlen.
  - by destruct row.
  - destruct row as [|x row]; [done|]. simpl in *.
    apply NoDup_cons in Hnd as [Hl Hnd].
    rewrite decide_True by done. simpl. f_equal.
    etrans; [|apply (IH row); [done|lia]].
    apply map_ext_in. intros l' Hl'. apply list_elem_of_In in Hl'.
    rewrite decide_False; [done|]. intros ->. done.
Qed.

(** Tables under the same labels are appended row by row. *)
Lemma concat_same {L} `{EqDecision L} (a b : Table L) :
  labels b = labels a -> NoDup (labels a) ->
  Forall (fun row => length row = length (labels a)) (rows a) ->
  Forall (fun row => length row = length (labels a)) (rows b) ->
  concat a b = {| labels := labels a; rows := rows a ++ rows b |}.
Proof.
  intros Hlab Hnd Ha Hb. unfold concat.
  rewrite Hlab, filter_not_elem_of_self, app_nil_r. f_equal. f_equal.
  - rewrite <- (map_id (rows a)) at 2. apply map_ext_in.
    intros row Hrow. apply list_elem_of_In in Hrow.
    rewrite Forall_forall in Ha. apply reindex_self; auto.
  - rewrite <- (map_id (rows b)) at 2. apply map_ext_in.
    intros row Hrow. apply list_elem_of_In in Hrow.
    rewrite Forall_forall in Hb. apply reindex_self; auto.
Qed.

Lemma metric_group_not_chunk name p : p ∈ metric_group name -> p ∉ chunk_group.
Proof.
  unfold metric_group, chunk_group. intros Hp.
  rewrite !elem_of_cons in Hp. rewrite !not_elem_of_cons.
  destruct Hp as [->|[->|[->|[->|[->|[->|[->|[->|Hp]]]]]]]];
    [..|by apply elem_of_nil in Hp];
    repeat split; try (intros [=]); apply not_elem_of_nil.
Qed.

Lemma elem_of_metric_group name p : p ∈ metric_group name -> p.1 = name.
Proof.
  unfold metric_group. rewrite !elem_of_cons.
  intros [->|[->|[->|[->|[->|[->|[->|[->|Hp]]]]]]]];
    [done..|by apply elem_of_nil in Hp].
Qed.

Lemma index_NoDup names : NoDup names -> NoDup (_create_multilevel_index names).
Proof.
  intros Hnd. rewrite index_unfold. apply NoDup_app. split; [|split].
  - unfold chunk_group.
    repeat (apply NoDup_cons; split;
            [rewrite ?not_elem_of_cons; repeat split;
             try (intros [=]); apply not_elem_of_nil|]).
    apply NoDup_nil_2.
  - intros p Hp Hp'. apply list_elem_of_In, in_flat_map in Hp'
      as (n & _ & Hp'). apply list_elem_of_In in Hp'.
    by apply (metric_group_not_chunk n p).
  - induction Hnd as [|n names Hn Hnd IH]; [apply NoDup_nil_2|].
    change (flat_map metric_group (n :: names))
      with (metric_group n ++ flat_map metric_group names).
    apply NoDup_app. split; [|split; [|done]].
    + unfold metric_group.
      repeat (apply NoDup_cons; split;
              [rewrite ?not_elem_of_cons; repeat split;
               try (intros [=]); apply not_elem_of_nil|]).
      apply NoDup_nil_2.
    + intros p Hp Hp'. apply list_elem_of_In, in_flat_map in Hp'
        as (n' & Hn' & Hp'). apply list_elem_of_In in Hp', Hn'.
      apply elem_of_metric_group in Hp, Hp'. congruence.
Qed.

Lemma period_in_index names : ("chunk", "period") ∈ _create_multilevel_index names.
Proof.
  rewrite index_unfold. apply elem_of_app. left. unfold chunk_group.
  rewrite !elem_of_cons. tauto.
Qed.

(** ** Accumulation of rows, confidence-based estimator *)

Section CBPEAccumulate.

Import CBPE CBPESpec CBPERun CBPERows.

Context {M K C : Type}.
Context `{!Metric M, !Chunker K, !Calibration.Calibrator C, !Calibration.Check C}.

Implicit Types (s : estimator M K C) (r : Result M K).
Implicit Types (w : World (estimator M K C)).

Lemma cbpe_row_of_length s chunk :
  length (row_of s chunk) = 7 + 8 * length (metrics s).
Proof.
  unfold row_of, values. rewrite length_fmap, length_app.
  change (length (chunk_record chunk)) with 7. f_equal.
  induction (metrics s) as [|m ms IH]; [done|].
  change (flat_map ?f (m :: ms)) with (f m ++ flat_map f ms).
  rewrite length_app, IH. change (length (entries _ _ _ _)) with 8.
  cbn [length]. lia.
Qed.

Lemma cbpe_table_of_ok s d :
  NoDup (names s) -> thresholds_defined (metrics s) ->
  split (chunker s) d <> [] ->
  table_of s d
  = inr {| labels := create_index (names s);
           rows := map (row_of s) (split (chunker s) d) |}.
Proof.
  intros Hnd Hth Hne. unfold table_of.
  rewrite (traverse_ok _
             (fun chunk => chunk_record chunk
                ++ flat_map (fun m => entries s chunk m (alert_value chunk m))
                            (metrics s))).
  2:{ intros chunk _. by apply cbpe_record_of_ok. }
  rewrite (from_records_same (chunk_column_names ++ flat_map metric_keys (names s))).
  - unfold set_labels. cbn [labels rows].
    rewrite decide_True.
    + f_equal. f_equal. by rewrite map_map.
    + unfold create_index. rewrite index_length, length_app.
      rewrite flat_metric_keys_length. done.
  - destruct (split (chunker s) d); [done|]. done.
  - apply NoDup_app. split; [|split].
    + unfold chunk_column_names.
      repeat (apply NoDup_cons; split;
              [rewrite ?not_elem_of_cons; repeat split;
               try (intros [=]); apply not_elem_of_nil|]).
      apply NoDup_nil_2.
    + intros k Hk Hk'. apply elem_of_flat_metric_keys in Hk' as (n & _ & Hk').
      by apply (metric_keys_not_chunk n k).
    + by apply flat_metric_keys_NoDup.
  - apply Forall_forall. intros rec Hrec.
    apply list_elem_of_fmap in Hrec as (chunk & -> & _).
    rewrite keys_app, keys_chunk_record, cbpe_keys_flat_entries. done.
Qed.

(** Every new row is filed under 'analysis'. *)
Lemma cbpe_row_of_period s chunk :
  period_of (names s) (row_of s chunk) = Some (CStr "analysis").
Proof. reflexivity. Qed.

Lemma cbpe_new_rows_wf s d :
  Forall (fun row => length row = 7 + 8 * length (metrics s)) (new_rows s d).
Proof.
  apply Forall_forall. intros row Hrow.
  apply list_elem_of_fmap in Hrow as (chunk & -> & _).
  apply cbpe_row_of_length.
Qed.

Lemma cbpe_new_rows_period s d :
  Forall (fun row => period_of (names s) row = Some (CStr "analysis"))
         (new_rows s d).
Proof.
  apply Forall_forall. intros row Hrow.
  apply list_elem_of_fmap in Hrow as (chunk & -> & _).
  apply cbpe_row_of_period.
Qed.

(** [_estimate] on a ready estimator and an accepted frame returns the
    result with the new rows after those it held. *)
Lemma cbpe_estimate_ready w :
  ready (self w) -> accepted (self w) (data w) ->
  exists r,
    _estimate w
    = (inr r, mkWorld (with_result (Some r) (self w))
                      (prepared (self w) (data w))
                      (calls w ++ calibrate_calls (self w) (data w)))
    /\ rows (results_data r) = rows_so_far (self w) ++ new_rows (self w) (data w)
    /\ well_formed (self w) r.
Proof.
  intros (Hnd & Hth & Hwf) (Hne & Hproba & Hpred & Hchunks).
  rewrite cbpe_estimate_valid by done. unfold estimate_run.
  rewrite cbpe_table_of_ok by done.
  eexists. split; [reflexivity|].
  unfold accumulate, rows_so_far. destruct (result (self w)) as [r0|].
  - destruct Hwf as [Hlab Hrows]. cbn [results_data with_results_data].
    rewrite concat_same.
    + cbn [rows labels]. split; [done|]. split; cbn [results_data labels rows].
      * done.
      * apply Forall_app. split; [done|]. apply cbpe_new_rows_wf.
    + by cbn [labels].
    + rewrite Hlab. unfold create_index. by apply index_NoDup.
    + rewrite Hlab. unfold create_index. rewrite index_length.
      unfold names. by rewrite length_map.
    + cbn [rows]. rewrite Hlab. unfold create_index. rewrite index_length.
      unfold names. rewrite length_map. apply cbpe_new_rows_wf.
  - cbn [results_data rows labels app]. split; [done|].
    split; cbn [results_data rows labels]; [done|]. apply cbpe_new_rows_wf.
Qed.

Lemma cbpe_ready_with_result s r :
  NoDup (names s) -> thresholds_defined (metrics s) -> well_formed s r ->
  ready (with_result (Some r) s).
Proof.
  intros Hnd Hth Hwf. unfold ready. cbn [result with_result].
  split; [done|]. split; [done|]. exact Hwf.
Qed.

(** Relabelling keeps the rows in place and files each under 'reference'. *)
Lemma cbpe_as_reference_rows s r :
  well_formed s r ->
  rows (results_data (as_reference r))
  = map (fun row => row_set (create_index (names s)) row ("chunk", "period")
                            (CStr "reference"))
        (rows (results_data r))
  /\ well_formed s (as_reference r)
  /\ Forall (fun row => period_of (names s) row = Some (CStr "reference"))
            (rows (results_data (as_reference r))).
Proof.
  intros [Hlab Hrows]. unfold as_reference, set_scalar.
  cbn [results_data with_results_data].
  rewrite decide_True by (rewrite Hlab; apply period_in_index).
  cbn [rows labels]. rewrite Hlab. split; [done|]. split.
  - split; [done|]. cbn [results_data rows].
    apply Forall_forall. intros row Hrow.
    apply list_elem_of_fmap in Hrow as (row0 & -> & Hrow0).
    rewrite row_set_length. rewrite Forall_forall in Hrows. auto.
  - apply Forall_forall. intros row Hrow.
    apply list_elem_of_fmap in Hrow as (row0 & -> & Hrow0).
    unfold period_of, create_index. apply row_get_row_set_eq.
    + apply period_in_index.
    + rewrite index_length. unfold names. rewrite length_map.
      rewrite Forall_forall in Hrows. auto.
Qed.

(** [_fit] on a frame that passes validation, when the fitted estimator is
    ready and its frame accepted: every row the result then holds, old or
    new, is filed under 'reference'. *)
Lemma cbpe_fit_ready w :
  empty (data w) = false ->
  y_true (self w) ∈ column_names (data w) ->
  y_pred_proba (self w) ∈ column_names (data w) ->
  y_pred (self w) ∈ column_names (data w) ->
  ready (self (fitted w)) ->
  chunks (self (fitted w)) (data (fitted w)) <> [] ->
  exists r w1,
    _fit w = (inr tt, w1)
    /\ result (self w1) = Some (as_reference r)
    /\ metrics (self w1) = metrics (self (fitted w))
    /\ rows (results_data r)
       = rows_so_far (self w) ++ new_rows (self (fitted w)) (data (fitted w))
    /\ well_formed (self (fitted w)) r
    /\ ready (self w1).
Proof.
  intros Hne Htrue Hproba Hpred Hready Hchunks.
  rewrite cbpe_fit_valid by done. unfold fit_run.
  assert (accepted (self (fitted w)) (data (fitted w))) as Hacc.
  { split; [|split; [|split]]; [| | |done]; destruct w as [s d cs];
      unfold fitted in *; cbn [self data calls] in *.
    - by apply empty_set.
    - destruct (Calibration.needs_calibration _ _ _); by apply column_names_set.
    - destruct (Calibration.needs_calibration _ _ _); by apply column_names_set. }
  destruct (cbpe_estimate_ready (fitted w) Hready Hacc) as (r & Hrun & Hrows & Hwf).
  rewrite <- cbpe_estimate_valid by apply Hacc. rewrite Hrun.
  exists r. eexists. split; [reflexivity|]. cbn [self data calls].
  assert (rows_so_far (self (fitted w)) = rows_so_far (self w)) as Hsame.
  { destruct w as [s d cs]. unfold fitted, rows_so_far. cbn [self data calls].
    by destruct (Calibration.needs_calibration _ _ _). }
  rewrite <- Hsame.
  split; [done|]. split; [done|]. split; [done|]. split; [done|].
  destruct Hready as (Hnd & Hth & _).
  apply cbpe_ready_with_result; [done..|].
  by apply cbpe_as_reference_rows.
Qed.

End CBPEAccumulate.

(** ** The record of a chunk, direct loss estimator *)

Section DLEChunk.

Import DLE DLESpec.

Context {M K I L : Type}.
Context `{!Metric M, !Chunker K, !SimpleImputer.t I, !LabelEncoder.t L}.

Implicit Types (s : estimator M K I L) (chunk : Chunk) (m : M) (ms : list M).

Lemma dle_keys_entries chunk m :
  keys (entries chunk m) = metric_keys (column_name m).
Proof. reflexivity. Qed.

Lemma dle_estimate_metric_eq chunk m d :
  estimate_metric chunk m d = update d (entries chunk m).
Proof. reflexivity. Qed.

(** With distinct metric names the loop appends the eight entries of each
    metric, in metric order. *)
Lemma dle_fold_fresh chunk ms d :
  NoDup (map column_name ms) ->
  (forall m k, m ∈ ms -> k ∈ metric_keys (column_name m) -> k ∉ keys d) ->
  fold_left (fun estimates metric => estimate_metric chunk metric estimates) ms d
  = d ++ flat_map (entries chunk) ms.
Proof.
  revert d. induction ms as [|m ms IH]; intros d Hnd Hfresh; cbn [fold_left].
  - by rewrite app_nil_r.
  - apply NoDup_cons in Hnd as [Hm Hnd].
    rewrite dle_estimate_metric_eq, update_fresh.
    + rewrite IH; [by rewrite <- app_assoc|done|].
      intros m' k Hm' Hk. rewrite keys_app, dle_keys_entries.
      apply not_elem_of_app. split.
      * apply (Hfresh m'); [by right|done].
      * apply (metric_keys_disjoint (column_name m')); [|done].
        intros Heq. apply Hm. rewrite <- Heq. by apply list_elem_of_fmap_2.
    + rewrite dle_keys_entries. apply metric_keys_NoDup.
    + intros k Hk. rewrite dle_keys_entries in Hk.
      apply (Hfresh m); [by left|done].
Qed.

Lemma dle_estimate_chunk_eq s chunk :
  NoDup (map column_name (metrics s)) ->
  _estimate_chunk s chunk = flat_map (entries chunk) (metrics s).
Proof.
  intros Hnd. unfold _estimate_chunk. rewrite dle_fold_fresh; [done..|].
  intros m k _ _. apply not_elem_of_nil.
Qed.

Lemma dle_keys_flat_entries chunk ms :
  keys (flat_map (entries chunk) ms) = flat_map metric_keys (map column_name ms).
Proof.
  induction ms as [|m ms IH]; [done|].
  change (flat_map ?f (m :: ms)) with (f m ++ flat_map f ms).
  rewrite keys_app, IH. reflexivity.
Qed.

Lemma dle_getitem_flat_entries chunk ms m k :
  NoDup (map column_name ms) -> m ∈ ms -> k ∈ metric_keys (column_name m) ->
  getitem k (flat_map (entries chunk) ms) = getitem k (entries chunk m).
Proof.
  intros Hnd Hm Hk. induction ms as [|m0 ms IH]; [by apply elem_of_nil in Hm|].
  change (flat_map ?f (m0 :: ms)) with (f m0 ++ flat_map f ms).
  apply NoDup_cons in Hnd as [Hm0 Hnd].
  apply elem_of_cons in Hm as [<-|Hm].
  - assert (is_Some (getitem k (entries chunk m))) as [x Hx].
    { apply getitem_is_Some. by rewrite dle_keys_entries. }
    rewrite Hx. by apply getitem_app_l.
  - rewrite getitem_app_r; [by apply IH|].
    rewrite dle_keys_entries.
    apply (metric_keys_disjoint (column_name m)); [|done].
    intros Heq. apply Hm0. rewrite <- Heq. by apply list_elem_of_fmap_2.
Qed.

(** What [_estimate_chunk] holds under a key of metric [m]. *)
Lemma dle_estimate_chunk_lookup s chunk m k :
  NoDup (map column_name (metrics s)) -> m ∈ metrics s ->
  k ∈ metric_keys (column_name m) ->
  getitem k (_estimate_chunk s chunk) = getitem k (entries chunk m).
Proof.
  intros Hnd Hm Hk. rewrite dle_estimate_chunk_eq by done.
  by apply dle_getitem_flat_entries.
Qed.

Lemma dle_record_of_eq s chunk :
  NoDup (map column_name (metrics s)) ->
  record_of s chunk
  = chunk_record chunk ++ flat_map (entries chunk) (metrics s).
Proof.
  intros Hnd. unfold record_of. rewrite dle_estimate_chunk_eq by done.
  rewrite update_fresh; [done| |].
  - rewrite dle_keys_flat_entries. by apply flat_metric_keys_NoDup.
  - intros k Hk. rewrite dle_keys_flat_entries in Hk.
    apply elem_of_flat_metric_keys in Hk as (n & _ & Hk).
    rewrite keys_chunk_record. by apply (metric_keys_not_chunk n).
Qed.

End DLEChunk.

(** ** Comparisons on floats *)

Lemma Qltb_lt a b : Qltb a b = true <-> (a < b)%Q.
Proof.
  unfold Qltb. rewrite negb_true_iff. split.
  - intros Hle. apply Qnot_le_lt. intros Hba.
    apply Qle_bool_iff in Hba. congruence.
  - intros Hlt. destruct (Qle_bool b a) eqn:Hle; [|done].
    apply Qle_bool_iff in Hle. exfalso. by apply (Qlt_not_le a b).
Qed.

Lemma Qltb_ge a b : Qltb a b = false <-> (b <= a)%Q.
Proof.
  unfold Qltb. rewrite negb_false_iff. apply Qle_bool_iff.
Qed.

Lemma py_min_le_l a b : (Py.min a b <= a)%Q.
Proof.
  unfold Py.min. destruct (Qltb b a) eqn:Hlt.
  - apply Qltb_lt in Hlt. by apply Qlt_le_weak.
  - apply Qle_refl.
Qed.

Lemma py_min_glb a b c : (c <= a)%Q -> (c <= b)%Q -> (c <= Py.min a b)%Q.
Proof. intros Ha Hb. unfold Py.min. by destruct (Qltb b a). Qed.

Lemma py_max_ge_l a b : (a <= Py.max a b)%Q.
Proof.
  unfold Py.max. destruct (Qltb a b) eqn:Hlt.
  - apply Qltb_lt in Hlt. by apply Qlt_le_weak.
  - apply Qle_refl.
Qed.

Lemma py_max_lub a b c : (a <= c)%Q -> (b <= c)%Q -> (Py.max a b <= c)%Q.
Proof. intros Ha Hb. unfold Py.max. by destruct (Qltb a b). Qed.

(** Python's [min] and [max] on floats are the minimum and the maximum of
    the rationals. *)
Lemma py_min_Qmin a b : Py.min a b = Qmin a b.
Proof.
  unfold Py.min, Qmin, GenericMinMax.gmin.
  destruct (Qltb b a) eqn:Hlt.
  - apply Qltb_lt in Hlt.
    destruct (Qcompare_spec a b) as [Heq|Hl|Hg]; [exfalso..|done].
    + rewrite Heq in Hlt. by apply (Qlt_irrefl b).
    + by apply (Qlt_irrefl a), (Qlt_trans _ b).
  - apply Qltb_ge in Hlt.
    destruct (Qcompare_spec a b) as [Heq|Hl|Hg]; [done|done|exfalso].
    by apply (Qlt_not_le _ _ Hg).
Qed.

Lemma py_max_Qmax a b : Py.max a b = Qmax a b.
Proof.
  unfold Py.max, Qmax, GenericMinMax.gmax.
  destruct (Qltb a b) eqn:Hlt.
  - apply Qltb_lt in Hlt.
    destruct (Qcompare_spec a b) as [Heq|Hl|Hg]; [exfalso|done|exfalso].
    + rewrite Heq in Hlt. by apply (Qlt_irrefl b).
    + by apply (Qlt_irrefl a), (Qlt_trans _ b).
  - apply Qltb_ge in Hlt.
    destruct (Qcompare_spec a b) as [Heq|Hl|Hg]; [done|exfalso|done].
    by apply (Qlt_not_le _ _ Hl).
Qed.

Lemma band_upper est err : (0 <= err)%Q -> (est <= est + 3 * err)%Q.
Proof.
  intros Herr. rewrite <- (Qplus_0_r est) at 1.
  apply Qplus_le_r. apply Qmult_le_0_compat; [done|exact Herr].
Qed.

Lemma band_lower est err : (0 <= err)%Q -> (est - 3 * err <= est)%Q.
Proof.
  intros Herr. rewrite <- (Qplus_0_r est) at 2. unfold Qminus.
  apply Qplus_le_r. apply (Qopp_le_compat 0 (3 * err)).
  apply Qmult_le_0_compat; [done|exact Herr].
Qed.

(** ** Rejected calls, confidence-based estimator *)

Lemma list_missing_cases (required cols : list string) :
  (_list_missing required cols = inr tt /\ forall c, c ∈ required -> c ∈ cols)
  \/ (filter (fun c => c ∉ cols) required <> []
      /\ _list_missing required cols
         = inl (InvalidArgumentsException
                  (MissingColumns (filter (fun c => c ∉ cols) required) cols))).
Proof.
  destruct (_list_missing required cols) as [e|[]] eqn:Hm.
  - right. unfold _list_missing in Hm.
    destruct (filter _ required) eqn:Hf; [done|]. split; [done|].
    congruence.
  - left. split; [done|]. by apply list_missing_inv.
Qed.

Section CBPERejected.

Import CBPE CBPERun.

Context {M K C : Type}.
Context `{!Metric M, !Chunker K, !Calibration.Calibrator C, !Calibration.Check C}.

Implicit Types (s : estimator M K C) (w : World (estimator M K C)).

Lemma cbpe_fit_empty w :
  empty (data w) = true ->
  _fit w = (inl (InvalidArgumentsException NoRows), w).
Proof.
  intros He. unfold _fit. cbv [bind get_data]. by rewrite He.
Qed.

Lemma cbpe_fit_missing w e :
  empty (data w) = false ->
  _list_missing [y_true (self w); y_pred_proba (self w); y_pred (self w)]
                (column_names (data w)) = inl e ->
  _fit w = (inl e, w).
Proof.
  intros He Hm. unfold _fit. cbv [bind get_data get_self].
  rewrite He, Hm. reflexivity.
Qed.

(** Whatever happens, [_estimate] leaves every attribute but the result
    alone. *)
Lemma cbpe_estimate_self w :
  exists r, self (_estimate w).2 = with_result r (self w).
Proof.
  assert (self w = with_result (result (self w)) (self w)) as Hid
    by (by destruct (self w)).
  destruct (empty (data w)) eqn:He.
  { rewrite cbpe_estimate_empty by done. by eexists. }
  destruct (list_missing_cases [y_pred_proba (self w); y_pred (self w)]
              (column_names (data w))) as [[_ Hall]|[_ Hm]].
  - rewrite cbpe_estimate_valid; [|done|apply Hall|apply Hall].
    + unfold estimate_run. destruct (table_of _ _); cbn [snd self]; by eexists.
    + by left.
    + right. by left.
  - rewrite (cbpe_estimate_missing _ _ He Hm). by eexists.
Qed.

Lemma cbpe_fit_self w :
  confidence_upper_bound (self (_fit w).2) = confidence_upper_bound (self w)
  /\ confidence_lower_bound (self (_fit w).2) = confidence_lower_bound (self w).
Proof.
  destruct (empty (data w)) eqn:He.
  { by rewrite cbpe_fit_empty. }
  destruct (list_missing_cases
              [y_true (self w); y_pred_proba (self w); y_pred (self w)]
              (column_names (data w))) as [[_ Hall]|[_ Hm]].
  - rewrite cbpe_fit_valid; [|done|apply Hall..].
    + unfold fit_run.
      destruct (cbpe_estimate_self (fitted w)) as [r Hr].
      rewrite <- cbpe_estimate_valid.
      * destruct (_estimate (fitted w)) as [[e|r'] w'] eqn:Hrun;
          cbn [snd self] in *; rewrite Hr; destruct w as [s d cs];
          unfold fitted; cbn [self];
          by destruct (Calibration.needs_calibration _ _ _).
      * destruct w as [s d cs]. unfold fitted. cbn [self data] in *.
        by apply empty_set.
      * destruct w as [s d cs]. unfold fitted. cbn [self data] in *.
        destruct (Calibration.needs_calibration _ _ _);
          apply column_names_set, Hall; right; by left.
      * destruct w as [s d cs]. unfold fitted. cbn [self data] in *.
        destruct (Calibration.needs_calibration _ _ _);
          apply column_names_set, Hall; right; right; by left.
    + by left.
    + right; by left.
    + right; right; by left.
  - by rewrite (cbpe_fit_missing _ _ He Hm).
Qed.

(** The two boundaries [_estimate_chunk] stores for a metric. *)
Lemma cbpe_band_lookup s chunk (m : M) :
  NoDup (map column_name (metrics s)) ->
  CBPESpec.thresholds_defined (metrics s) ->
  m ∈ metrics s ->
  exists estimates,
    _estimate_chunk s chunk = inr estimates
    /\ getitem ("upper_confidence_" +:+ column_name m) estimates
       = Some (CFloat
           (Py.min (confidence_upper_bound s)
              (estimate m (chunk_data chunk)
               + 3 * sampling_error m (chunk_data chunk))%Q))
    /\ getitem ("lower_confidence_" +:+ column_name m) estimates
       = Some (CFloat
           (Py.max (confidence_lower_bound s)
              (estimate m (chunk_data chunk)
               - 3 * sampling_error m (chunk_data chunk))%Q)).
Proof.
  intros Hnd Hth Hm.
  destruct (cbpe_estimate_chunk_lookup s chunk m Hnd Hth Hm)
    as (estimates & Hrun & Hlook).
  exists estimates. split; [done|].
  rewrite !Hlook.
  - unfold CBPESpec.entries. cbn [getitem]. split.
    + rewrite !decide_False by key_neq. by rewrite decide_True.
    + rewrite !decide_False by key_neq. by rewrite decide_True.
  - unfold metric_keys. rewrite !elem_of_cons. tauto.
  - unfold metric_keys. rewrite !elem_of_cons. tauto.
Qed.

(** C2. The classification strategy stores, for every chunk and metric,
    upper_confidence = min(confidence_upper_bound, estimate + 3 sampling_error)
    and lower_confidence = max(confidence_lower_bound, estimate - 3
    sampling_error), the minimum and the maximum being those of the
    rationals; [__init__] fixes the two bounds to 1 and 0, and neither
    [_fit] nor [_estimate] ever changes them. *)
Theorem cbpe_confidence_band :
  (forall super : estimator M K C,
      confidence_upper_bound (__init__ super) = 1%Q
      /\ confidence_lower_bound (__init__ super) = 0%Q)
  /\ (forall w,
        confidence_upper_bound (self (_fit w).2) = confidence_upper_bound (self w)
        /\ confidence_lower_bound (self (_fit w).2)
           = confidence_lower_bound (self w)
        /\ confidence_upper_bound (self (_estimate w).2)
           = confidence_upper_bound (self w)
        /\ confidence_lower_bound (self (_estimate w).2)
           = confidence_lower_bound (self w))
  /\ forall s chunk (m : M),
       confidence_upper_bound s = 1%Q ->
       confidence_lower_bound s = 0%Q ->
       NoDup (map column_name (metrics s)) ->
       CBPESpec.thresholds_defined (metrics s) ->
       m ∈ metrics s ->
       exists estimates,
         _estimate_chunk s chunk = inr estimates
         /\ getitem ("upper_confidence_" +:+ column_name m) estimates
            = Some (CFloat
                (Qmin 1 (estimate m (chunk_data chunk)
                         + 3 * sampling_error m (chunk_data chunk))%Q))
         /\ getitem ("lower_confidence_" +:+ column_name m) estimates
            = Some (CFloat
                (Qmax 0 (estimate m (chunk_data chunk)
                         - 3 * sampling_error m (chunk_data chunk))%Q)).
Proof.
  split; [done|]. split.
  - intros w. destruct (cbpe_fit_self w) as [Hu Hl].
    destruct (cbpe_estimate_self w) as [r Hr].
    rewrite Hr. done.
  - intros s chunk m Hub Hlb Hnd Hth Hm.
    destruct (cbpe_band_lookup s chunk m Hnd Hth Hm)
      as (estimates & Hrun & Hup & Hlow).
    exists estimates. split; [done|].
    rewrite Hup, Hlow, Hub, Hlb, py_min_Qmin, py_max_Qmax. done.
Qed.

End CBPERejected.

Lemma cbpe_confidence_band_witness :
  exists estimates,
    CBPE._estimate_chunk (Example.cbpe_with [Example.wide]) Example.a_chunk
    = inr estimates
    /\ getitem "upper_confidence_roc_auc" estimates = Some (CFloat 1)
    /\ getitem "lower_confidence_roc_auc" estimates = Some (CFloat 0).
Proof.
  destruct (proj2 (proj2 cbpe_confidence_band)
              (Example.cbpe_with [Example.wide]) Example.a_chunk Example.wide)
    as (estimates & Hrun & Hup & Hlow).
  - reflexivity.
  - reflexivity.
  - apply NoDup_singleton.
  - repeat constructor; simpl; eauto.
  - simpl. by left.
  - exists estimates. split; [exact Hrun|]. split; [exact Hup|exact Hlow].
Defined.

(** ** Confidence band and alert, direct loss estimator *)

Section DLEBand.

Import DLE DLESpec.

Context {M K I L : Type}.
Context `{!Metric M, !Chunker K, !SimpleImputer.t I, !LabelEncoder.t L}.

Implicit Types (s : estimator M K I L) (chunk : Chunk) (m : M).

(** The two boundaries [_estimate_chunk] stores for a metric. *)
Lemma dle_band_lookup s chunk m :
  NoDup (map column_name (metrics s)) ->
  m ∈ metrics s ->
  getitem ("upper_confidence_" +:+ column_name m) (_estimate_chunk s chunk)
  = Some (CFloat (upper_confidence_boundary m chunk))
  /\ getitem ("lower_confidence_" +:+ column_name m) (_estimate_chunk s chunk)
     = Some (CFloat (lower_confidence_boundary m chunk)).
Proof.
  intros Hnd Hm.
  rewrite !(dle_estimate_chunk_lookup s chunk m) by
    (done || (unfold metric_keys; rewrite !elem_of_cons; tauto)).
  unfold entries. cbn [getitem]. split.
  - rewrite !decide_False by key_neq. by rewrite decide_True.
  - rewrite !decide_False by key_neq. by rewrite decide_True.
Qed.

(** C3. The regression strategy stores, for every chunk and metric,
    estimate + 3 sampling_error clipped from above by upper_value_limit only
    when that limit is not None, and estimate - 3 sampling_error clipped from
    below by lower_value_limit only when that limit is not None; clipping is
    the minimum, respectively the maximum, of the rationals. *)
Theorem dle_confidence_band s chunk m :
  NoDup (map column_name (metrics s)) ->
  m ∈ metrics s ->
  getitem ("upper_confidence_" +:+ column_name m) (_estimate_chunk s chunk)
  = Some (CFloat
      match upper_value_limit m with
      | Some limit =>
          Qmin limit (estimate m (chunk_data chunk)
                      + 3 * sampling_error m (chunk_data chunk))%Q
      | None => (estimate m (chunk_data chunk)
                 + 3 * sampling_error m (chunk_data chunk))%Q
      end)
  /\ getitem ("lower_confidence_" +:+ column_name m) (_estimate_chunk s chunk)
     = Some (CFloat
         match lower_value_limit m with
         | Some limit =>
             Qmax limit (estimate m (chunk_data chunk)
                         - 3 * sampling_error m (chunk_data chunk))%Q
         | None => (estimate m (chunk_data chunk)
                    - 3 * sampling_error m (chunk_data chunk))%Q
         end).
Proof.
  intros Hnd Hm. destruct (dle_band_lookup s chunk m Hnd Hm) as [Hup Hlow].
  rewrite Hup, Hlow.
  unfold upper_confidence_boundary, lower_confidence_boundary.
  split.
  - destruct (upper_value_limit m) as [limit|]; [|done].
    by rewrite py_min_Qmin.
  - destruct (lower_value_limit m) as [limit|]; [|done].
    by rewrite py_max_Qmax.
Qed.

(** The alert the regression strategy stores: a side alerts when its
    threshold is truthy and the estimate crosses it. *)
Lemma dle_alert_lookup s chunk m :
  NoDup (map column_name (metrics s)) ->
  m ∈ metrics s ->
  getitem ("alert_" +:+ column_name m) (_estimate_chunk s chunk)
  = Some (CBool (gt_if_truthy (estimate m (chunk_data chunk)) (upper_threshold m)
                 || lt_if_truthy (estimate m (chunk_data chunk))
                                 (lower_threshold m))).
Proof.
  intros Hnd Hm.
  rewrite (dle_estimate_chunk_lookup s chunk m) by
    (done || (unfold metric_keys; rewrite !elem_of_cons; tauto)).
  unfold entries. cbn [getitem].
  rewrite !decide_False by key_neq. by rewrite decide_True.
Qed.

Lemma dle_estimated_lookup s chunk m :
  NoDup (map column_name (metrics s)) ->
  m ∈ metrics s ->
  getitem ("estimated_" +:+ column_name m) (_estimate_chunk s chunk)
  = Some (CFloat (estimate m (chunk_data chunk))).
Proof.
  intros Hnd Hm.
  rewrite (dle_estimate_chunk_lookup s chunk m) by
    (done || (unfold metric_keys; rewrite !elem_of_cons; tauto)).
  unfold entries. cbn [getitem].
  rewrite !decide_False by key_neq. by rewrite decide_True.
Qed.

End DLEBand.

Lemma dle_confidence_band_witness :
  let s := Example.dle [] [Example.bounded; Example.unfitted] in
  getitem "upper_confidence_mape" (DLE._estimate_chunk s Example.a_chunk)
  = Some (CFloat 1)
  /\ getitem "lower_confidence_mape" (DLE._estimate_chunk s Example.a_chunk)
     = Some (CFloat 0)
  /\ getitem "upper_confidence_f1" (DLE._estimate_chunk s Example.a_chunk)
     = Some (CFloat ((1 # 2) + 3 * (1 # 10))%Q)
  /\ getitem "lower_confidence_f1" (DLE._estimate_chunk s Example.a_chunk)
     = Some (CFloat ((1 # 2) - 3 * (1 # 10))%Q).
Proof.
  intros s.
  assert (NoDup (map DLE.column_name (DLE.metrics s))) as Hnd.
  { apply (bool_decide_unpack _). by vm_compute. }
  destruct (dle_confidence_band s Example.a_chunk Example.bounded Hnd)
    as [Hup Hlow].
  { simpl. by left. }
  destruct (dle_confidence_band s Example.a_chunk Example.unfitted Hnd)
    as [Hup' Hlow'].
  { simpl. right. by left. }
  split; [exact Hup|]. split; [exact Hlow|]. split; [exact Hup'|exact Hlow'].
Defined.

(** C1. With upper_threshold 0.0 and no lower threshold, an estimate of 0.5
    is strictly above a defined threshold, yet the alert the regression
    strategy stores is false: [if metric.upper_threshold] takes the zero
    threshold for an absent one. *)
Theorem dle_alert_zero_threshold :
  let m := Example.mae (Some 0%Q) None None (1 # 2) in
  let s := Example.dle [] [m] in
  DLE.upper_threshold m = Some 0%Q
  /\ (0 < DLE.estimate m (chunk_data Example.a_chunk))%Q
  /\ getitem "alert_mae" (DLE._estimate_chunk s Example.a_chunk)
     = Some (CBool false)
  /\ DLESpec.alert_when_defined (DLE.estimate m (chunk_data Example.a_chunk))
       (DLE.upper_threshold m) (DLE.lower_threshold m) = true.
Proof. repeat split. Qed.

(** C4, as stated, fails for the regression strategy: with lower_value_limit
    0, sampling error 0 and an estimate of -1, the stored lower confidence
    boundary is 0, above the estimate. *)
Lemma dle_lower_boundary_above_estimate :
  let m := Example.mae None None (Some 0%Q) (-1) in
  let s := Example.dle [] [m] in
  (0 <= DLE.sampling_error m (chunk_data Example.a_chunk))%Q
  /\ getitem "estimated_mae" (DLE._estimate_chunk s Example.a_chunk)
     = Some (CFloat (-1))
  /\ getitem "lower_confidence_mae" (DLE._estimate_chunk s Example.a_chunk)
     = Some (CFloat 0)
  /\ ~ (0 <= -1)%Q.
Proof.
  cbv zeta. split; [by vm_compute|]. split; [reflexivity|].
  split; [reflexivity|]. intros H. apply H. reflexivity.
Qed.

(** C4, amended. With a non-negative sampling error, every stored row
    satisfies lower_confidence <= estimate <= upper_confidence, and for the
    classification strategy both boundaries lie in [0, 1], provided the
    estimate lies in [0, 1] (classification) or within the value limits the
    metric declares (regression). *)
Theorem confidence_ordering :
  (forall (M K C : Type) (HM : CBPE.Metric M) (HK : Chunker K)
          (HC : Calibration.Calibrator C) (HN : Calibration.Check C)
          (s : CBPE.estimator M K C) (chunk : Chunk) (m : M),
      CBPE.confidence_upper_bound s = 1%Q ->
      CBPE.confidence_lower_bound s = 0%Q ->
      NoDup (map CBPE.column_name (CBPE.metrics s)) ->
      CBPESpec.thresholds_defined (CBPE.metrics s) ->
      m ∈ CBPE.metrics s ->
      (0 <= CBPE.sampling_error m (chunk_data chunk))%Q ->
      (0 <= CBPE.estimate m (chunk_data chunk))%Q ->
      (CBPE.estimate m (chunk_data chunk) <= 1)%Q ->
      exists estimates lower upper,
        CBPE._estimate_chunk s chunk = inr estimates
        /\ getitem ("lower_confidence_" +:+ CBPE.column_name m) estimates
           = Some (CFloat lower)
        /\ getitem ("upper_confidence_" +:+ CBPE.column_name m) estimates
           = Some (CFloat upper)
        /\ (lower <= CBPE.estimate m (chunk_data chunk))%Q
        /\ (CBPE.estimate m (chunk_data chunk) <= upper)%Q
        /\ (0 <= lower)%Q /\ (lower <= 1)%Q
        /\ (0 <= upper)%Q /\ (upper <= 1)%Q)
  /\ (forall (M K I L : Type) (HM : DLE.Metric M) (HK : Chunker K)
             (HI : SimpleImputer.t I) (HL : LabelEncoder.t L)
             (s : DLE.estimator M K I L) (chunk : Chunk) (m : M),
        NoDup (map DLE.column_name (DLE.metrics s)) ->
        m ∈ DLE.metrics s ->
        (0 <= DLE.sampling_error m (chunk_data chunk))%Q ->
        (forall limit, DLE.upper_value_limit m = Some limit ->
                       (DLE.estimate m (chunk_data chunk) <= limit)%Q) ->
        (forall limit, DLE.lower_value_limit m = Some limit ->
                       (limit <= DLE.estimate m (chunk_data chunk))%Q) ->
        exists lower upper,
          getitem ("lower_confidence_" +:+ DLE.column_name m)
                  (DLE._estimate_chunk s chunk) = Some (CFloat lower)
          /\ getitem ("upper_confidence_" +:+ DLE.column_name m)
                     (DLE._estimate_chunk s chunk) = Some (CFloat upper)
          /\ (lower <= DLE.estimate m (chunk_data chunk))%Q
          /\ (DLE.estimate m (chunk_data chunk) <= upper)%Q).
Proof.
  split.
  - intros M K C HM HK HC HN s chunk m Hub Hlb Hnd Hth Hm Herr Hest0 Hest1.
    destruct (cbpe_band_lookup s chunk m Hnd Hth Hm)
      as (estimates & Hrun & Hup & Hlow).
    rewrite Hub in Hup. rewrite Hlb in Hlow.
    eexists estimates, _, _. split; [done|]. split; [exact Hlow|].
    split; [exact Hup|].
    pose proof (band_upper (CBPE.estimate m (chunk_data chunk)) _ Herr) as Hbu.
    pose proof (band_lower (CBPE.estimate m (chunk_data chunk)) _ Herr) as Hbl.
    repeat split.
    + by apply py_max_lub.
    + by apply py_min_glb.
    + apply py_max_ge_l.
    + apply py_max_lub; [done|]. by apply (Qle_trans _ _ _ Hbl).
    + apply py_min_glb; [done|]. by apply (Qle_trans _ _ _ Hest0).
    + apply py_min_le_l.
  - intros M K I L HM HK HI HL s chunk m Hnd Hm Herr Hup Hlow.
    destruct (dle_band_lookup s chunk m Hnd Hm) as [Hu Hl].
    unfold DLE.upper_confidence_boundary in Hu.
    unfold DLE.lower_confidence_boundary in Hl.
    eexists _, _. split; [exact Hl|]. split; [exact Hu|].
    pose proof (band_upper (DLE.estimate m (chunk_data chunk)) _ Herr) as Hbu.
    pose proof (band_lower (DLE.estimate m (chunk_data chunk)) _ Herr) as Hbl.
    split.
    + destruct (DLE.lower_value_limit m) as [limit|]; [|done].
      apply py_max_lub; [by apply Hlow|done].
    + destruct (DLE.upper_value_limit m) as [limit|]; [|done].
      apply py_min_glb; [by apply Hup|done].
Qed.

Lemma confidence_ordering_witness :
  (exists estimates lower upper,
      CBPE._estimate_chunk Example.cbpe Example.a_chunk = inr estimates
      /\ getitem ("lower_confidence_" +:+ CBPE.column_name Example.roc_auc)
                 estimates = Some (CFloat lower)
      /\ getitem ("upper_confidence_" +:+ CBPE.column_name Example.roc_auc)
                 estimates = Some (CFloat upper)
      /\ (lower <= CBPE.estimate Example.roc_auc (chunk_data Example.a_chunk))%Q
      /\ (CBPE.estimate Example.roc_auc (chunk_data Example.a_chunk) <= upper)%Q
      /\ (0 <= lower)%Q /\ (lower <= 1)%Q
      /\ (0 <= upper)%Q /\ (upper <= 1)%Q)
  /\ (exists lower upper,
        getitem ("lower_confidence_"
                 +:+ DLE.column_name (Example.mae None None (Some 0%Q) (1 # 2)))
          (DLE._estimate_chunk
             (Example.dle [] [Example.mae None None (Some 0%Q) (1 # 2)])
             Example.a_chunk) = Some (CFloat lower)
        /\ getitem ("upper_confidence_"
                    +:+ DLE.column_name
                          (Example.mae None None (Some 0%Q) (1 # 2)))
             (DLE._estimate_chunk
                (Example.dle [] [Example.mae None None (Some 0%Q) (1 # 2)])
                Example.a_chunk) = Some (CFloat upper)
        /\ (lower <= DLE.estimate (Example.mae None None (Some 0%Q) (1 # 2))
                       (chunk_data Example.a_chunk))%Q
        /\ (DLE.estimate (Example.mae None None (Some 0%Q) (1 # 2))
              (chunk_data Example.a_chunk) <= upper)%Q).
Proof.
  split.
  - apply (proj1 confidence_ordering _ _ _ _ _ _ _ Example.cbpe Example.a_chunk
             Example.roc_auc).
    + reflexivity.
    + reflexivity.
    + apply NoDup_singleton.
    + repeat constructor; simpl; eauto.
    + simpl. by left.
    + by vm_compute.
    + by vm_compute.
    + by vm_compute.
  - apply (proj2 confidence_ordering _ _ _ _ _ _ _ _
             (Example.dle [] [Example.mae None None (Some 0%Q) (1 # 2)])
             Example.a_chunk (Example.mae None None (Some 0%Q) (1 # 2))).
    + apply NoDup_singleton.
    + simpl. by left.
    + by vm_compute.
    + intros limit Hlim. by vm_compute in Hlim.
    + intros limit Hlim. vm_compute in Hlim. injection Hlim as <-.
      by vm_compute.
Defined.

(** ** Accumulation *)

Section CBPEClaims.

Import CBPE CBPERun CBPERows.

Context {M K C : Type}.
Context `{!Metric M, !Chunker K, !Calibration.Calibrator C, !Calibration.Check C}.

Implicit Types (s : estimator M K C) (r : Result M K).
Implicit Types (w : World (estimator M K C)).

Lemma cbpe_column_with_uncalibrated s d :
  column (with_uncalibrated s d) (y_pred_proba s) = column d (y_pred_proba s).
Proof.
  unfold with_uncalibrated. apply column_set_ne, uncalibrated_neq.
Qed.

Lemma cbpe_fitted_flag w :
  needs_calibration (self (fitted w))
  = Calibration.needs_calibration
      (column (with_uncalibrated (self w) (data w)) (y_true (self w)))
      (column (data w) (y_pred_proba (self w)))
      (calibrator (self w)).
Proof.
  unfold fitted. cbn [self data calls].
  rewrite cbpe_column_with_uncalibrated.
  by destruct (Calibration.needs_calibration _ _ _).
Qed.

Lemma cbpe_fitted_scores w :
  column (data (fitted w)) (y_pred_proba (self (fitted w)))
  = column (data w) (y_pred_proba (self w)).
Proof.
  unfold fitted. cbn [self data calls].
  destruct (Calibration.needs_calibration _ _ _);
    cbn [y_pred_proba with_calibrator with_needs_calibration with_metrics];
    apply cbpe_column_with_uncalibrated.
Qed.

Lemma cbpe_fitted_calls w :
  calls (fitted w)
  = calls w
    ++ [needs_calibration_call
          (column (with_uncalibrated (self w) (data w)) (y_true (self w)))
          (column (data w) (y_pred_proba (self w)))]
    ++ (if needs_calibration (self (fitted w))
        then [calibrator_fit_call
                (column (data w) (y_pred_proba (self w)))
                (column (with_uncalibrated (self w) (data w))
                        (y_true (self w)))]
        else []).
Proof.
  rewrite cbpe_fitted_flag. unfold fitted. cbn [self data calls].
  by rewrite cbpe_column_with_uncalibrated.
Qed.

Lemma cbpe_fitted_metrics_ready w :
  ready (self (fitted w)) -> chunks (self (fitted w)) (data (fitted w)) <> [] ->
  NoDup (names (self (fitted w))).
Proof. by intros [Hnd _] _. Qed.

(** C5. On an estimator that holds no result, [_fit] on reference data
    followed by [_estimate] on analysis data leaves a table of
    len(reference chunks) + len(analysis chunks) rows: first the rows of the
    seeding call, each filed under 'reference', then the rows of the
    [_estimate] call, each filed under 'analysis'.  Every later [_estimate]
    appends its rows after the rows already held, whatever their chunk
    keys. *)
Theorem cbpe_accumulation w :
  result (self w) = None ->
  empty (data w) = false ->
  y_true (self w) ∈ column_names (data w) ->
  y_pred_proba (self w) ∈ column_names (data w) ->
  y_pred (self w) ∈ column_names (data w) ->
  ready (self (fitted w)) ->
  chunks (self (fitted w)) (data (fitted w)) <> [] ->
  exists w1,
    _fit w = (inr tt, w1)
    /\ length (rows_so_far (self w1))
       = length (chunks (self (fitted w)) (data (fitted w)))
    /\ Forall (fun row => period_of (names (self w1)) row
                          = Some (CStr "reference"))
              (rows_so_far (self w1))
    /\ ready (self w1)
    /\ forall s, ready s -> forall analysis cs, accepted s analysis ->
         exists r2 w2,
           _estimate (mkWorld s analysis cs) = (inr r2, w2)
           /\ result (self w2) = Some r2
           /\ rows (results_data r2) = rows_so_far s ++ new_rows s analysis
           /\ length (rows (results_data r2))
              = length (rows_so_far s) + length (chunks s analysis)
           /\ Forall (fun row => period_of (names s) row
                                 = Some (CStr "analysis"))
                     (new_rows s analysis)
           /\ ready (self w2).
Proof.
  intros Hfresh Hne Htrue Hproba Hpred Hready Hchunks.
  destruct (cbpe_fit_ready w Hne Htrue Hproba Hpred Hready Hchunks)
    as (r & w1 & Hrun & Hres & Hms & Hrows & Hwf & Hready1).
  exists w1. split; [done|].
  assert (rows_so_far (self w) = []) as Hnone.
  { unfold rows_so_far. by rewrite Hfresh. }
  rewrite Hnone in Hrows. cbn [app] in Hrows.
  destruct (cbpe_as_reference_rows _ _ Hwf) as (Hmap & Hwf' & Hper).
  assert (names (self w1) = names (self (fitted w))) as Hnames.
  { unfold names. by rewrite Hms. }
  split; [|split; [|split; [done|]]].
  - unfold rows_so_far. rewrite Hres, Hmap, length_map, Hrows.
    unfold new_rows. by rewrite length_map.
  - unfold rows_so_far. rewrite Hres, Hnames. exact Hper.
  - intros s Hs analysis cs Hacc.
    destruct (cbpe_estimate_ready (mkWorld s analysis cs) Hs Hacc)
      as (r2 & Hrun2 & Hrows2 & Hwf2).
    exists r2. eexists. split; [exact Hrun2|]. cbn [self data calls] in *.
    split; [done|]. split; [done|]. split.
    { rewrite Hrows2, length_app. unfold new_rows. by rewrite length_map. }
    split; [apply cbpe_new_rows_period|].
    destruct Hs as (Hnd & Hth & _). by apply cbpe_ready_with_result.
Qed.

(** The table after a [_fit] on an estimator that already holds rows, as
    the code computes it: [_fit] does not reset the result, so [_estimate]
    concatenates, and the assignment of the period column then runs over
    the whole table. *)
Lemma cbpe_refit_rows w r0 :
  result (self w) = Some r0 ->
  empty (data w) = false ->
  y_true (self w) ∈ column_names (data w) ->
  y_pred_proba (self w) ∈ column_names (data w) ->
  y_pred (self w) ∈ column_names (data w) ->
  ready (self (fitted w)) ->
  chunks (self (fitted w)) (data (fitted w)) <> [] ->
  exists w1,
    _fit w = (inr tt, w1)
    /\ rows_so_far (self w1)
       = map (fun row => row_set (create_index (names (self (fitted w)))) row
                                 ("chunk", "period") (CStr "reference"))
             (rows (results_data r0)
              ++ new_rows (self (fitted w)) (data (fitted w)))
    /\ length (rows_so_far (self w1))
       = length (rows (results_data r0))
         + length (chunks (self (fitted w)) (data (fitted w)))
    /\ Forall (fun row => period_of (names (self (fitted w))) row
                          = Some (CStr "reference"))
              (rows_so_far (self w1)).
Proof.
  intros Hheld Hne Htrue Hproba Hpred Hready Hchunks.
  destruct (cbpe_fit_ready w Hne Htrue Hproba Hpred Hready Hchunks)
    as (r & w1 & Hrun & Hres & Hms & Hrows & Hwf & Hready1).
  exists w1. split; [done|].
  assert (rows_so_far (self w) = rows (results_data r0)) as Hsofar.
  { unfold rows_so_far. by rewrite Hheld. }
  rewrite Hsofar in Hrows.
  destruct (cbpe_as_reference_rows _ _ Hwf) as (Hmap & Hwf' & Hper).
  unfold rows_so_far at 1 2 3. rewrite Hres, Hmap, Hrows.
  split; [done|]. split.
  - rewrite length_map, length_app. unfold new_rows. by rewrite length_map.
  - rewrite <- Hrows, <- Hmap. exact Hper.
Qed.

End CBPEClaims.

(** ** The session of the example *)

Ltac in_columns := apply (bool_decide_unpack _); by vm_compute.

Ltac thresholds := vm_compute; repeat constructor; eauto.

Lemma cbpe_accumulation_witness :
  exists w1 r2 w2,
    CBPE._fit Session.start = (inr tt, w1)
    /\ CBPE._estimate (mkWorld (self w1) analysis (calls w1)) = (inr r2, w2)
    /\ length (rows (CBPE.results_data r2)) = 2 + 3.
Proof.
  destruct (cbpe_accumulation Session.start)
    as (w1 & Hfit & Hlen & _ & Hready & Hnext).
  - reflexivity.
  - reflexivity.
  - in_columns.
  - in_columns.
  - in_columns.
  - split; [apply NoDup_singleton|]. split; [thresholds|exact I].
  - by vm_compute.
  - assert (w1 = Session.after_fit) as ->
      by (unfold Session.after_fit; by rewrite Hfit).
    destruct (Hnext (self Session.after_fit) Hready analysis
                (calls Session.after_fit))
      as (r2 & w2 & Hest & _ & _ & Hlen2 & _).
    + split; [reflexivity|]. split; [in_columns|]. split; [in_columns|].
      by vm_compute.
    + exists Session.after_fit, r2, w2. split; [done|]. split; [done|].
      rewrite Hlen2. by vm_compute.
Defined.

(** C9. The code does not re-seed: after fit, estimate and a second fit on
    the same estimator the table holds seven rows where the new seeding alone
    has two.  The two rows of the first seeding and the three analysis rows
    are still there, and the analysis rows (here the one of chunk 1, fourth
    in the table) are now filed under 'reference'. *)
Theorem cbpe_refit_preserves_analysis_rows :
  length (CBPERows.rows_so_far (self Session.after_estimate)) = 5
  /\ length (CBPERows.chunks (self Session.after_estimate) reference) = 2
  /\ (CBPE._fit (mkWorld (self Session.after_estimate) reference
                         (calls Session.after_estimate))).1 = inr tt
  /\ length (CBPERows.rows_so_far (self Session.after_refit)) = 7
  /\ (CBPERows.rows_so_far (self Session.after_estimate) !! 3
        ≫= fun row => row !! 1) = Some (CInt 1)
  /\ (CBPERows.rows_so_far (self Session.after_estimate) !! 3
        ≫= period_of ["roc_auc"]) = Some (CStr "analysis")
  /\ (CBPERows.rows_so_far (self Session.after_refit) !! 3
        ≫= fun row => row !! 1) = Some (CInt 1)
  /\ (CBPERows.rows_so_far (self Session.after_refit) !! 3
        ≫= period_of ["roc_auc"]) = Some (CStr "reference").
Proof. by vm_compute. Qed.

(** ** Running the direct loss estimator *)

Section DLERunLemmas.

Import DLE DLERun.

Context {M K I L : Type}.
Context `{!Metric M, !Chunker K, !SimpleImputer.t I, !LabelEncoder.t L}.

Implicit Types (s : estimator M K I L) (w : World (estimator M K I L)).

Lemma dle_estimate_empty w :
  empty (data w) = true ->
  _estimate w = (inl (InvalidArgumentsException NoRows), w).
Proof.
  intros He. unfold _estimate. cbv [bind get_data]. by rewrite He.
Qed.

Lemma dle_estimate_missing w e :
  empty (data w) = false ->
  _list_missing [y_pred (self w)] (column_names (data w)) = inl e ->
  _estimate w = (inl e, w).
Proof.
  intros He Hm. unfold _estimate. cbv [bind get_data get_self].
  rewrite He, Hm. reflexivity.
Qed.

Lemma dle_fit_empty w :
  empty (data w) = true ->
  _fit w = (inl (InvalidArgumentsException NoRows), w).
Proof.
  intros He. unfold _fit. cbv [bind get_data]. by rewrite He.
Qed.

Lemma dle_fit_missing w e :
  empty (data w) = false ->
  _list_missing [y_true (self w); y_pred (self w)] (column_names (data w))
  = inl e ->
  _fit w = (inl e, w).
Proof.
  intros He Hm. unfold _fit. cbv [bind get_data get_self].
  rewrite He, Hm. reflexivity.
Qed.

Lemma dle_estimate_valid w :
  empty (data w) = false ->
  y_pred (self w) ∈ column_names (data w) ->
  _estimate w = estimate_run w.
Proof.
  intros Hne Hpred. destruct w as [s d cs]. cbn [self data calls] in *.
  unfold _estimate, estimate_run, categorical, estimate_block, estimate_tail,
    table_of, accumulate.
  cbv [bind get_data get_self put_data put_self].
  run. rewrite Hne. run.
  rewrite list_missing_ok.
  2:{ intros c Hc. apply list_elem_of_singleton in Hc as ->. done. }
  run.
  destruct (_split_features_by_type d (feature_column_names s))
    as [e|[continuous cats]]; run; [done|].
  cbn [snd].
  destruct (decide (0 < length cats)); run.
  - destruct (get_many d cats) as [e|block]; run; [done|].
    destruct (SimpleImputer.transform _ block) as [e|imputed]; run; [done|].
    destruct (set_many d cats imputed) as [e|d1]; run; [done|].
    destruct (get_many d1 cats) as [e|block1]; run; [done|].
    destruct (transform_each cats block1 _) as [[e|codes] w1]; run; [done|].
    destruct (set_many d1 cats (int_block codes)) as [e|d2]; run; [done|].
    destruct (set_labels _ _) as [e|res]; run; [done|].
    by destruct (result (self w1)).
  - destruct (set_labels _ _) as [e|res]; run; [done|].
    by destruct (result s).
Qed.

Lemma dle_fit_valid w :
  empty (data w) = false ->
  y_true (self w) ∈ column_names (data w) ->
  y_pred (self w) ∈ column_names (data w) ->
  _fit w = fit_run w.
Proof.
  intros Hne Htrue Hpred. destruct w as [s d cs]. cbn [self data calls] in *.
  unfold _fit, fit_run, categorical, fit_block, fit_tail, fit_metrics.
  cbv [bind get_data get_self put_data put_self].
  run. rewrite Hne. run.
  rewrite list_missing_ok.
  2:{ intros c Hc. rewrite !elem_of_cons in Hc.
      destruct Hc as [->|[->|Hc]]; [done..|by apply elem_of_nil in Hc]. }
  run.
  destruct (_split_features_by_type d (feature_column_names s))
    as [e|[continuous cats]]; run; [done|].
  cbn [snd].
  destruct (decide (0 < length cats)); run.
  - destruct (get_many d cats) as [e|block]; run; [done|].
    destruct (SimpleImputer.fit_transform _ block) as [e|[imp imputed]]; run;
      [done|].
    cbn [fst snd].
    destruct (set_many d cats imputed) as [e|d1]; run; [done|].
    destruct (get_many d1 cats) as [e|block1]; run; [done|].
    destruct (fit_transform_each cats block1 _) as [[e|codes] w1]; run; [done|].
    destruct (set_many d1 cats (int_block codes)) as [e|d2]; run; [done|].
    destruct (_estimate _) as [[e|r] w2]; done.
  - destruct (_estimate _) as [[e|r] w2]; done.
Qed.

End DLERunLemmas.

(** ** Columns under assignment *)

Lemma get_set_eq d c x : get (set d c x) c = inr x.
Proof. unfold get, set. cbn [columns]. by rewrite getitem_setitem_eq. Qed.

Lemma get_set_ne d c c' x : c <> c' -> get (set d c x) c' = get d c'.
Proof.
  intros Hne. unfold get, set. cbn [columns]. by rewrite getitem_setitem_ne.
Qed.

Lemma get_set_each_notin d cs ss c :
  c ∉ cs -> get (set_each d cs ss) c = get d c.
Proof.
  revert d ss. induction cs as [|c0 cs IH]; intros d ss Hc; [done|].
  destruct ss as [|x ss]; [done|]. cbn [set_each].
  apply not_elem_of_cons in Hc as [Hne Hc].
  rewrite IH by done. by apply get_set_ne.
Qed.

(** A column assigned in a block holds one of the assigned series. *)
Lemma get_set_each_in d cs ss c :
  length cs = length ss -> c ∈ cs ->
  exists x, x ∈ ss /\ get (set_each d cs ss) c = inr x.
Proof.
  revert d ss. induction cs as [|c0 cs IH]; intros d ss Hlen Hc.
  - by apply elem_of_nil in Hc.
  - destruct ss as [|x ss]; [done|]. cbn [set_each length] in *.
    destruct (decide (c ∈ cs)) as [Hin|Hnotin].
    + destruct (IH (set d c0 x) ss) as (y & Hy & Hget); [lia|done|].
      exists y. split; [by right|done].
    + apply elem_of_cons in Hc as [->|?]; [|done].
      exists x. split; [by left|].
      rewrite get_set_each_notin by done. apply get_set_eq.
Qed.

Lemma set_each_index d cs ss : index (set_each d cs ss) = index d.
Proof.
  revert d ss. induction cs as [|c cs IH]; intros d [|x ss]; try done.
  cbn [set_each]. by rewrite IH.
Qed.

Lemma column_names_set_each d cs ss c :
  c ∈ column_names d -> c ∈ column_names (set_each d cs ss).
Proof.
  revert d ss. induction cs as [|c0 cs IH]; intros d [|x ss] Hc; try done.
  cbn [set_each]. apply IH. by apply column_names_set.
Qed.

Lemma empty_set_each d cs ss : empty d = false -> empty (set_each d cs ss) = false.
Proof.
  revert d ss. induction cs as [|c cs IH]; intros d [|x ss] He; try done.
  cbn [set_each]. apply IH. by apply empty_set.
Qed.

Lemma set_many_inv d cs ss d' :
  set_many d cs ss = inr d' -> length cs = length ss /\ d' = set_each d cs ss.
Proof.
  unfold set_many. destruct (decide (length cs = length ss)); [|done].
  intros [= <-]. done.
Qed.

(** ** The split of the feature columns *)

Lemma is_categorical_int_block codes x :
  x ∈ DLE.int_block codes -> is_categorical x = false.
Proof.
  unfold DLE.int_block. intros Hx.
  apply list_elem_of_fmap in Hx as (zs & -> & _).
  unfold is_categorical. induction zs as [|z zs IH]; [done|]. exact IH.
Qed.

Lemma split_features_categorical d features continuous cats c :
  _split_features_by_type d features = inr (continuous, cats) -> c ∈ cats ->
  c ∈ features /\ exists col, get d c = inr col /\ is_categorical col = true.
Proof.
  revert continuous cats.
  induction features as [|f features IH]; intros continuous cats Hs Hc.
  - cbn in Hs. injection Hs as <- <-. by apply elem_of_nil in Hc.
  - cbn [_split_features_by_type] in Hs.
    destruct (get d f) as [e|col] eqn:Hget; [done|].
    destruct (_split_features_by_type d features) as [e|[num cat]]; [done|].
    destruct (is_categorical col) eqn:Hcat; injection Hs as <- <-.
    + apply elem_of_cons in Hc as [->|Hc].
      * split; [by left|]. eauto.
      * destruct (IH _ _ eq_refl Hc) as [Hin Hcol]. split; [by right|done].
    + destruct (IH _ _ eq_refl Hc) as [Hin Hcol]. split; [by right|done].
Qed.

Lemma split_features_continuous d features continuous cats f :
  _split_features_by_type d features = inr (continuous, cats) ->
  f ∈ features -> f ∉ cats ->
  exists col, get d f = inr col /\ is_categorical col = false.
Proof.
  revert continuous cats.
  induction features as [|f0 features IH]; intros continuous cats Hs Hf Hn.
  - by apply elem_of_nil in Hf.
  - cbn [_split_features_by_type] in Hs.
    destruct (get d f0) as [e|col] eqn:Hget; [done|].
    destruct (_split_features_by_type d features) as [e|[num cat]]; [done|].
    destruct (is_categorical col) eqn:Hcat; injection Hs as <- <-.
    + apply not_elem_of_cons in Hn as [Hne Hn].
      apply elem_of_cons in Hf as [->|Hf]; [done|]. by apply (IH _ _ eq_refl).
    + apply elem_of_cons in Hf as [->|Hf]; [eauto|]. by apply (IH _ _ eq_refl).
Qed.

(** Feature columns that hold no string and no boolean leave nothing to
    encode. *)
Lemma split_features_none d features :
  (forall f, f ∈ features ->
             exists col, get d f = inr col /\ is_categorical col = false) ->
  _split_features_by_type d features = inr (features, []).
Proof.
  induction features as [|f features IH]; intros Hall; [done|].
  cbn [_split_features_by_type].
  destruct (Hall f) as (col & -> & ->); [by left|].
  rewrite IH; [done|]. intros f' Hf'. apply Hall. by right.
Qed.

Lemma get_many_ok d cs :
  (forall c, c ∈ cs -> exists col, get d c = inr col) ->
  exists block, get_many d cs = inr block /\ length block = length cs.
Proof.
  induction cs as [|c cs IH]; intros Hall; [by exists []|].
  cbn [get_many]. destruct (Hall c) as [col ->]; [by left|].
  destruct IH as (block & -> & Hlen); [intros c' Hc'; apply Hall; by right|].
  exists (col :: block). split; [done|]. cbn. by rewrite Hlen.
Qed.

(** ** The encoding blocks *)

Section DLEBlocks.

Import DLE DLERun.

Context {M K I L : Type}.
Context `{!Metric M, !Chunker K, !SimpleImputer.t I, !LabelEncoder.t L}.

Implicit Types (s : estimator M K I L) (w : World (estimator M K I L)).

Lemma dle_with_imputer_id s enc :
  with_imputer (_categorical_imputer s) (with_encoders enc s)
  = with_encoders enc s.
Proof. by destruct s. Qed.

Lemma only_encoding_encoders w enc :
  only_encoding w (mkWorld (with_encoders enc (self w)) (data w) (calls w)).
Proof.
  split; [done|]. exists (_categorical_imputer (self w)), enc. cbn [self].
  by rewrite dle_with_imputer_id.
Qed.

Lemma only_encoding_refl w : only_encoding w w.
Proof.
  split; [done|]. exists (_categorical_imputer (self w)),
    (_categorical_encoders (self w)). by destruct (self w).
Qed.

Lemma only_encoding_trans w1 w2 w3 :
  only_encoding w1 w2 -> only_encoding w2 w3 -> only_encoding w1 w3.
Proof.
  intros [Hc1 (i1 & e1 & H1)] [Hc2 (i2 & e2 & H2)].
  split; [congruence|]. exists i2, e2. rewrite H2, H1. by destruct (self w1).
Qed.

Lemma dle_transform_each_frame names block w :
  data (transform_each names block w).2 = data w
  /\ only_encoding w (transform_each names block w).2.
Proof.
  revert block w. induction names as [|name names IH]; intros block w.
  - split; [done|apply only_encoding_refl].
  - destruct block as [|x block]; [split; [done|apply only_encoding_refl]|].
    cbn [transform_each]. cbv [bind get_self put_self]. run.
    set (w0 := mkWorld _ (data w) (calls w)).
    assert (only_encoding w w0) as Hw0 by apply only_encoding_encoders.
    destruct (LabelEncoder.transform _ x) as [e|codes]; run; [done|].
    destruct (IH block w0) as [Hd Hf].
    destruct (transform_each names block w0) as [[e|rest] w1]; cbn [snd] in *;
      (split; [done|by apply (only_encoding_trans _ w0)]).
Qed.

Lemma dle_fit_transform_each_frame names block w :
  data (fit_transform_each names block w).2 = data w
  /\ only_encoding w (fit_transform_each names block w).2.
Proof.
  revert block w. induction names as [|name names IH]; intros block w.
  - split; [done|apply only_encoding_refl].
  - destruct block as [|x block]; [split; [done|apply only_encoding_refl]|].
    cbn [fit_transform_each]. cbv [bind get_self put_self]. run.
    destruct (LabelEncoder.fit_transform _ x) as [e|[encoder codes]]; run.
    + split; [done|]. apply only_encoding_encoders.
    + set (w0 := mkWorld _ (data w) (calls w)).
      assert (only_encoding w w0) as Hw0 by apply only_encoding_encoders.
      destruct (IH block w0) as [Hd Hf].
      destruct (fit_transform_each names block w0) as [[e|rest] w1];
        cbn [snd] in *;
        (split; [done|by apply (only_encoding_trans _ w0)]).
Qed.

(** The frame after the block of [_estimate]: untouched without a
    categorical column, else every categorical column reassigned twice, to
    the imputer's output and then to integer codes. *)
Lemma dle_estimate_block_run w cats :
  only_encoding w (estimate_block (self w) (data w) cats w).2
  /\ (cats = [] -> estimate_block (self w) (data w) cats w = (inr tt, w))
  /\ (cats <> [] ->
      (estimate_block (self w) (data w) cats w).1 = inr tt ->
      exists block imputed block1 codes w1,
        get_many (data w) cats = inr block
        /\ SimpleImputer.transform (_categorical_imputer (self w)) block
           = inr imputed
        /\ get_many (set_each (data w) cats imputed) cats = inr block1
        /\ transform_each cats block1
             (mkWorld (self w) (set_each (data w) cats imputed) (calls w))
           = (inr codes, w1)
        /\ length imputed = length cats /\ length codes = length cats
        /\ data (estimate_block (self w) (data w) cats w).2
           = set_each (set_each (data w) cats imputed) cats (int_block codes)).
Proof.
  unfold estimate_block. destruct (decide (0 < length cats)) as [Hpos|Hzero].
  2:{ split; [apply only_encoding_refl|]. split; [done|].
      intros Hne. destruct cats; [done|]. cbn in Hzero. lia. }
  cbv [bind put_data]. run.
  destruct (get_many (data w) cats) as [e|block] eqn:Hblock; run.
  { split; [apply only_encoding_refl|]. split; [|done].
    intros ->. cbn in Hpos. lia. }
  destruct (SimpleImputer.transform _ block) as [e|imputed] eqn:Himp; run.
  { split; [apply only_encoding_refl|]. split; [|done].
    intros ->. cbn in Hpos. lia. }
  destruct (set_many (data w) cats imputed) as [e|d1] eqn:Hset1; run.
  { split; [apply only_encoding_refl|]. split; [|done].
    intros ->. cbn in Hpos. lia. }
  apply set_many_inv in Hset1 as [Hlen1 ->].
  set (w0 := mkWorld (self w) _ (calls w)).
  assert (only_encoding w w0) as Hw0.
  { split; [done|]. destruct (only_encoding_refl w) as [_ He]. exact He. }
  destruct (get_many (set_each (data w) cats imputed) cats)
    as [e|block1] eqn:Hblock1; run.
  { split; [done|]. split; [|done]. intros ->. cbn in Hpos. lia. }
  destruct (dle_transform_each_frame cats block1 w0) as [Hd Hf].
  destruct (transform_each cats block1 w0) as [[e|codes] w1] eqn:Hcodes;
    cbn [snd] in *; run.
  { split; [by apply (only_encoding_trans _ w0)|]. split; [|done].
    intros ->. cbn in Hpos. lia. }
  destruct (set_many _ cats (int_block codes)) as [e|d2] eqn:Hset2; run.
  { split; [by apply (only_encoding_trans _ w0)|]. split; [|done].
    intros ->. cbn in Hpos. lia. }
  apply set_many_inv in Hset2 as [Hlen2 ->].
  split.
  { destruct (only_encoding_trans _ _ _ Hw0 Hf) as [Hc He]. by split. }
  split; [intros ->; cbn in Hpos; lia|].
  intros _ _. exists block, imputed, block1, codes, w1.
  do 4 (split; [done|]). split; [done|]. split.
  - unfold int_block in Hlen2. by rewrite length_map in Hlen2.
  - done.
Qed.

Lemma dle_fit_block_run w cats :
  only_encoding w (fit_block (self w) (data w) cats w).2
  /\ (cats = [] -> fit_block (self w) (data w) cats w = (inr tt, w))
  /\ (cats <> [] ->
      (fit_block (self w) (data w) cats w).1 = inr tt ->
      exists block imp imputed block1 codes w1,
        get_many (data w) cats = inr block
        /\ SimpleImputer.fit_transform (_categorical_imputer (self w)) block
           = inr (imp, imputed)
        /\ get_many (set_each (data w) cats imputed) cats = inr block1
        /\ fit_transform_each cats block1
             (mkWorld (with_imputer imp (self w))
                      (set_each (data w) cats imputed) (calls w))
           = (inr codes, w1)
        /\ length imputed = length cats /\ length codes = length cats
        /\ data (fit_block (self w) (data w) cats w).2
           = set_each (set_each (data w) cats imputed) cats (int_block codes)).
Proof.
  unfold fit_block. destruct (decide (0 < length cats)) as [Hpos|Hzero].
  2:{ split; [apply only_encoding_refl|]. split; [done|].
      intros Hne. destruct cats; [done|]. cbn in Hzero. lia. }
  cbv [bind put_data put_self]. run.
  destruct (get_many (data w) cats) as [e|block] eqn:Hblock; run.
  { split; [apply only_encoding_refl|]. split; [|done].
    intros ->. cbn in Hpos. lia. }
  destruct (SimpleImputer.fit_transform _ block) as [e|[imp imputed]] eqn:Himputed;
    run.
  { split; [apply only_encoding_refl|]. split; [|done].
    intros ->. cbn in Hpos. lia. }
  cbn [fst snd].
  assert (forall d cs, only_encoding w (mkWorld (with_imputer imp (self w)) d cs)
                       <-> cs = calls w) as Himp.
  { intros d cs. split; [by intros [Hc _]|]. intros ->. split; [done|].
    exists imp, (_categorical_encoders (self w)). cbn [self].
    by destruct (self w). }
  destruct (set_many (data w) cats imputed) as [e|d1] eqn:Hset1; run.
  { split; [by apply Himp|]. split; [|done]. intros ->. cbn in Hpos. lia. }
  apply set_many_inv in Hset1 as [Hlen1 ->].
  set (w0 := mkWorld (with_imputer imp (self w)) _ (calls w)).
  assert (only_encoding w w0) as Hw0 by (by apply Himp).
  destruct (get_many (set_each (data w) cats imputed) cats)
    as [e|block1] eqn:Hblock1; run.
  { split; [done|]. split; [|done]. intros ->. cbn in Hpos. lia. }
  destruct (dle_fit_transform_each_frame cats block1 w0) as [Hd Hf].
  destruct (fit_transform_each cats block1 w0) as [[e|codes] w1] eqn:Hcodes;
    cbn [snd] in *; run.
  { split; [by apply (only_encoding_trans _ w0)|]. split; [|done].
    intros ->. cbn in Hpos. lia. }
  destruct (set_many _ cats (int_block codes)) as [e|d2] eqn:Hset2; run.
  { split; [by apply (only_encoding_trans _ w0)|]. split; [|done].
    intros ->. cbn in Hpos. lia. }
  apply set_many_inv in Hset2 as [Hlen2 ->].
  split.
  { destruct (only_encoding_trans _ _ _ Hw0 Hf) as [Hc He]. by split. }
  split; [intros ->; cbn in Hpos; lia|].
  intros _ _. exists block, imp, imputed, block1, codes, w1.
  do 4 (split; [done|]). split; [done|]. split.
  - unfold int_block in Hlen2. by rewrite length_map in Hlen2.
  - done.
Qed.

End DLEBlocks.

(** ** Eager validation *)

Lemma validates_eagerly_intro {E A} (run : PyM E A) (required : E -> list string) :
  (forall w, empty (data w) = true ->
             run w = (inl (InvalidArgumentsException NoRows), w)) ->
  (forall w e, empty (data w) = false ->
               _list_missing (required (self w)) (column_names (data w)) = inl e ->
               run w = (inl e, w)) ->
  validates_eagerly run required.
Proof.
  intros Hempty Hmissing w cols missing.
  assert (missing <> [] ->
          _list_missing (required (self w)) cols
          = inl (InvalidArgumentsException (MissingColumns missing cols)))
    as Hlist.
  { intros Hne. unfold _list_missing. fold cols. fold missing.
    by destruct missing. }
  split; [apply Hempty|]. split.
  - intros He Hne. apply Hmissing; [done|]. by apply Hlist.
  - intros c Hc Hnot. destruct (empty (data w)) eqn:He.
    + eexists. by apply Hempty.
    + eexists. apply Hmissing; [done|]. apply Hlist.
      intros Hnil. assert (c ∈ missing) as Hin.
      { subst missing. apply list_elem_of_filter. done. }
      rewrite Hnil in Hin. by apply elem_of_nil in Hin.
Qed.

(** C6. [_fit] and [_estimate] of both strategies refuse an empty frame
    with the invalid-input error 'data contains no rows', and a frame that
    lacks a required column with an invalid-input error that, for a frame
    with rows, lists exactly the missing columns; either way the estimator,
    the caller's frame and the log of calls are left as they were. *)
Theorem eager_validation :
  (forall (M K C : Type) (HM : CBPE.Metric M) (HK : Chunker K)
          (HC : Calibration.Calibrator C) (HN : Calibration.Check C),
      validates_eagerly (CBPE._fit (M:=M) (K:=K) (C:=C))
        (fun s => [CBPE.y_true s; CBPE.y_pred_proba s; CBPE.y_pred s])
      /\ validates_eagerly (CBPE._estimate (M:=M) (K:=K) (C:=C))
           (fun s => [CBPE.y_pred_proba s; CBPE.y_pred s]))
  /\ (forall (M K I L : Type) (HM : DLE.Metric M) (HK : Chunker K)
             (HI : SimpleImputer.t I) (HL : LabelEncoder.t L),
        validates_eagerly (DLE._fit (M:=M) (K:=K) (I:=I) (L:=L))
          (fun s => [DLE.y_true s; DLE.y_pred s])
        /\ validates_eagerly (DLE._estimate (M:=M) (K:=K) (I:=I) (L:=L))
             (fun s => [DLE.y_pred s])).
Proof.
  split.
  - intros M K C HM HK HC HN. split; apply validates_eagerly_intro.
    + apply cbpe_fit_empty.
    + apply cbpe_fit_missing.
    + apply cbpe_estimate_empty.
    + apply cbpe_estimate_missing.
  - intros M K I L HM HK HI HL. split; apply validates_eagerly_intro.
    + apply dle_fit_empty.
    + apply dle_fit_missing.
    + apply dle_estimate_empty.
    + apply dle_estimate_missing.
Qed.

Lemma eager_validation_witness :
  CBPE._estimate (mkWorld cbpe scores_only [])
  = (inl (InvalidArgumentsException
            (MissingColumns ["y_pred"] ["y_pred_proba"])),
     mkWorld cbpe scores_only [])
  /\ DLE._fit (mkWorld (dle [] [mae None None None 1]) no_columns [])
     = (inl (InvalidArgumentsException NoRows),
        mkWorld (dle [] [mae None None None 1]) no_columns []).
Proof.
  split.
  - apply (proj2 (proj1 eager_validation _ _ _ _ _ _ _)
             (mkWorld cbpe scores_only [])).
    + reflexivity.
    + by vm_compute.
  - apply (proj1 (proj2 eager_validation _ _ _ _ _ _ _ _)
             (mkWorld (dle [] [mae None None None 1]) no_columns [])).
    reflexivity.
Defined.

(** ** The caller's frame, direct loss estimator *)

Section DLEFrame.

Import DLE DLERun.

Context {M K I L : Type}.
Context `{!Metric M, !Chunker K, !SimpleImputer.t I, !LabelEncoder.t L}.

Implicit Types (s : estimator M K I L) (w : World (estimator M K I L)).


Lemma dle_categorical_inv s d cats :
  categorical s d = inr cats ->
  exists continuous,
    _split_features_by_type d (feature_column_names s) = inr (continuous, cats).
Proof.
  unfold categorical.
  destruct (_split_features_by_type _ _) as [e|[continuous cats']]; [done|].
  intros [= <-]. by exists continuous.
Qed.






(** The encoded frame differs from the frame passed in, and holds integer
    codes in every categorical column. *)
Lemma dle_encoded_frame d features continuous cats imputed codes :
  _split_features_by_type d features = inr (continuous, cats) ->
  length imputed = length cats -> length codes = length cats ->
  let d' := set_each (set_each d cats imputed) cats (int_block codes) in
  (forall c, c ∈ cats -> exists zs, get d' c = inr (map CInt zs))
  /\ (forall c, c ∉ cats -> get d' c = get d c)
  /\ (cats <> [] -> d' <> d)
  /\ _split_features_by_type d' features = inr (features, []).
Proof.
  intros Hsplit Hlen1 Hlen2 d'.
  assert (forall c, c ∈ cats ->
            exists x, x ∈ int_block codes /\ get d' c = inr x) as Hin.
  { intros c Hc. apply get_set_each_in; [|done].
    unfold int_block. by rewrite length_map. }
  assert (forall c, c ∉ cats -> get d' c = get d c) as Hout.
  { intros c Hc. subst d'. by rewrite !get_set_each_notin. }
  split; [|split; [done|split]].
  - intros c Hc. destruct (Hin c Hc) as (x & Hx & Hget).
    unfold int_block in Hx. apply list_elem_of_fmap in Hx as (zs & -> & _).
    by exists zs.
  - intros Hne Heq. destruct cats as [|c cats]; [done|].
    destruct (Hin c) as (x & Hx & Hget); [by left|].
    destruct (split_features_categorical _ _ _ _ c Hsplit) as (_ & col & Hcol & Hcat);
      [by left|].
    rewrite Heq, Hcol in Hget. injection Hget as ->.
    apply is_categorical_int_block in Hx. congruence.
  - apply split_features_none. intros f Hf.
    destruct (decide (f ∈ cats)) as [Hc|Hc].
    + destruct (Hin f Hc) as (x & Hx & Hget). exists x. split; [done|].
      by apply (is_categorical_int_block codes).
    + rewrite (Hout f Hc).
      by apply (split_features_continuous _ _ _ _ f Hsplit).
Qed.

End DLEFrame.

Section DLEEncoded.

Import DLE DLERun.

Context {M K I L : Type}.
Context `{!Metric M, !Chunker K, !SimpleImputer.t I, !LabelEncoder.t L}.

Implicit Types (s : estimator M K I L) (w : World (estimator M K I L)).




End DLEEncoded.

(** ** The caller's frame, confidence-based estimator *)

Lemma setitem_setitem_same {V} k (v : V) (d : dict V) :
  setitem k v (setitem k v d) = setitem k v d.
Proof.
  induction d as [|[k' v'] d IH]; cbn [setitem].
  - by rewrite decide_True.
  - destruct (decide (k' = k)) as [->|Hne]; cbn [setitem].
    + by rewrite decide_True.
    + rewrite decide_False by done. by rewrite IH.
Qed.

Lemma set_set_same d c x : set (set d c x) c x = set d c x.
Proof. unfold set. cbn [index columns]. by rewrite setitem_setitem_same. Qed.

Section CBPEFrame.

Import CBPE CBPERun.

Context {M K C : Type}.
Context `{!Metric M, !Chunker K, !Calibration.Calibrator C, !Calibration.Check C}.

Implicit Types (s : estimator M K C) (w : World (estimator M K C)).

Lemma cbpe_prepared_eq s d :
  prepared s d
  = if needs_calibration s
    then set (set d ("uncalibrated_" +:+ y_pred_proba s)
                  (column d (y_pred_proba s)))
             (y_pred_proba s)
             (Calibration.calibrate (calibrator s) (column d (y_pred_proba s)))
    else set d ("uncalibrated_" +:+ y_pred_proba s) (column d (y_pred_proba s)).
Proof.
  unfold prepared. rewrite cbpe_column_with_uncalibrated. reflexivity.
Qed.

Lemma cbpe_estimate_frame w :
  empty (data w) = false ->
  y_pred_proba (self w) ∈ column_names (data w) ->
  y_pred (self w) ∈ column_names (data w) ->
  data (_estimate w).2 = prepared (self w) (data w).
Proof.
  intros Hne Hproba Hpred. rewrite cbpe_estimate_valid by done.
  unfold estimate_run. by destruct (table_of _ _).
Qed.


End CBPEFrame.

Section CBPEFitFrame.

Import CBPE CBPERun.

Context {M K C : Type}.
Context `{!Metric M, !Chunker K, !Calibration.Calibrator C, !Calibration.Check C}.

Implicit Types (s : estimator M K C) (w : World (estimator M K C)).

Lemma cbpe_fitted_valid w :
  empty (data w) = false ->
  y_pred_proba (self w) ∈ column_names (data w) ->
  y_pred (self w) ∈ column_names (data w) ->
  empty (data (fitted w)) = false
  /\ y_pred_proba (self (fitted w)) ∈ column_names (data (fitted w))
  /\ y_pred (self (fitted w)) ∈ column_names (data (fitted w)).
Proof.
  intros Hne Hproba Hpred. unfold fitted. cbn [self data calls].
  split; [by apply empty_set|].
  destruct (Calibration.needs_calibration _ _ _);
    split; by apply column_names_set.
Qed.

(** What [_fit] leaves of the estimator's calibration state and of the
    caller's frame. *)
Lemma cbpe_fit_frame w :
  empty (data w) = false ->
  y_true (self w) ∈ column_names (data w) ->
  y_pred_proba (self w) ∈ column_names (data w) ->
  y_pred (self w) ∈ column_names (data w) ->
  needs_calibration (self (_fit w).2) = needs_calibration (self (fitted w))
  /\ calibrator (self (_fit w).2) = calibrator (self (fitted w))
  /\ y_pred_proba (self (fitted w)) = y_pred_proba (self w)
  /\ data (_fit w).2 = prepared (self (fitted w)) (data w).
Proof.
  intros Hne Htrue Hproba Hpred.
  destruct (cbpe_fitted_valid w Hne Hproba Hpred) as (Hne' & Hproba' & Hpred').
  assert (y_pred_proba (self (fitted w)) = y_pred_proba (self w)) as Hname.
  { unfold fitted. cbn [self]. by destruct (Calibration.needs_calibration _ _ _). }
  assert (prepared (self (fitted w)) (data (fitted w))
          = prepared (self (fitted w)) (data w)) as Hprep.
  { rewrite !cbpe_prepared_eq, Hname.
    assert (data (fitted w) = with_uncalibrated (self w) (data w)) as ->
      by done.
    rewrite cbpe_column_with_uncalibrated.
    unfold with_uncalibrated, uncalibrated. by rewrite set_set_same. }
  rewrite cbpe_fit_valid by done. unfold fit_run.
  rewrite <- (cbpe_estimate_valid (fitted w)) by done.
  rewrite <- Hprep, <- (cbpe_estimate_frame (fitted w)) by done.
  destruct (cbpe_estimate_self (fitted w)) as [r Hr].
  destruct (_estimate (fitted w)) as [[e|r'] w'] eqn:Hrun;
    cbn [snd self data needs_calibration calibrator with_result] in *;
    rewrite Hr; done.
Qed.

End CBPEFitFrame.




(** ** Calibration gating *)

Section CBPEGating.

Import CBPE CBPERun.

Context {M K C : Type}.
Context `{!Metric M, !Chunker K, !Calibration.Calibrator C, !Calibration.Check C}.

Implicit Types (s : estimator M K C) (w : World (estimator M K C)).

(** What a validated [_estimate] does about calibration: the state it
    keeps, the calls it makes and the two columns it writes. *)
Lemma cbpe_estimate_gating w :
  empty (data w) = false ->
  y_pred_proba (self w) ∈ column_names (data w) ->
  y_pred (self w) ∈ column_names (data w) ->
  let s := self w in
  let scores := column (data w) (y_pred_proba s) in
  needs_calibration (self (_estimate w).2) = needs_calibration s
  /\ calibrator (self (_estimate w).2) = calibrator s
  /\ calls (_estimate w).2
     = calls w ++ (if needs_calibration s then [calibrate_call scores] else [])
  /\ column (data (_estimate w).2) (y_pred_proba s)
     = (if needs_calibration s
        then Calibration.calibrate (calibrator s) scores
        else scores)
  /\ column (data (_estimate w).2) ("uncalibrated_" +:+ y_pred_proba s)
     = scores.
Proof.
  intros Hne Hproba Hpred. cbv zeta.
  pose proof (cbpe_estimate_frame w Hne Hproba Hpred) as Hdata.
  destruct (cbpe_estimate_self w) as [r Hself].
  rewrite Hdata, Hself, cbpe_prepared_eq.
  cbn [needs_calibration calibrator with_result].
  split; [done|]. split; [done|]. split.
  { rewrite cbpe_estimate_valid by done.
    unfold estimate_run, calibrate_calls.
    rewrite cbpe_column_with_uncalibrated.
    by destruct (table_of _ _). }
  pose proof (uncalibrated_neq (self w)) as Hneq. unfold uncalibrated in Hneq.
  destruct (needs_calibration (self w)).
  - rewrite column_set_eq. split; [done|].
    rewrite column_set_ne by (intros Heq; by apply Hneq).
    by rewrite column_set_eq.
  - rewrite column_set_ne by done. split; [done|]. by rewrite column_set_eq.
Qed.

(** A rejected [_estimate] changes nothing. *)
Lemma cbpe_estimate_rejected w :
  (empty (data w) = true
   \/ y_pred_proba (self w) ∉ column_names (data w)
   \/ y_pred (self w) ∉ column_names (data w)) ->
  (_estimate w).2 = w.
Proof.
  intros Hbad. destruct (empty (data w)) eqn:He.
  { by rewrite cbpe_estimate_empty. }
  destruct (list_missing_cases [y_pred_proba (self w); y_pred (self w)]
              (column_names (data w))) as [[_ Hall]|[_ Hm]].
  - exfalso. destruct Hbad as [?|[Hbad|Hbad]]; [done| |]; apply Hbad, Hall.
    + by left.
    + right. by left.
  - by rewrite (cbpe_estimate_missing _ _ He Hm).
Qed.

(** C7. A validated [_fit] asks [needs_calibration] exactly once, on the
    reference labels and scores, stores the answer and fits the calibrator
    exactly when the answer is true.  A validated [_estimate] keeps the flag
    and the calibrator; when the flag is true it makes one call to
    [calibrate], on the score column, and the score column then holds the
    calibrator's output for the scores passed in; when the flag is false it
    makes no call and the score column holds the scores passed in.  A
    rejected call makes no call and writes nothing.  In particular, when
    the reference scores are the reference labels and the check answers
    false on them, the flag is false after [_fit] and no [_estimate] on that
    estimator ever calls [calibrate] or changes a score. *)
Theorem cbpe_calibration_gating :
  (forall w,
      empty (data w) = false ->
      y_true (self w) ∈ column_names (data w) ->
      y_pred_proba (self w) ∈ column_names (data w) ->
      y_pred (self w) ∈ column_names (data w) ->
      let s := self w in
      let d := with_uncalibrated s (data w) in
      let labels := column d (y_true s) in
      let scores := column (data w) (y_pred_proba s) in
      let flag := Calibration.needs_calibration labels scores (calibrator s) in
      let fitted_calibrator :=
        if flag then Calibration.fit (calibrator s) scores labels
        else calibrator s in
      needs_calibration (self (_fit w).2) = flag
      /\ calibrator (self (_fit w).2) = fitted_calibrator
      /\ calls (_fit w).2
         = calls w
           ++ [needs_calibration_call labels scores]
           ++ (if flag then [calibrator_fit_call scores labels] else [])
           ++ (if flag then [calibrate_call scores] else [])
      /\ column (data (_fit w).2) (y_pred_proba s)
         = (if flag then Calibration.calibrate fitted_calibrator scores
            else scores)
      /\ column (data (_fit w).2) ("uncalibrated_" +:+ y_pred_proba s)
         = scores)
  /\ (forall w,
        empty (data w) = false ->
        y_pred_proba (self w) ∈ column_names (data w) ->
        y_pred (self w) ∈ column_names (data w) ->
        let s := self w in
        let scores := column (data w) (y_pred_proba s) in
        needs_calibration (self (_estimate w).2) = needs_calibration s
        /\ calibrator (self (_estimate w).2) = calibrator s
        /\ calls (_estimate w).2
           = calls w
             ++ (if needs_calibration s then [calibrate_call scores] else [])
        /\ column (data (_estimate w).2) (y_pred_proba s)
           = (if needs_calibration s
              then Calibration.calibrate (calibrator s) scores
              else scores)
        /\ column (data (_estimate w).2) ("uncalibrated_" +:+ y_pred_proba s)
           = scores)
  /\ (forall w,
        (empty (data w) = true
         \/ y_pred_proba (self w) ∉ column_names (data w)
         \/ y_pred (self w) ∉ column_names (data w)) ->
        calls (_estimate w).2 = calls w
        /\ data (_estimate w).2 = data w
        /\ needs_calibration (self (_estimate w).2) = needs_calibration (self w)
        /\ calibrator (self (_estimate w).2) = calibrator (self w))
  /\ (forall w,
        empty (data w) = false ->
        y_true (self w) ∈ column_names (data w) ->
        y_pred_proba (self w) ∈ column_names (data w) ->
        y_pred (self w) ∈ column_names (data w) ->
        let s := self w in
        let labels := column (data w) (y_true s) in
        column (data w) (y_pred_proba s) = labels ->
        Calibration.needs_calibration labels labels (calibrator s) = false ->
        needs_calibration (self (_fit w).2) = false
        /\ calls (_fit w).2 = calls w ++ [needs_calibration_call labels labels]
        /\ column (data (_fit w).2) (y_pred_proba s) = labels
        /\ forall d cs,
             let w' := mkWorld (self (_fit w).2) d cs in
             calls (_estimate w').2 = cs
             /\ column (data (_estimate w').2) (y_pred_proba s)
                = column d (y_pred_proba s)).
Proof.
  assert (forall w,
      empty (data w) = false ->
      y_true (self w) ∈ column_names (data w) ->
      y_pred_proba (self w) ∈ column_names (data w) ->
      y_pred (self w) ∈ column_names (data w) ->
      let s := self w in
      let d := with_uncalibrated s (data w) in
      let labels := column d (y_true s) in
      let scores := column (data w) (y_pred_proba s) in
      let flag := Calibration.needs_calibration labels scores (calibrator s) in
      let fitted_calibrator :=
        if flag then Calibration.fit (calibrator s) scores labels
        else calibrator s in
      needs_calibration (self (_fit w).2) = flag
      /\ calibrator (self (_fit w).2) = fitted_calibrator
      /\ calls (_fit w).2
         = calls w
           ++ [needs_calibration_call labels scores]
           ++ (if flag then [calibrator_fit_call scores labels] else [])
           ++ (if flag then [calibrate_call scores] else [])
      /\ column (data (_fit w).2) (y_pred_proba s)
         = (if flag then Calibration.calibrate fitted_calibrator scores
            else scores)
      /\ column (data (_fit w).2) ("uncalibrated_" +:+ y_pred_proba s)
         = scores) as Hfit.
  { intros w Hne Htrue Hproba Hpred. cbv zeta.
    destruct (cbpe_fitted_valid w Hne Hproba Hpred) as (Hne' & Hproba' & Hpred').
    destruct (cbpe_estimate_gating (fitted w) Hne' Hproba' Hpred')
      as (Hflag & Hcal & Hcalls & Hscores & Huncal).
    cbv zeta in Hflag, Hcal, Hcalls, Hscores, Huncal.
    assert (y_pred_proba (self (fitted w)) = y_pred_proba (self w)) as Hname.
    { unfold fitted. cbn [self].
      by destruct (Calibration.needs_calibration _ _ _). }
    assert (calibrator (self (fitted w))
            = if needs_calibration (self (fitted w))
              then Calibration.fit (calibrator (self w))
                     (column (data w) (y_pred_proba (self w)))
                     (column (with_uncalibrated (self w) (data w))
                             (y_true (self w)))
              else calibrator (self w)) as Hfitcal.
    { unfold fitted. cbn [self]. rewrite cbpe_column_with_uncalibrated.
      by destruct (Calibration.needs_calibration _ _ _). }
    rewrite cbpe_fitted_scores in Hcalls, Hscores, Huncal.
    rewrite cbpe_fitted_calls in Hcalls.
    rewrite Hname in Hscores, Huncal.
    rewrite Hfitcal in Hcal, Hscores.
    rewrite cbpe_fitted_flag in Hflag, Hcal, Hcalls, Hscores.
    assert (self (_fit w).2
            = with_result (result (self (_fit w).2)) (self (_estimate (fitted w)).2)
            /\ data (_fit w).2 = data (_estimate (fitted w)).2
            /\ calls (_fit w).2 = calls (_estimate (fitted w)).2)
      as (Hs & Hd & Hc).
    { rewrite cbpe_fit_valid by done. unfold fit_run.
      rewrite <- (cbpe_estimate_valid (fitted w)) by done.
      destruct (_estimate (fitted w)) as [[e|r] w'];
        cbn [snd self data calls result with_result];
        (split; [by destruct (self w')|done]). }
    rewrite Hs, Hd, Hc. cbn [needs_calibration calibrator with_result].
    split; [exact Hflag|]. split; [exact Hcal|].
    split; [by rewrite Hcalls, <- !app_assoc|].
    split; [exact Hscores|exact Huncal]. }
  split; [exact Hfit|]. split; [exact cbpe_estimate_gating|]. split.
  - intros w Hbad. by rewrite (cbpe_estimate_rejected w Hbad).
  - intros w Hne Htrue Hproba Hpred. cbv zeta. intros Hsame Hcheck.
    destruct (Hfit w Hne Htrue Hproba Hpred)
      as (Hflag & Hcal & Hcalls & Hscores & _).
    cbv zeta in Hflag, Hcal, Hcalls, Hscores.
    assert (column (with_uncalibrated (self w) (data w)) (y_true (self w))
            = column (data w) (y_true (self w))) as Hlabels.
    { unfold with_uncalibrated.
      destruct (decide (uncalibrated (self w) = y_true (self w))) as [Heq|Hneq].
      - rewrite <- Heq at 1. by rewrite column_set_eq.
      - by rewrite column_set_ne. }
    rewrite Hlabels, Hsame, Hcheck in Hflag, Hcal, Hcalls, Hscores.
    split; [done|]. split; [by rewrite Hcalls, !app_nil_r|].
    split; [done|].
    intros d cs. cbv zeta.
    assert (y_pred_proba (self (_fit w).2) = y_pred_proba (self w)) as Hname.
    { destruct (cbpe_fit_frame w Hne Htrue Hproba Hpred) as (_ & _ & Hn & _).
      rewrite <- Hn. rewrite cbpe_fit_valid by done. unfold fit_run.
      destruct (cbpe_fitted_valid w Hne Hproba Hpred) as (Hne' & Hproba' & Hpred').
      rewrite <- (cbpe_estimate_valid (fitted w)) by done.
      destruct (cbpe_estimate_self (fitted w)) as [r Hr].
      destruct (_estimate (fitted w)) as [[e|r'] w'];
        cbn [snd self y_pred_proba with_result] in *; by rewrite Hr. }
    destruct (empty d) eqn:He.
    { by rewrite cbpe_estimate_empty. }
    destruct (list_missing_cases
                [y_pred_proba (self (_fit w).2); y_pred (self (_fit w).2)]
                (column_names d)) as [[_ Hall]|[_ Hm]].
    + destruct (cbpe_estimate_gating (mkWorld (self (_fit w).2) d cs))
        as (_ & _ & Hc & Hcol & _).
      * done.
      * apply Hall. by left.
      * apply Hall. right. by left.
      * cbv zeta in Hc, Hcol. cbn [self data calls] in Hc, Hcol.
        rewrite Hflag in Hc, Hcol. rewrite Hname in Hcol.
        split; [by rewrite Hc, app_nil_r|exact Hcol].
    + by rewrite (cbpe_estimate_missing (mkWorld _ d cs) _ He Hm).
Qed.

End CBPEGating.

Lemma cbpe_calibration_gating_witness :
  (let w := mkWorld (self Session.after_fit) analysis [] in
   CBPE.needs_calibration (self w) = true
   /\ calls (CBPE._estimate w).2
      = [calibrate_call (column analysis "y_pred_proba")]
   /\ column (data (CBPE._estimate w).2) "y_pred_proba"
      = Calibration.calibrate Halving (column analysis "y_pred_proba"))
  /\ CBPE.needs_calibration (self (CBPE._fit (mkWorld cbpe perfect [])).2)
     = false
  /\ forall d cs,
       calls (CBPE._estimate
                (mkWorld (self (CBPE._fit (mkWorld cbpe perfect [])).2) d cs)).2
       = cs.
Proof.
  split.
  - intros w.
    destruct (proj1 (proj2 cbpe_calibration_gating) w)
      as (_ & _ & Hcalls & Hscores & _).
    + reflexivity.
    + in_columns.
    + in_columns.
    + cbv zeta in Hcalls, Hscores.
      assert (CBPE.needs_calibration (self w) = true) as Hflag
        by (by vm_compute).
      assert (CBPE.y_pred_proba (self w) = "y_pred_proba") as Hname
        by (by vm_compute).
      assert (CBPE.calibrator (self w) = Halving) as Hcal
        by (by destruct (CBPE.calibrator (self w))).
      rewrite Hflag, Hname in Hcalls. rewrite Hflag, Hname, Hcal in Hscores.
      split; [done|]. split; [exact Hcalls|exact Hscores].
  - destruct (proj2 (proj2 (proj2 cbpe_calibration_gating))
                (mkWorld cbpe perfect [])) as (Hflag & _ & _ & Hnever).
    + reflexivity.
    + in_columns.
    + in_columns.
    + in_columns.
    + reflexivity.
    + by vm_compute.
    + split; [exact Hflag|]. intros d cs. apply (Hnever d cs).
Defined.

(** * Further properties of the two estimators *)

(** ** Alerts *)

Section DLEAlert.

Import DLE DLESpec.

Context {M K I L : Type}.
Context `{!Metric M, !Chunker K, !SimpleImputer.t I, !LabelEncoder.t L}.

Implicit Types (s : estimator M K I L) (chunk : Chunk) (m : M).

Lemma gt_if_truthy_true x t :
  gt_if_truthy x t = true
  <-> exists u, t = Some u /\ ~ (u == 0)%Q /\ (u < x)%Q.
Proof.
  unfold gt_if_truthy, truthy. destruct t as [u|].
  - destruct (Qeq_bool u 0) eqn:Hz; cbn [negb].
    + apply Qeq_bool_iff in Hz. split; [done|].
      intros (u' & [= <-] & Hnz & _). done.
    + apply Qeq_bool_neq in Hz. rewrite Qltb_lt. split.
      * intros Hlt. by exists u.
      * by intros (u' & [= <-] & _ & Hlt).
  - split; [done|]. by intros (u & ? & _).
Qed.

Lemma lt_if_truthy_true x t :
  lt_if_truthy x t = true
  <-> exists l, t = Some l /\ ~ (l == 0)%Q /\ (x < l)%Q.
Proof.
  unfold lt_if_truthy, truthy. destruct t as [l|].
  - destruct (Qeq_bool l 0) eqn:Hz; cbn [negb].
    + apply Qeq_bool_iff in Hz. split; [done|].
      intros (l' & [= <-] & Hnz & _). done.
    + apply Qeq_bool_neq in Hz. rewrite Qltb_lt. split.
      * intros Hlt. by exists l.
      * by intros (l' & [= <-] & _ & Hlt).
  - split; [done|]. by intros (l & ? & _).
Qed.

(** X1. The alert the regression strategy stores for a metric is true
    exactly when the upper threshold is a non-zero number below the estimate
    or the lower threshold is a non-zero number above it: a threshold that
    is None or zero never alerts. *)
Theorem dle_alert_iff s chunk m :
  NoDup (map column_name (metrics s)) ->
  m ∈ metrics s ->
  exists alert,
    getitem ("alert_" +:+ column_name m) (_estimate_chunk s chunk)
    = Some (CBool alert)
    /\ (alert = true
        <-> (exists u, upper_threshold m = Some u /\ ~ (u == 0)%Q
                       /\ (u < estimate m (chunk_data chunk))%Q)
            \/ (exists l, lower_threshold m = Some l /\ ~ (l == 0)%Q
                          /\ (estimate m (chunk_data chunk) < l)%Q)).
Proof.
  intros Hnd Hm. eexists. split; [by apply dle_alert_lookup|].
  rewrite orb_true_iff, gt_if_truthy_true, lt_if_truthy_true. reflexivity.
Qed.

(** X2. The boundaries the regression strategy stores never pass a value
    limit the metric declares: the upper boundary is at most
    upper_value_limit and the lower boundary at least lower_value_limit,
    whatever the estimate and the sampling error. *)
Theorem dle_boundaries_within_limits s chunk m :
  NoDup (map column_name (metrics s)) ->
  m ∈ metrics s ->
  exists lower upper,
    getitem ("lower_confidence_" +:+ column_name m) (_estimate_chunk s chunk)
    = Some (CFloat lower)
    /\ getitem ("upper_confidence_" +:+ column_name m)
               (_estimate_chunk s chunk) = Some (CFloat upper)
    /\ (forall limit, upper_value_limit m = Some limit -> (upper <= limit)%Q)
    /\ (forall limit, lower_value_limit m = Some limit -> (limit <= lower)%Q).
Proof.
  intros Hnd Hm.
  exists (lower_confidence_boundary m chunk), (upper_confidence_boundary m chunk).
  rewrite !(dle_estimate_chunk_lookup s chunk m) by
    (done || (unfold metric_keys; rewrite !elem_of_cons; tauto)).
  unfold entries. cbn [getitem].
  split; [rewrite !decide_False by key_neq; by rewrite decide_True|].
  split; [rewrite !decide_False by key_neq; by rewrite decide_True|].
  unfold upper_confidence_boundary, lower_confidence_boundary. split.
  - intros limit ->. apply py_min_le_l.
  - intros limit ->. apply py_max_ge_l.
Qed.

End DLEAlert.

Lemma dle_alert_iff_witness :
  exists alert,
    getitem ("alert_" +:+ DLE.column_name (mae (Some 1%Q) None None 2))
      (DLE._estimate_chunk (dle [] [mae (Some 1%Q) None None 2]) a_chunk)
    = Some (CBool alert)
    /\ alert = true.
Proof.
  destruct (dle_alert_iff (dle [] [mae (Some 1%Q) None None 2]) a_chunk
              (mae (Some 1%Q) None None 2)) as (alert & Hget & Hiff).
  - apply NoDup_singleton.
  - apply list_elem_of_singleton. reflexivity.
  - exists alert. split; [exact Hget|]. apply Hiff. left. exists 1%Q.
    split; [reflexivity|]. split; [by vm_compute|by vm_compute].
Defined.

Lemma dle_boundaries_within_limits_witness :
  exists lower upper,
    getitem ("lower_confidence_"
             +:+ DLE.column_name (mae None None (Some 0%Q) (-1)))
      (DLE._estimate_chunk (dle [] [mae None None (Some 0%Q) (-1)]) a_chunk)
    = Some (CFloat lower)
    /\ getitem ("upper_confidence_"
                +:+ DLE.column_name (mae None None (Some 0%Q) (-1)))
         (DLE._estimate_chunk (dle [] [mae None None (Some 0%Q) (-1)]) a_chunk)
       = Some (CFloat upper)
    /\ (0 <= lower)%Q.
Proof.
  destruct (dle_boundaries_within_limits
              (dle [] [mae None None (Some 0%Q) (-1)]) a_chunk
              (mae None None (Some 0%Q) (-1)))
    as (lower & upper & Hl & Hu & _ & Hlim).
  - apply NoDup_singleton.
  - apply list_elem_of_singleton. reflexivity.
  - exists lower, upper. split; [exact Hl|]. split; [exact Hu|].
    by apply Hlim.
Defined.

Section CBPEAlert.

Import CBPE CBPESpec.

Context {M K C : Type}.
Context `{!Metric M, !Chunker K, !Calibration.Calibrator C, !Calibration.Check C}.

Implicit Types (s : estimator M K C) (chunk : Chunk) (m : M) (ms : list M).

Lemma cbpe_alert_cases chunk m :
  alert chunk m
  = match upper_threshold m with
    | None => inl TypeError
    | Some u =>
        if Qltb u (estimate m (chunk_data chunk)) then inr true
        else match lower_threshold m with
             | None => inl TypeError
             | Some l => inr (Qltb (estimate m (chunk_data chunk)) l)
             end
    end.
Proof.
  unfold alert, gt, lt, or_else. destruct (upper_threshold m) as [u|]; [|done].
  destruct (Qltb u _); [done|]. by destruct (lower_threshold m).
Qed.

Lemma cbpe_alert_fails chunk m e :
  alert chunk m = inl e
  <-> e = TypeError
      /\ (upper_threshold m = None
          \/ exists u, upper_threshold m = Some u
                       /\ (estimate m (chunk_data chunk) <= u)%Q
                       /\ lower_threshold m = None).
Proof.
  rewrite cbpe_alert_cases. destruct (upper_threshold m) as [u|].
  - destruct (Qltb u _) eqn:Hlt.
    + apply Qltb_lt in Hlt. split; [done|].
      intros (_ & [?|(u' & [= <-] & Hle & _)]); [done|].
      exfalso. by apply (Qlt_not_le _ _ Hlt).
    + apply Qltb_ge in Hlt. destruct (lower_threshold m) as [l|].
      * split; [done|]. by intros (_ & [?|(u' & _ & _ & ?)]).
      * split.
        -- intros [= <-]. split; [done|]. right. by exists u.
        -- by intros [-> _].
  - split.
    + intros [= <-]. split; [done|]. by left.
    + by intros [-> _].
Qed.

Lemma cbpe_estimate_metrics_fails s chunk ms d e :
  estimate_metrics s chunk ms d = inl e
  <-> e = TypeError /\ exists m, m ∈ ms /\ alert chunk m = inl TypeError.
Proof.
  revert d. induction ms as [|m ms IH]; intros d; cbn [estimate_metrics].
  - split; [done|]. intros (_ & m & Hm & _). by apply elem_of_nil in Hm.
  - rewrite cbpe_estimate_metric_eq.
    destruct (alert chunk m) as [e'|a] eqn:Ha.
    + pose proof (proj1 (cbpe_alert_fails chunk m e') Ha) as [-> _]. split.
      * intros [= <-]. split; [done|]. exists m. split; [by left|done].
      * by intros [-> _].
    + rewrite IH. split.
      * intros (-> & m' & Hm' & Hf). split; [done|]. exists m'.
        split; [by right|done].
      * intros (-> & m' & Hm' & Hf). split; [done|]. exists m'.
        split; [|done]. apply elem_of_cons in Hm' as [->|?]; [congruence|done].
Qed.

(** X3. The only error of [_estimate_chunk] in the classification strategy
    is a TypeError, and it is raised exactly when some metric has no upper
    threshold, or has no lower threshold while its estimate does not exceed
    the upper one ([or] evaluates the lower comparison only then). *)
Theorem cbpe_estimate_chunk_type_error s chunk :
  (forall e, _estimate_chunk s chunk = inl e -> e = TypeError)
  /\ (_estimate_chunk s chunk = inl TypeError
      <-> exists m,
            m ∈ metrics s
            /\ (upper_threshold m = None
                \/ exists u, upper_threshold m = Some u
                             /\ (estimate m (chunk_data chunk) <= u)%Q
                             /\ lower_threshold m = None)).
Proof.
  unfold _estimate_chunk. split.
  - intros e He. by apply cbpe_estimate_metrics_fails in He as [-> _].
  - rewrite cbpe_estimate_metrics_fails. split.
    + intros (_ & m & Hm & Hf). exists m. split; [done|].
      by apply cbpe_alert_fails in Hf as [_ Hf].
    + intros (m & Hm & Hf). split; [done|]. exists m. split; [done|].
      by apply cbpe_alert_fails.
Qed.

(** X4. With numeric thresholds the alert the classification strategy
    stores for a metric is true exactly when the estimate is strictly above
    the upper threshold or strictly below the lower one. *)
Theorem cbpe_alert_iff s chunk m u l :
  NoDup (map column_name (metrics s)) ->
  thresholds_defined (metrics s) ->
  m ∈ metrics s ->
  upper_threshold m = Some u ->
  lower_threshold m = Some l ->
  exists estimates alert,
    _estimate_chunk s chunk = inr estimates
    /\ getitem ("alert_" +:+ column_name m) estimates = Some (CBool alert)
    /\ (alert = true
        <-> (u < estimate m (chunk_data chunk))%Q
            \/ (estimate m (chunk_data chunk) < l)%Q).
Proof.
  intros Hnd Hth Hm Hu Hl.
  destruct (cbpe_estimate_chunk_lookup s chunk m Hnd Hth Hm)
    as (estimates & Hrun & Hlook).
  exists estimates, (alert_value chunk m). split; [done|]. split.
  - rewrite Hlook by (unfold metric_keys; rewrite !elem_of_cons; tauto).
    unfold entries. cbn [getitem].
    rewrite !decide_False by key_neq. by rewrite decide_True.
  - unfold alert_value. rewrite cbpe_alert_cases, Hu, Hl.
    destruct (Qltb u _) eqn:Hlt.
    + apply Qltb_lt in Hlt. split; [by left|done].
    + apply Qltb_ge in Hlt. rewrite Qltb_lt. split; [by right|].
      intros [Hgt|?]; [|done]. exfalso. by apply (Qlt_not_le _ _ Hgt).
Qed.

(** X5. The boundaries the classification strategy stores never leave the
    estimator's confidence bounds, whatever these are set to: the upper
    boundary is at most confidence_upper_bound and the lower boundary at
    least confidence_lower_bound. *)
Theorem cbpe_boundaries_within_bounds s chunk m :
  NoDup (map column_name (metrics s)) ->
  thresholds_defined (metrics s) ->
  m ∈ metrics s ->
  exists estimates lower upper,
    _estimate_chunk s chunk = inr estimates
    /\ getitem ("lower_confidence_" +:+ column_name m) estimates
       = Some (CFloat lower)
    /\ getitem ("upper_confidence_" +:+ column_name m) estimates
       = Some (CFloat upper)
    /\ (confidence_lower_bound s <= lower)%Q
    /\ (upper <= confidence_upper_bound s)%Q.
Proof.
  intros Hnd Hth Hm.
  destruct (cbpe_estimate_chunk_lookup s chunk m Hnd Hth Hm)
    as (estimates & Hrun & Hlook).
  eexists estimates, _, _. split; [done|].
  rewrite !Hlook by (unfold metric_keys; rewrite !elem_of_cons; tauto).
  unfold entries. cbn [getitem].
  split; [rewrite !decide_False by key_neq; by rewrite decide_True|].
  split; [rewrite !decide_False by key_neq; by rewrite decide_True|].
  split; [apply py_max_ge_l|apply py_min_le_l].
Qed.

End CBPEAlert.

Lemma cbpe_estimate_chunk_type_error_witness :
  CBPE._estimate_chunk (cbpe_with [roc_auc; unfitted]) a_chunk = inl TypeError.
Proof.
  apply (proj2 (cbpe_estimate_chunk_type_error
                  (cbpe_with [roc_auc; unfitted]) a_chunk)).
  exists unfitted. split.
  - change (unfitted ∈ [roc_auc; unfitted]). rewrite !elem_of_cons. tauto.
  - left. reflexivity.
Defined.

Lemma cbpe_alert_iff_witness :
  exists estimates alert,
    CBPE._estimate_chunk cbpe a_chunk = inr estimates
    /\ getitem ("alert_" +:+ CBPE.column_name roc_auc) estimates
       = Some (CBool alert)
    /\ alert <> true.
Proof.
  destruct (cbpe_alert_iff cbpe a_chunk roc_auc (9 # 10) (1 # 10))
    as (estimates & alert & Hrun & Hget & Hiff).
  - apply NoDup_singleton.
  - thresholds.
  - apply list_elem_of_singleton. reflexivity.
  - reflexivity.
  - reflexivity.
  - exists estimates, alert. split; [exact Hrun|]. split; [exact Hget|].
    intros Ha. apply Hiff in Ha as [Ha|Ha]; by vm_compute in Ha.
Defined.

Lemma cbpe_boundaries_within_bounds_witness :
  exists estimates lower upper,
    CBPE._estimate_chunk cbpe a_chunk = inr estimates
    /\ getitem ("lower_confidence_" +:+ CBPE.column_name roc_auc) estimates
       = Some (CFloat lower)
    /\ getitem ("upper_confidence_" +:+ CBPE.column_name roc_auc) estimates
       = Some (CFloat upper)
    /\ (CBPE.confidence_lower_bound cbpe <= lower)%Q
    /\ (upper <= CBPE.confidence_upper_bound cbpe)%Q.
Proof.
  apply (cbpe_boundaries_within_bounds cbpe a_chunk roc_auc).
  - apply NoDup_singleton.
  - thresholds.
  - apply list_elem_of_singleton. reflexivity.
Defined.

(** ** The result table of the direct loss estimator *)

Section DLEAccumulate.

Import DLE DLESpec DLERun.

Context {M K I L : Type}.
Context `{!Metric M, !Chunker K, !SimpleImputer.t I, !LabelEncoder.t L}.

Implicit Types (s : estimator M K I L) (r : Result M K).
Implicit Types (w : World (estimator M K I L)).

Lemma dle_row_of_length s chunk :
  length (row_of s chunk) = 7 + 8 * length (metrics s).
Proof.
  unfold row_of, values. rewrite length_fmap, length_app.
  change (length (chunk_record chunk)) with 7. f_equal.
  induction (metrics s) as [|m ms IH]; [done|].
  change (flat_map ?f (m :: ms)) with (f m ++ flat_map f ms).
  rewrite length_app, IH. change (length (entries _ _)) with 8.
  cbn [length]. lia.
Qed.

Lemma chunk_column_names_NoDup : NoDup chunk_column_names.
Proof.
  unfold chunk_column_names.
  repeat (apply NoDup_cons; split;
          [rewrite ?not_elem_of_cons; repeat split;
           try (intros [=]); apply not_elem_of_nil|]).
  apply NoDup_nil_2.
Qed.

Lemma record_keys_NoDup names :
  NoDup names -> NoDup (chunk_column_names ++ flat_map metric_keys names).
Proof.
  intros Hnd. apply NoDup_app. split; [apply chunk_column_names_NoDup|]. split.
  - intros k Hk Hk'. apply elem_of_flat_metric_keys in Hk' as (n & _ & Hk').
    by apply (metric_keys_not_chunk n k).
  - by apply flat_metric_keys_NoDup.
Qed.

Lemma dle_table_of_ok s d :
  NoDup (names s) -> split (chunker s) d <> [] ->
  table_of s d
  = inr {| labels := _create_multilevel_index (names s);
           rows := new_rows s d |}.
Proof.
  intros Hnd Hne. unfold table_of, new_rows.
  rewrite (from_records_same
             (chunk_column_names ++ flat_map metric_keys (names s))).
  - unfold set_labels. cbn [labels rows]. rewrite decide_True.
    + f_equal. f_equal. rewrite map_map. apply map_ext. intros chunk.
      unfold row_of. by rewrite dle_record_of_eq.
    + rewrite index_length, length_app, flat_metric_keys_length. done.
  - destruct (split (chunker s) d); [done|]. done.
  - by apply record_keys_NoDup.
  - apply Forall_forall. intros rec Hrec.
    apply list_elem_of_fmap in Hrec as (chunk & -> & _).
    rewrite dle_record_of_eq by done.
    rewrite keys_app, keys_chunk_record, dle_keys_flat_entries. done.
Qed.

(** Without a chunk there is no record, the frame of records has no
    column, and the layout cannot be assigned. *)
Lemma dle_table_of_no_chunk s d :
  split (chunker s) d = [] -> table_of s d = inl ValueError.
Proof.
  intros Hnone. unfold table_of. rewrite Hnone. unfold set_labels.
  cbn [map from_records union_keys fold_left labels].
  rewrite decide_False; [done|]. rewrite index_length. cbn [length]. lia.
Qed.

Lemma dle_new_rows_wf s d :
  Forall (fun row => length row = 7 + 8 * length (metrics s)) (new_rows s d).
Proof.
  apply Forall_forall. intros row Hrow.
  apply list_elem_of_fmap in Hrow as (chunk & -> & _).
  apply dle_row_of_length.
Qed.

Lemma dle_row_of_period s chunk :
  period_of (names s) (row_of s chunk) = Some (CStr "analysis").
Proof. reflexivity. Qed.

(** [_estimate] from the encoded frame, on a ready estimator: the new rows
    go after the rows held. *)
Lemma dle_estimate_tail_ready w :
  ready (self w) -> split (chunker (self w)) (data w) <> [] ->
  exists r,
    estimate_tail w
    = (inr r, mkWorld (with_result (Some r) (self w)) (data w) (calls w))
    /\ rows (results_data r)
       = rows_so_far (self w) ++ new_rows (self w) (data w)
    /\ well_formed (self w) r.
Proof.
  intros (Hnd & Hwf) Hchunks. unfold estimate_tail.
  rewrite dle_table_of_ok by done.
  eexists. split; [reflexivity|].
  unfold accumulate, rows_so_far. destruct (result (self w)) as [r0|].
  - destruct Hwf as [Hlab Hrows]. cbn [results_data with_results_data].
    rewrite concat_same.
    + cbn [rows labels]. split; [done|]. split; cbn [results_data labels rows].
      * done.
      * apply Forall_app. split; [done|]. apply dle_new_rows_wf.
    + by cbn [labels].
    + rewrite Hlab. by apply index_NoDup.
    + rewrite Hlab, index_length. unfold names. by rewrite length_map.
    + cbn [rows]. rewrite Hlab, index_length. unfold names.
      rewrite length_map. apply dle_new_rows_wf.
  - cbn [results_data rows labels app]. split; [done|].
    split; cbn [results_data rows labels]; [done|]. apply dle_new_rows_wf.
Qed.

Lemma dle_as_reference_rows s r :
  well_formed s r ->
  rows (results_data (as_reference r))
  = map (fun row => row_set (_create_multilevel_index (names s)) row
                            ("chunk", "period") (CStr "reference"))
        (rows (results_data r))
  /\ well_formed s (as_reference r)
  /\ Forall (fun row => period_of (names s) row = Some (CStr "reference"))
            (rows (results_data (as_reference r))).
Proof.
  intros [Hlab Hrows]. unfold as_reference, set_scalar.
  cbn [results_data with_results_data].
  rewrite decide_True by (rewrite Hlab; apply period_in_index).
  cbn [rows labels]. rewrite Hlab. split; [done|]. split.
  - split; [done|]. cbn [results_data rows].
    apply Forall_forall. intros row Hrow.
    apply list_elem_of_fmap in Hrow as (row0 & -> & Hrow0).
    rewrite row_set_length. rewrite Forall_forall in Hrows. auto.
  - apply Forall_forall. intros row Hrow.
    apply list_elem_of_fmap in Hrow as (row0 & -> & Hrow0).
    unfold period_of. apply row_get_row_set_eq.
    + apply period_in_index.
    + rewrite index_length. unfold names. rewrite length_map.
      rewrite Forall_forall in Hrows. auto.
Qed.

End DLEAccumulate.

Section DLERefit.

Import DLE DLESpec DLERun.

Context {M K I L : Type}.
Context `{!Metric M, !Chunker K, !SimpleImputer.t I, !LabelEncoder.t L}.

Implicit Types (s : estimator M K I L) (r : Result M K).
Implicit Types (w : World (estimator M K I L)).

Lemma only_encoding_frame w w' :
  only_encoding w w' ->
  feature_column_names (self w') = feature_column_names (self w)
  /\ y_pred (self w') = y_pred (self w)
  /\ metrics (self w') = metrics (self w)
  /\ chunker (self w') = chunker (self w)
  /\ result (self w') = result (self w).
Proof. intros [_ (imp & enc & ->)]. done. Qed.

(** Once [_fit] has encoded the frame, nothing is left to encode. *)
Lemma dle_fit_block_leaves_none w cats :
  categorical (self w) (data w) = inr cats ->
  (fit_block (self w) (data w) cats w).1 = inr tt ->
  categorical (self (fit_block (self w) (data w) cats w).2)
              (data (fit_block (self w) (data w) cats w).2) = inr [].
Proof.
  intros Hcat Hok.
  destruct (dle_fit_block_run w cats) as (Honly & Hnil & Hblock).
  destruct cats as [|c cats].
  - rewrite (Hnil eq_refl). exact Hcat.
  - destruct (Hblock ltac:(done) Hok)
      as (block & imp & imputed & block1 & codes & w1
          & _ & _ & _ & _ & H5 & H6 & H7).
    destruct (dle_categorical_inv _ _ _ Hcat) as [continuous Hsplit].
    unfold categorical.
    rewrite (proj1 (only_encoding_frame _ _ Honly)), H7.
    by rewrite (proj2 (proj2 (proj2
      (dle_encoded_frame _ _ _ _ imputed codes Hsplit H5 H6)))).
Qed.

Lemma set_many_keeps d cs ss d' :
  set_many d cs ss = inr d' ->
  (empty d = false -> empty d' = false)
  /\ forall c, c ∈ column_names d -> c ∈ column_names d'.
Proof.
  intros Hset. apply set_many_inv in Hset as [_ ->]. split.
  - apply empty_set_each.
  - intros c. apply column_names_set_each.
Qed.

Lemma dle_fit_block_keeps w cats :
  (empty (data w) = false ->
   empty (data (fit_block (self w) (data w) cats w).2) = false)
  /\ forall c, c ∈ column_names (data w) ->
               c ∈ column_names (data (fit_block (self w) (data w) cats w).2).
Proof.
  unfold fit_block. destruct (decide (0 < length cats)); [|done].
  cbv [bind put_data put_self]. run.
  destruct (get_many (data w) cats) as [e|block]; run; [done|].
  destruct (SimpleImputer.fit_transform _ block) as [e|[imp imputed]]; run;
    [done|].
  cbn [fst snd].
  destruct (set_many (data w) cats imputed) as [e|d1] eqn:Hset1; run; [done|].
  apply set_many_keeps in Hset1 as [He1 Hc1].
  destruct (get_many d1 cats) as [e|block1]; run; [by split|].
  set (w0 := mkWorld _ d1 (calls w)).
  destruct (dle_fit_transform_each_frame cats block1 w0) as [Hd _].
  destruct (fit_transform_each cats block1 w0) as [[e|codes] w1];
    cbn [snd] in *; run; cbn [snd].
  { rewrite Hd. by split. }
  destruct (set_many d1 cats (int_block codes)) as [e|d2] eqn:Hset2; run;
    cbn [snd].
  { rewrite Hd. by split. }
  apply set_many_keeps in Hset2 as [He2 Hc2]. split; auto.
Qed.

(** The table after [_fit] of the regression strategy, as the code computes
    it: the rows of the seeding call go after the rows held, and the
    assignment of the period column runs over the whole table. *)
Lemma dle_fit_rows w cats :
  empty (data w) = false ->
  y_true (self w) ∈ column_names (data w) ->
  y_pred (self w) ∈ column_names (data w) ->
  categorical (self w) (data w) = inr cats ->
  (fit_block (self w) (data w) cats w).1 = inr tt ->
  ready (self (encoded_fit w)) ->
  split (chunker (self (encoded_fit w))) (data (encoded_fit w)) <> [] ->
  exists w1,
    _fit w = (inr tt, w1)
    /\ rows_so_far (self w1)
       = map (fun row =>
                row_set (_create_multilevel_index (names (self (encoded_fit w))))
                        row ("chunk", "period") (CStr "reference"))
             (rows_so_far (self w)
              ++ new_rows (self (encoded_fit w)) (data (encoded_fit w))).
Proof.
  intros Hne Htrue Hpred Hcat Hok Hready Hchunks.
  rewrite dle_fit_valid by done. unfold fit_run.
  unfold encoded_fit in *. rewrite Hcat in *.
  pose proof (dle_fit_block_leaves_none w cats Hcat Hok) as Hnone.
  destruct (dle_fit_block_keeps w cats) as [Hne' Hcols].
  destruct (dle_fit_block_run w cats) as (Honly & _ & _).
  destruct (fit_block (self w) (data w) cats w) as [[e|[]] w0];
    cbn [fst snd] in *; [done|].
  destruct (only_encoding_frame _ _ Honly) as (Hf & Hp & Hm & Hk & Hr).
  unfold fit_tail.
  rewrite dle_estimate_valid.
  2:{ cbn [fit_metrics data]. by apply Hne'. }
  2:{ cbn [fit_metrics data self with_metrics y_pred]. rewrite Hp.
      by apply Hcols. }
  unfold estimate_run.
  assert (categorical (self (fit_metrics w0)) (data (fit_metrics w0)) = inr [])
    as -> by exact Hnone.
  rewrite (proj1 (proj2 (dle_estimate_block_run (fit_metrics w0) [])) eq_refl).
  destruct (dle_estimate_tail_ready (fit_metrics w0) Hready Hchunks)
    as (r & -> & Hrows & Hwf).
  eexists. split; [reflexivity|]. cbn [self].
  destruct (dle_as_reference_rows _ _ Hwf) as (Hmap & _ & Hper).
  unfold rows_so_far at 1. cbn [result with_result].
  rewrite Hmap, Hrows.
  f_equal. f_equal. unfold rows_so_far. cbn [fit_metrics self result with_metrics].
  by rewrite Hr.
Qed.

(** X6. [_fit] of the regression strategy does not reset the result.  On an
    estimator that already holds rows, when the frame is encoded without
    error and cut into at least one chunk, the table afterwards has one row
    per row held before plus one per chunk of the seeding call, and every
    row held before is still at its place with every cell it had, the
    period cell apart. *)
Theorem dle_fit_keeps_rows w cats r0 :
  result (self w) = Some r0 ->
  empty (data w) = false ->
  y_true (self w) ∈ column_names (data w) ->
  y_pred (self w) ∈ column_names (data w) ->
  categorical (self w) (data w) = inr cats ->
  (fit_block (self w) (data w) cats w).1 = inr tt ->
  ready (self (encoded_fit w)) ->
  split (chunker (self (encoded_fit w))) (data (encoded_fit w)) <> [] ->
  exists w1,
    _fit w = (inr tt, w1)
    /\ length (rows_so_far (self w1))
       = length (rows (results_data r0))
         + length (split (chunker (self (encoded_fit w)))
                         (data (encoded_fit w)))
    /\ forall i row,
         rows (results_data r0) !! i = Some row ->
         exists row',
           rows_so_far (self w1) !! i = Some row'
           /\ forall label,
                label <> ("chunk", "period") ->
                row_get (_create_multilevel_index
                           (names (self (encoded_fit w)))) row' label
                = row_get (_create_multilevel_index
                             (names (self (encoded_fit w)))) row label.
Proof.
  intros Hheld Hne Htrue Hpred Hcat Hok Hready Hchunks.
  destruct (dle_fit_rows w cats Hne Htrue Hpred Hcat Hok Hready Hchunks)
    as (w1 & Hrun & Hrows).
  assert (rows_so_far (self w) = rows (results_data r0)) as Hsofar.
  { unfold rows_so_far. by rewrite Hheld. }
  rewrite Hsofar in Hrows.
  exists w1. split; [exact Hrun|]. rewrite Hrows. split.
  - rewrite length_map, length_app. unfold new_rows. by rewrite length_map.
  - intros i row Hi. eexists. split.
    + rewrite list_lookup_fmap, lookup_app_l by (by eapply lookup_lt_Some).
      rewrite Hi. reflexivity.
    + intros label Hlabel. apply row_get_row_set_ne. congruence.
Qed.

(** X7. A call that passes validation and cuts its frame into no chunk
    fails with a ValueError, in both strategies: there is no record, so the
    frame of records has no column to put the layout on.  The result the
    estimator holds is not touched.  In the regression strategy the frame
    cut into chunks is the encoded one, and the call leaves the world as
    the encoding left it. *)
Theorem no_chunk_value_error :
  (forall (w : World (estimator M K I L)) cats,
      empty (data w) = false ->
      y_pred (self w) ∈ column_names (data w) ->
      categorical (self w) (data w) = inr cats ->
      (estimate_block (self w) (data w) cats w).1 = inr tt ->
      split (chunker (self (encoded_estimate w))) (data (encoded_estimate w))
      = [] ->
      _estimate w = (inl ValueError, encoded_estimate w)
      /\ result (self (_estimate w).2) = result (self w)
      /\ (cats = [] -> (_estimate w).2 = w))
  /\ (forall (M' K' C' : Type) (HM : CBPE.Metric M') (HK : Chunker K')
             (HC : Calibration.Calibrator C') (HN : Calibration.Check C')
             (w : World (CBPE.estimator M' K' C')),
        empty (data w) = false ->
        CBPE.y_pred_proba (self w) ∈ column_names (data w) ->
        CBPE.y_pred (self w) ∈ column_names (data w) ->
        CBPERows.chunks (self w) (data w) = [] ->
        (CBPE._estimate w).1 = inl ValueError
        /\ self (CBPE._estimate w).2 = self w).
Proof.
  split.
  - intros w cats Hne Hpred Hcat Hok Hnone.
    rewrite dle_estimate_valid by done.
    unfold estimate_run. unfold encoded_estimate in *. rewrite Hcat in *.
    destruct (dle_estimate_block_run w cats) as (Honly & Hnil & _).
    destruct (estimate_block (self w) (data w) cats w) as [[e|[]] w0] eqn:Hblock;
      cbn [fst snd] in *; [done|].
    unfold estimate_tail. rewrite dle_table_of_no_chunk by done.
    cbn [fst snd]. split; [done|]. split.
    + apply (only_encoding_frame _ _ Honly).
    + intros ->. by injection (Hnil eq_refl) as <-.
  - intros M' K' C' HM HK HC HN w Hne Hproba Hpred Hnone.
    rewrite cbpe_estimate_valid by done. unfold CBPERun.estimate_run.
    unfold CBPERows.chunks in Hnone. unfold CBPERun.table_of.
    rewrite Hnone. cbn [traverse]. unfold set_labels.
    cbn [from_records union_keys fold_left labels].
    rewrite decide_False; [done|].
    unfold CBPE.create_index. rewrite index_length. cbn [length]. lia.
Qed.

End DLERefit.

Lemma dle_fit_keeps_rows_witness :
  length (DLERun.rows_so_far (self DLESession.after_estimate)) = 4
  /\ exists w1,
       DLE._fit DLESession.refit = (inr tt, w1)
       /\ length (DLERun.rows_so_far (self w1)) = 4 + 2
       /\ exists row',
            DLERun.rows_so_far (self w1) !! 2 = Some row'
            /\ row_get (_create_multilevel_index ["mae"]) row' ("mae", "value")
               = Some (CFloat 1).
Proof.
  split; [by vm_compute|].
  assert (is_Some (DLE.result (self DLESession.refit))) as [r0 Hr0]
    by (vm_compute; eauto).
  destruct (dle_fit_keeps_rows DLESession.refit ["fuel"] r0)
    as (w1 & Hfit & Hlen & Hkept).
  - exact Hr0.
  - reflexivity.
  - in_columns.
  - in_columns.
  - by vm_compute.
  - by vm_compute.
  - split; [vm_compute; apply NoDup_singleton|].
    vm_compute. split; [reflexivity|]. repeat constructor.
  - by vm_compute.
  - assert (DLE.results_data r0
            = DLE.results_data
                (default r0 (DLE.result (self DLESession.refit)))) as Hdata
      by (by rewrite Hr0).
    exists w1. split; [exact Hfit|]. split.
    + rewrite Hlen, Hdata. by vm_compute.
    + assert (is_Some (rows (DLE.results_data r0) !! 2)) as [row Hrow]
        by (rewrite Hdata; vm_compute; eauto).
      destruct (Hkept 2 row Hrow) as (row' & Hrow' & Hcells).
      exists row'. split; [exact Hrow'|].
      assert (DLERun.names (self (DLERun.encoded_fit DLESession.refit))
              = ["mae"]) as Hnames by (by vm_compute).
      rewrite Hnames in Hcells. rewrite Hcells by (intros [=]).
      assert (row = default [] (rows (DLE.results_data r0) !! 2)) as ->
        by (by rewrite Hrow).
      rewrite Hdata. by vm_compute.
Defined.

Lemma no_chunk_value_error_witness :
  (DLE._estimate (mkWorld (self DLESession.silent_fitted) cars [])).1
  = inl ValueError
  /\ (CBPE._estimate (mkWorld silent_cbpe analysis [])).1 = inl ValueError.
Proof.
  split.
  - destruct (proj1 no_chunk_value_error
                (mkWorld (self DLESession.silent_fitted) cars []) ["fuel"])
      as (Hrun & _).
    + reflexivity.
    + in_columns.
    + by vm_compute.
    + by vm_compute.
    + reflexivity.
    + by rewrite Hrun.
  - apply (proj2 no_chunk_value_error _ _ _ _ _ _ _
             (mkWorld silent_cbpe analysis [])).
    + reflexivity.
    + in_columns.
    + in_columns.
    + reflexivity.
Defined.

(** ** The cells of the result table *)

Lemma row_get_app_l {L} `{EqDecision L} (ls1 ls2 : list L) r1 r2 l :
  length ls1 = length r1 -> l ∈ ls1 ->
  row_get (ls1 ++ ls2) (r1 ++ r2) l = row_get ls1 r1 l.
Proof.
  revert r1. induction ls1 as [|l1 ls1 IH]; intros r1 Hlen Hl.
  - by apply elem_of_nil in Hl.
  - destruct r1 as [|x r1]; [done|]. cbn [app row_get].
    destruct (decide (l1 = l)); [done|].
    apply IH; [cbn in Hlen; lia|].
    apply elem_of_cons in Hl as [?|?]; [congruence|done].
Qed.

Lemma row_get_app_r {L} `{EqDecision L} (ls1 ls2 : list L) r1 r2 l :
  length ls1 = length r1 -> l ∉ ls1 ->
  row_get (ls1 ++ ls2) (r1 ++ r2) l = row_get ls2 r2 l.
Proof.
  revert r1. induction ls1 as [|l1 ls1 IH]; intros r1 Hlen Hl.
  - by destruct r1.
  - destruct r1 as [|x r1]; [done|]. cbn [app row_get].
    apply not_elem_of_cons in Hl as [Hne Hl].
    rewrite decide_False by done. apply IH; [cbn in Hlen; lia|done].
Qed.

Lemma row_get_metric_group name v1 v2 v3 v4 v5 v6 v7 v8 :
  map (row_get (metric_group name) [v1; v2; v3; v4; v5; v6; v7; v8])
      (metric_group name)
  = map Some [v1; v2; v3; v4; v5; v6; v7; v8].
Proof.
  unfold metric_group. cbn [map row_get].
  repeat (first [rewrite decide_True by done
                |rewrite decide_False by (intros [=])]).
  reflexivity.
Qed.

Lemma values_app {V} (d e : dict V) : values (d ++ e) = values d ++ values e.
Proof. unfold values. apply fmap_app. Qed.

(** The cells under the labels of one metric, in a row laid out metric
    after metric. *)
Lemma row_get_flat_groups {A} (name_of : A -> string)
    (cells : A -> list cell) (xs : list A) (x : A) :
  (forall y, length (cells y) = 8) ->
  NoDup (map name_of xs) -> x ∈ xs ->
  map (row_get (flat_map metric_group (map name_of xs)) (flat_map cells xs))
      (metric_group (name_of x))
  = map (row_get (metric_group (name_of x)) (cells x))
        (metric_group (name_of x)).
Proof.
  intros Hlen Hnd Hx. induction xs as [|x0 xs IH]; [by apply elem_of_nil in Hx|].
  cbn [map]. change (flat_map ?f (?a :: ?l)) with (f a ++ flat_map f l).
  apply NoDup_cons in Hnd as [Hx0 Hnd].
  apply elem_of_cons in Hx as [<-|Hx].
  - apply map_ext_in. intros l Hl. apply list_elem_of_In in Hl.
    apply row_get_app_l; [by rewrite Hlen|done].
  - rewrite <- IH by done.
    apply map_ext_in. intros l Hl. apply list_elem_of_In in Hl.
    apply row_get_app_r; [by rewrite Hlen|].
    intros Hl'. apply elem_of_metric_group in Hl, Hl'.
    apply Hx0. rewrite <- Hl', Hl. by apply list_elem_of_fmap_2.
Qed.

Lemma row_get_chunk_key chunk ls2 r2 :
  row_get (chunk_group ++ ls2) (values (chunk_record chunk) ++ r2)
          ("chunk", "key")
  = Some (CStr (key chunk)).
Proof. reflexivity. Qed.

Lemma flat_map_values {A} (f : A -> dict cell) (xs : list A) :
  values (flat_map f xs) = flat_map (fun x => values (f x)) xs.
Proof.
  induction xs as [|x xs IH]; [done|].
  change (flat_map ?g (x :: xs)) with (g x ++ flat_map g xs).
  by rewrite values_app, IH.
Qed.

Section CBPECells.

Import CBPE CBPESpec CBPERun CBPERows.

Context {M K C : Type}.
Context `{!Metric M, !Chunker K, !Calibration.Calibrator C, !Calibration.Check C}.

Implicit Types (s : estimator M K C) (w : World (estimator M K C)).

Lemma cbpe_row_of_cells s chunk m :
  NoDup (names s) -> m ∈ metrics s ->
  row_get (create_index (names s)) (row_of s chunk) ("chunk", "key")
  = Some (CStr (key chunk))
  /\ map (row_get (create_index (names s)) (row_of s chunk))
         (metric_group (column_name m))
     = map Some (values (entries s chunk m (alert_value chunk m))).
Proof.
  intros Hnd Hm. unfold create_index. rewrite index_unfold.
  unfold row_of. rewrite values_app, flat_map_values.
  split; [apply row_get_chunk_key|].
  etrans.
  { apply map_ext_in. intros l Hl. apply list_elem_of_In in Hl.
    apply row_get_app_r; [done|].
    intros Hl'. by apply (metric_group_not_chunk (column_name m) l). }
  unfold names.
  rewrite (row_get_flat_groups column_name
             (fun m => values (entries s chunk m (alert_value chunk m))));
    [|done..].
  apply row_get_metric_group.
Qed.

(** X8. What a successful [_estimate] of the classification strategy puts
    in the table: the row of the [i]-th chunk comes [i] places after the
    rows already held and carries the key of the chunk and, under the eight
    labels of each metric, in order, its sampling error, realized
    performance, estimate, upper and lower confidence boundary, upper and
    lower threshold and alert. *)
Theorem cbpe_result_cells w :
  ready (self w) -> accepted (self w) (data w) ->
  exists r w',
    _estimate w = (inr r, w')
    /\ forall i chunk m,
         chunks (self w) (data w) !! i = Some chunk ->
         m ∈ metrics (self w) ->
         exists row,
           rows (results_data r) !! (length (rows_so_far (self w)) + i)
           = Some row
           /\ row_get (labels (results_data r)) row ("chunk", "key")
              = Some (CStr (key chunk))
           /\ map (row_get (labels (results_data r)) row)
                  [ (column_name m, "sampling_error");
                    (column_name m, "realized");
                    (column_name m, "value");
                    (column_name m, "upper_confidence_boundary");
                    (column_name m, "lower_confidence_boundary");
                    (column_name m, "upper_threshold");
                    (column_name m, "lower_threshold");
                    (column_name m, "alert") ]
              = [ Some (CFloat (sampling_error m (chunk_data chunk)));
                  Some (of_float (realized_performance m (chunk_data chunk)));
                  Some (CFloat (estimate m (chunk_data chunk)));
                  Some (CFloat
                    (Py.min (confidence_upper_bound (self w))
                       (estimate m (chunk_data chunk)
                        + 3 * sampling_error m (chunk_data chunk))%Q));
                  Some (CFloat
                    (Py.max (confidence_lower_bound (self w))
                       (estimate m (chunk_data chunk)
                        - 3 * sampling_error m (chunk_data chunk))%Q));
                  Some (of_float (upper_threshold m));
                  Some (of_float (lower_threshold m));
                  Some (CBool (alert_value chunk m)) ].
Proof.
  intros Hready Hacc.
  destruct (cbpe_estimate_ready w Hready Hacc) as (r & Hrun & Hrows & Hwf).
  exists r. eexists. split; [exact Hrun|].
  intros i chunk m Hi Hm. exists (row_of (self w) chunk).
  destruct Hready as (Hnd & _). destruct Hwf as [Hlab _].
  rewrite Hrows, Hlab. split.
  - rewrite lookup_app_r by lia.
    replace (length (rows_so_far (self w)) + i - length (rows_so_far (self w)))
      with i by lia.
    unfold new_rows. by rewrite list_lookup_fmap, Hi.
  - by apply cbpe_row_of_cells.
Qed.

End CBPECells.

Lemma cbpe_result_cells_witness :
  exists r w',
    CBPE._estimate (mkWorld cbpe analysis []) = (inr r, w')
    /\ length (rows (CBPE.results_data r)) = 3.
Proof.
  destruct (cbpe_result_cells (mkWorld cbpe analysis []))
    as (r & w' & Hrun & _).
  - split; [apply NoDup_singleton|]. split; [thresholds|exact I].
  - split; [reflexivity|]. split; [in_columns|]. split; [in_columns|].
    by vm_compute.
  - exists r, w'. split; [exact Hrun|].
    assert (r = match (CBPE._estimate (mkWorld cbpe analysis [])).1 with
                | inr r' => r'
                | inl _ => r
                end) as -> by (by rewrite Hrun).
    by vm_compute.
Defined.

Section DLECells.

Import DLE DLESpec DLERun.

Context {M K I L : Type}.
Context `{!Metric M, !Chunker K, !SimpleImputer.t I, !LabelEncoder.t L}.

Implicit Types (s : estimator M K I L) (w : World (estimator M K I L)).

Lemma dle_row_of_cells s chunk m :
  NoDup (names s) -> m ∈ metrics s ->
  row_get (_create_multilevel_index (names s)) (row_of s chunk)
          ("chunk", "key")
  = Some (CStr (key chunk))
  /\ map (row_get (_create_multilevel_index (names s)) (row_of s chunk))
         (metric_group (column_name m))
     = map Some (values (entries chunk m)).
Proof.
  intros Hnd Hm. rewrite index_unfold.
  unfold row_of. rewrite values_app, flat_map_values.
  split; [apply row_get_chunk_key|].
  etrans.
  { apply map_ext_in. intros l Hl. apply list_elem_of_In in Hl.
    apply row_get_app_r; [done|].
    intros Hl'. by apply (metric_group_not_chunk (column_name m) l). }
  unfold names.
  rewrite (row_get_flat_groups column_name
             (fun m => values (entries chunk m))); [|done..].
  apply row_get_metric_group.
Qed.

(** [_estimate] on a frame that is encoded without error, on a ready
    estimator. *)
Lemma dle_estimate_ready w cats :
  empty (data w) = false ->
  y_pred (self w) ∈ column_names (data w) ->
  categorical (self w) (data w) = inr cats ->
  (estimate_block (self w) (data w) cats w).1 = inr tt ->
  ready (self (encoded_estimate w)) ->
  split (chunker (self (encoded_estimate w))) (data (encoded_estimate w)) <> [] ->
  exists r,
    _estimate w
    = (inr r, mkWorld (with_result (Some r) (self (encoded_estimate w)))
                      (data (encoded_estimate w)) (calls (encoded_estimate w)))
    /\ rows (results_data r)
       = rows_so_far (self w)
         ++ new_rows (self (encoded_estimate w)) (data (encoded_estimate w))
    /\ well_formed (self (encoded_estimate w)) r.
Proof.
  intros Hne Hpred Hcat Hok Hready Hchunks.
  rewrite dle_estimate_valid by done. unfold estimate_run.
  unfold encoded_estimate in *. rewrite Hcat in *.
  destruct (dle_estimate_block_run w cats) as (Honly & _ & _).
  destruct (estimate_block (self w) (data w) cats w) as [[e|[]] w0];
    cbn [fst snd] in *; [done|].
  destruct (dle_estimate_tail_ready w0 Hready Hchunks) as (r & -> & Hrows & Hwf).
  exists r. split; [done|]. split; [|done].
  rewrite Hrows. f_equal. unfold rows_so_far.
  by rewrite (proj2 (proj2 (proj2 (proj2 (only_encoding_frame _ _ Honly))))).
Qed.

(** X9. What a successful [_estimate] of the regression strategy puts in
    the table: the rows of the call go after the rows already held, one per
    chunk of the encoded frame and in chunk order, each filed under
    'analysis' and carrying the key of its chunk and, under the eight labels
    of each metric, in order, its sampling error, realized performance,
    estimate, upper and lower confidence boundary, upper and lower threshold
    and alert. *)
Theorem dle_result_cells w cats :
  empty (data w) = false ->
  y_pred (self w) ∈ column_names (data w) ->
  categorical (self w) (data w) = inr cats ->
  (estimate_block (self w) (data w) cats w).1 = inr tt ->
  ready (self (encoded_estimate w)) ->
  split (chunker (self (encoded_estimate w))) (data (encoded_estimate w)) <> [] ->
  exists r w',
    _estimate w = (inr r, w')
    /\ length (rows (results_data r))
       = length (rows_so_far (self w))
         + length (split (chunker (self (encoded_estimate w)))
                         (data (encoded_estimate w)))
    /\ take (length (rows_so_far (self w))) (rows (results_data r))
       = rows_so_far (self w)
    /\ forall i chunk m,
         split (chunker (self (encoded_estimate w))) (data (encoded_estimate w))
           !! i = Some chunk ->
         m ∈ metrics (self w) ->
         exists row,
           rows (results_data r) !! (length (rows_so_far (self w)) + i)
           = Some row
           /\ row_get (labels (results_data r)) row ("chunk", "key")
              = Some (CStr (key chunk))
           /\ row_get (labels (results_data r)) row ("chunk", "period")
              = Some (CStr "analysis")
           /\ map (row_get (labels (results_data r)) row)
                  [ (column_name m, "sampling_error");
                    (column_name m, "realized");
                    (column_name m, "value");
                    (column_name m, "upper_confidence_boundary");
                    (column_name m, "lower_confidence_boundary");
                    (column_name m, "upper_threshold");
                    (column_name m, "lower_threshold");
                    (column_name m, "alert") ]
              = [ Some (CFloat (sampling_error m (chunk_data chunk)));
                  Some (of_float (realized_performance m (chunk_data chunk)));
                  Some (CFloat (estimate m (chunk_data chunk)));
                  Some (CFloat (upper_confidence_boundary m chunk));
                  Some (CFloat (lower_confidence_boundary m chunk));
                  Some (of_float (upper_threshold m));
                  Some (of_float (lower_threshold m));
                  Some (CBool
                    (gt_if_truthy (estimate m (chunk_data chunk))
                                  (upper_threshold m)
                     || lt_if_truthy (estimate m (chunk_data chunk))
                                     (lower_threshold m))) ].
Proof.
  intros Hne Hpred Hcat Hok Hready Hchunks.
  destruct (dle_estimate_ready w cats Hne Hpred Hcat Hok Hready Hchunks)
    as (r & Hrun & Hrows & Hwf).
  exists r. eexists. split; [exact Hrun|].
  rewrite Hrows. split; [|split].
  - rewrite length_app. unfold new_rows. by rewrite length_map.
  - by rewrite take_app_length.
  - intros i chunk m Hi Hm.
    exists (row_of (self (encoded_estimate w)) chunk).
    destruct Hready as (Hnd & _). destruct Hwf as [Hlab _].
    assert (metrics (self (encoded_estimate w)) = metrics (self w)) as Hms.
    { unfold encoded_estimate. rewrite Hcat.
      destruct (dle_estimate_block_run w cats) as (Honly & _ & _).
      apply (only_encoding_frame _ _ Honly). }
    rewrite <- Hms in Hm.
    destruct (dle_row_of_cells _ chunk m Hnd Hm) as [Hkey Hcells].
    rewrite Hlab. split; [|split; [|split]].
    + rewrite lookup_app_r by lia.
      replace (length (rows_so_far (self w)) + i
               - length (rows_so_far (self w))) with i by lia.
      unfold new_rows. by rewrite list_lookup_fmap, Hi.
    + exact Hkey.
    + exact (dle_row_of_period (self (encoded_estimate w)) chunk).
    + exact Hcells.
Qed.

End DLECells.

Lemma dle_result_cells_witness :
  exists r w',
    DLE._estimate (mkWorld (dle [] [mae None None None 1]) numeric [])
    = (inr r, w')
    /\ length (rows (DLE.results_data r)) = 0 + 2.
Proof.
  destruct (dle_result_cells
              (mkWorld (dle [] [mae None None None 1]) numeric []) [])
    as (r & w' & Hrun & Hlen & _).
  - reflexivity.
  - in_columns.
  - reflexivity.
  - reflexivity.
  - split; [vm_compute; apply NoDup_singleton|exact I].
  - by vm_compute.
  - exists r, w'. split; [exact Hrun|]. rewrite Hlen. by vm_compute.
Defined.

(** ** What a call changes of the estimator *)

Section CBPEState.

Import CBPE CBPESpec CBPERun CBPERows.

Context {M K C : Type}.
Context `{!Metric M, !Chunker K, !Calibration.Calibrator C, !Calibration.Check C}.

Implicit Types (s : estimator M K C) (w : World (estimator M K C)).

Lemma cbpe_table_of_error s d e :
  table_of s d = inl e -> e = TypeError \/ e = ValueError.
Proof.
  unfold table_of.
  destruct (traverse (record_of s) (split (chunker s) d)) as [e'|records] eqn:Ht.
  - intros [= <-]. left.
    assert (forall cs e0, traverse (record_of s) cs = inl e0 ->
                          e0 = TypeError) as Hall.
    { induction cs as [|chunk cs IH]; intros e0; cbn [traverse]; [done|].
      destruct (record_of s chunk) as [e1|x] eqn:Hrec.
      - intros [= <-]. unfold record_of in Hrec.
        destruct (_estimate_chunk s chunk) as [e2|y] eqn:Hc; [|done].
        injection Hrec as <-.
        unfold _estimate_chunk in Hc.
        by apply cbpe_estimate_metrics_fails in Hc as [-> _].
      - destruct (traverse (record_of s) cs) as [e1|ys]; [|done].
        intros [= <-]. by apply IH. }
    by apply (Hall _ _ Ht).
  - unfold set_labels. destruct (decide _); [done|]. intros [= <-]. by right.
Qed.

(** X10. An [_estimate] of the classification strategy that fails after
    validation fails with a TypeError (a threshold that is None) or a
    ValueError (the records do not fit the layout) and leaves the estimator
    as it was, result included; the caller's frame has by then been given
    its uncalibrated column and, when needed, calibrated scores. *)
Theorem cbpe_estimate_failure w e :
  empty (data w) = false ->
  y_pred_proba (self w) ∈ column_names (data w) ->
  y_pred (self w) ∈ column_names (data w) ->
  (_estimate w).1 = inl e ->
  (e = TypeError \/ e = ValueError)
  /\ self (_estimate w).2 = self w
  /\ data (_estimate w).2 = prepared (self w) (data w).
Proof.
  intros Hne Hproba Hpred. rewrite cbpe_estimate_valid by done.
  unfold estimate_run.
  destruct (table_of _ _) as [e'|res] eqn:Ht; cbn [fst snd self data]; [|done].
  intros [= <-]. split; [by apply (cbpe_table_of_error _ _ _ Ht)|done].
Qed.

(** X11. The state [_fit] of the classification strategy leaves, whether or
    not the seeding call then succeeds: every metric fitted once, in order,
    on the caller's frame with the uncalibrated column added and the scores
    not yet calibrated; the flag as [needs_calibration] answered; the
    calibrator fitted on (scores, labels) exactly when the flag is true. *)
Theorem cbpe_fit_state w :
  empty (data w) = false ->
  y_true (self w) ∈ column_names (data w) ->
  y_pred_proba (self w) ∈ column_names (data w) ->
  y_pred (self w) ∈ column_names (data w) ->
  let s := self w in
  let scores := column (data w) (y_pred_proba s) in
  let d := set (data w) ("uncalibrated_" +:+ y_pred_proba s) scores in
  let labels := column d (y_true s) in
  let flag := Calibration.needs_calibration labels scores (calibrator s) in
  metrics (self (_fit w).2) = map (fun metric => fit metric d) (metrics s)
  /\ column d (y_pred_proba s) = scores
  /\ needs_calibration (self (_fit w).2) = flag
  /\ calibrator (self (_fit w).2)
     = (if flag then Calibration.fit (calibrator s) scores labels
        else calibrator s)
  /\ ((_fit w).1 <> inr tt -> result (self (_fit w).2) = result s).
Proof.
  intros Hne Htrue Hproba Hpred. cbv zeta.
  rewrite cbpe_fit_valid by done. unfold fit_run, estimate_run.
  pose proof (cbpe_column_with_uncalibrated (self w) (data w)) as Hcol.
  unfold with_uncalibrated, uncalibrated in Hcol.
  destruct (table_of _ _) as [e|res]; unfold fitted;
    cbn [fst snd self data calls];
    unfold with_uncalibrated, uncalibrated; rewrite !Hcol;
    destruct (Calibration.needs_calibration _ _ _);
    cbn [metrics needs_calibration calibrator result with_result
         with_calibrator with_needs_calibration with_metrics];
    done.
Qed.

(** X12. Calling [_estimate] twice on the same frame object calibrates the
    scores twice: after the second call the score column holds the
    calibrated calibrated scores and the 'uncalibrated' column holds the
    scores calibrated once, no longer the scores the caller passed.  When
    no calibration is needed the second call leaves the frame as the first
    left it. *)
Theorem cbpe_estimate_twice w :
  empty (data w) = false ->
  y_pred_proba (self w) ∈ column_names (data w) ->
  y_pred (self w) ∈ column_names (data w) ->
  let s := self w in
  let scores := column (data w) (y_pred_proba s) in
  let once := (_estimate w).2 in
  let twice := (_estimate once).2 in
  if needs_calibration s
  then column (data once) (y_pred_proba s)
       = Calibration.calibrate (calibrator s) scores
       /\ column (data once) ("uncalibrated_" +:+ y_pred_proba s) = scores
       /\ column (data twice) (y_pred_proba s)
          = Calibration.calibrate (calibrator s)
              (Calibration.calibrate (calibrator s) scores)
       /\ column (data twice) ("uncalibrated_" +:+ y_pred_proba s)
          = Calibration.calibrate (calibrator s) scores
  else data twice = data once.
Proof.
  intros Hne Hproba Hpred. cbv zeta.
  pose proof (cbpe_estimate_frame w Hne Hproba Hpred) as Hd1.
  destruct (cbpe_estimate_self w) as [r Hs1].
  assert (empty (data (_estimate w).2) = false
          /\ y_pred_proba (self w) ∈ column_names (data (_estimate w).2)
          /\ y_pred (self w) ∈ column_names (data (_estimate w).2))
    as (Hne1 & Hproba1 & Hpred1).
  { rewrite Hd1, cbpe_prepared_eq. destruct (needs_calibration (self w)).
    - split; [by apply empty_set, empty_set|].
      split; by apply column_names_set, column_names_set.
    - split; [by apply empty_set|]. split; by apply column_names_set. }
  assert (data (_estimate (_estimate w).2).2
          = prepared (self w) (data (_estimate w).2)) as Hd2.
  { rewrite cbpe_estimate_frame; rewrite ?Hs1; done. }
  rewrite Hd2, Hd1, !cbpe_prepared_eq.
  pose proof (append_length_neq "uncalibrated_" (y_pred_proba (self w))
                ltac:(done)) as Hneq.
  destruct (needs_calibration (self w)).
  - rewrite !column_set_eq.
    rewrite !(column_set_ne _ (y_pred_proba (self w))
                ("uncalibrated_" +:+ y_pred_proba (self w)))
      by (intros Heq; by apply Hneq).
    by rewrite !column_set_eq.
  - rewrite column_set_ne by (intros Heq; by apply Hneq).
    by rewrite set_set_same.
Qed.

End CBPEState.

Lemma cbpe_estimate_failure_witness :
  self (CBPE._estimate (mkWorld (cbpe_with [unfitted]) analysis [])).2
  = cbpe_with [unfitted].
Proof.
  apply (cbpe_estimate_failure
           (mkWorld (cbpe_with [unfitted]) analysis []) TypeError).
  - reflexivity.
  - in_columns.
  - in_columns.
  - by vm_compute.
Defined.

Lemma cbpe_fit_state_witness :
  CBPE.needs_calibration (self (CBPE._fit Session.start).2) = true.
Proof.
  destruct (cbpe_fit_state Session.start) as (_ & _ & Hflag & _).
  - reflexivity.
  - in_columns.
  - in_columns.
  - in_columns.
  - rewrite Hflag. by vm_compute.
Defined.

Lemma cbpe_estimate_twice_witness :
  let w := mkWorld (CBPE.with_needs_calibration true cbpe) analysis [] in
  column (data (CBPE._estimate (CBPE._estimate w).2).2) "y_pred_proba"
  = Calibration.calibrate Halving
      (Calibration.calibrate Halving (column analysis "y_pred_proba")).
Proof.
  intros w.
  pose proof (cbpe_estimate_twice w) as Hx. cbv zeta in Hx.
  destruct Hx as (_ & _ & Htwice & _).
  - reflexivity.
  - in_columns.
  - in_columns.
  - exact Htwice.
Defined.

(** ** What estimation leaves of the fitted preprocessing *)

Section DLEState.

Import DLE DLESpec DLERun.

Context {M K I L : Type}.
Context `{!Metric M, !Chunker K, !SimpleImputer.t I, !LabelEncoder.t L}.

Implicit Types (s : estimator M K I L) (w : World (estimator M K I L)).
Implicit Types (enc : gmap string L).

Lemma keeps_fitted_refl enc : keeps_fitted enc enc.
Proof. split; [done|]. intros name e He. by left. Qed.

Lemma keeps_fitted_trans enc1 enc2 enc3 :
  keeps_fitted enc1 enc2 -> keeps_fitted enc2 enc3 -> keeps_fitted enc1 enc3.
Proof.
  intros [Hk1 Hn1] [Hk2 Hn2]. split.
  - intros name e He. by apply Hk2, Hk1.
  - intros name e He. destruct (Hn2 name e He) as [H2|[H2 ->]].
    + by apply Hn1.
    + right. split; [|done].
      destruct (enc1 !! name) as [e1|] eqn:H1; [|done].
      apply Hk1 in H1. congruence.
Qed.

Lemma keeps_fitted_lookup enc name :
  keeps_fitted enc (<[name := encoder_of enc name]> enc).
Proof.
  unfold encoder_of. split.
  - intros name' e He. destruct (decide (name = name')) as [<-|Hne].
    + rewrite lookup_insert_eq, He. done.
    + by rewrite lookup_insert_ne.
  - intros name' e. destruct (decide (name = name')) as [<-|Hne].
    + rewrite lookup_insert_eq. intros [= <-].
      destruct (enc !! name) as [e0|]; [by left|by right].
    + rewrite lookup_insert_ne by done. by left.
Qed.

Lemma dle_transform_each_keeps names block w :
  exists enc,
    self (transform_each names block w).2 = with_encoders enc (self w)
    /\ keeps_fitted (_categorical_encoders (self w)) enc.
Proof.
  revert block w. induction names as [|name names IH]; intros block w.
  - exists (_categorical_encoders (self w)). cbn [transform_each]. cbv [ret]. cbn [snd].
    split; [by destruct (self w)|apply keeps_fitted_refl].
  - destruct block as [|x block].
    { exists (_categorical_encoders (self w)). cbn [transform_each]. cbv [ret]. cbn [snd].
      split; [by destruct (self w)|apply keeps_fitted_refl]. }
    cbn [transform_each]. cbv [bind get_self put_self]. run.
    set (enc0 := <[name := _]> _).
    assert (keeps_fitted (_categorical_encoders (self w)) enc0) as Henc0
      by apply keeps_fitted_lookup.
    destruct (LabelEncoder.transform _ x) as [e|codes]; run.
    { exists enc0. by split. }
    destruct (IH block (mkWorld (with_encoders enc0 (self w)) (data w) (calls w)))
      as (enc & Hs & Hk).
    cbn [self _categorical_encoders with_encoders] in Hs, Hk.
    exists enc. split.
    + destruct (transform_each names block _) as [[e|rest] w1];
        cbv [ret]; cbn [snd] in *; rewrite Hs; by destruct (self w).
    + by apply (keeps_fitted_trans _ enc0 _ Henc0).
Qed.

Lemma dle_estimate_block_keeps s d cats w :
  exists enc,
    self (estimate_block s d cats w).2 = with_encoders enc (self w)
    /\ keeps_fitted (_categorical_encoders (self w)) enc.
Proof.
  assert (exists enc, self w = with_encoders enc (self w)
                      /\ keeps_fitted (_categorical_encoders (self w)) enc)
    as Hsame.
  { exists (_categorical_encoders (self w)).
    split; [by destruct (self w)|apply keeps_fitted_refl]. }
  unfold estimate_block. destruct (decide _); [|done].
  cbv [bind put_data]. run.
  destruct (get_many d cats) as [e|block]; run; [done|].
  destruct (SimpleImputer.transform _ block) as [e|imputed]; run; [done|].
  destruct (set_many d cats imputed) as [e|d1]; run; [done|].
  destruct (get_many d1 cats) as [e|block1]; run; [done|].
  destruct (dle_transform_each_keeps cats block1 (mkWorld (self w) d1 (calls w)))
    as (enc & Hs & Hk).
  cbn [self] in Hs, Hk.
  destruct (transform_each cats block1 _) as [[e|codes] w1]; run;
    cbn [snd] in Hs; [cbn [snd]; exists enc; by split|].
  destruct (set_many d1 cats (int_block codes)) as [e|d2]; run;
    cbv [ret raise]; cbn [snd self]; exists enc; by split.
Qed.

(** X13. [_estimate] of the regression strategy never refits its
    preprocessing, whatever the frame and however the call ends: the
    imputer and the metrics are the ones it started with, every encoder
    fitted before is kept as it was, and an encoder it adds (for a
    categorical column not seen at fit) is a fresh, unfitted one. *)
Theorem dle_estimate_never_refits w :
  _categorical_imputer (self (_estimate w).2) = _categorical_imputer (self w)
  /\ metrics (self (_estimate w).2) = metrics (self w)
  /\ keeps_fitted (_categorical_encoders (self w))
                  (_categorical_encoders (self (_estimate w).2)).
Proof.
  destruct (empty (data w)) eqn:He.
  { rewrite dle_estimate_empty by done. cbn [snd].
    split; [done|]. split; [done|apply keeps_fitted_refl]. }
  destruct (list_missing_cases [y_pred (self w)] (column_names (data w)))
    as [[_ Hall]|[_ Hm]].
  2:{ rewrite (dle_estimate_missing _ _ He Hm). cbn [snd].
      split; [done|]. split; [done|apply keeps_fitted_refl]. }
  rewrite dle_estimate_valid; [|done|apply Hall; by left].
  unfold estimate_run.
  destruct (categorical (self w) (data w)) as [e|cats]; cbn [snd].
  { split; [done|]. split; [done|apply keeps_fitted_refl]. }
  destruct (dle_estimate_block_keeps (self w) (data w) cats w)
    as (enc & Hs & Hk).
  destruct (estimate_block (self w) (data w) cats w) as [[e|[]] w1];
    cbn [snd] in *.
  { rewrite Hs. by destruct (self w). }
  unfold estimate_tail. destruct (table_of (self w1) (data w1)) as [e|res];
    cbn [snd self]; rewrite Hs; by destruct (self w).
Qed.

End DLEState.

(** ** The column layout has no repeated label *)

(** X14. The labels [_create_multilevel_index] gives the columns are
    pairwise distinct exactly when the metric names are: a repeated metric
    name is the only way to a repeated label, and a metric named 'chunk'
    does not clash with the chunk columns. *)
Theorem create_multilevel_index_distinct (names : list string) :
  NoDup (_create_multilevel_index names) <-> NoDup names.
Proof.
  split; [|apply index_NoDup].
  rewrite index_unfold. intros (_ & _ & Hflat)%NoDup_app. revert Hflat.
  induction names as [|n ns IH]; [intros _; apply NoDup_nil_2|].
  change (flat_map metric_group (n :: ns))
    with (metric_group n ++ flat_map metric_group ns).
  intros (_ & Hdis & Hns)%NoDup_app. apply NoDup_cons. split; [|by apply IH].
  intros Hin. apply (Hdis (n, "alert")).
  - unfold metric_group. rewrite !elem_of_cons. tauto.
  - apply list_elem_of_In, in_flat_map. exists n.
    split; [by apply list_elem_of_In|].
    apply list_elem_of_In. unfold metric_group. rewrite !elem_of_cons. tauto.
Qed.

(** ** Repeated metric names *)

Section DictKeys.

Context {V : Type}.

Implicit Types (d e : dict V).

Lemma keys_setitem_inv k k' (v : V) d :
  k' ∈ keys (setitem k v d) -> k' = k \/ k' ∈ keys d.
Proof.
  induction d as [|[k0 v0] d IH]; simpl.
  - intros ->%list_elem_of_singleton. by left.
  - destruct (decide (k0 = k)) as [->|]; simpl; rewrite !elem_of_cons.
    + intros [->|Hk]; [by left|right; by right].
    + intros [->|Hk]; [right; by left|].
      destruct (IH Hk) as [->|Hd]; [by left|right; by right].
Qed.

Lemma keys_setitem_NoDup k (v : V) d :
  NoDup (keys d) -> NoDup (keys (setitem k v d)).
Proof.
  induction d as [|[k0 v0] d IH]; simpl; intros Hnd.
  - apply NoDup_singleton.
  - apply NoDup_cons in Hnd as [Hk0 Hnd].
    destruct (decide (k0 = k)) as [->|Hne]; simpl.
    + by apply NoDup_cons.
    + apply NoDup_cons. split; [|by apply IH].
      intros [Heq|Hin]%keys_setitem_inv; [by apply Hne|done].
Qed.

Lemma keys_update_inv k d e :
  k ∈ keys (update d e) -> k ∈ keys d \/ k ∈ keys e.
Proof.
  unfold update. revert d.
  induction e as [|[k0 v0] e IH]; intros d; simpl; [by left|].
  intros [Hd|He]%IH; [|right; by right].
  apply keys_setitem_inv in Hd as [->|Hd]; [right; by left|by left].
Qed.

Lemma keys_update_NoDup d e : NoDup (keys d) -> NoDup (keys (update d e)).
Proof.
  unfold update. revert d.
  induction e as [|[k0 v0] e IH]; intros d Hnd; simpl; [done|].
  by apply IH, keys_setitem_NoDup.
Qed.

End DictKeys.

Lemma union_keys_from (records : list (dict cell)) (acc : list string) :
  NoDup acc -> Forall (fun r => NoDup (keys r)) records ->
  let ks := fold_left (fun acc r => acc ++ filter (fun k => k ∉ acc) (keys r))
                      records acc in
  NoDup ks
  /\ forall k, k ∈ ks -> k ∈ acc \/ exists r, r ∈ records /\ k ∈ keys r.
Proof.
  cbv zeta. revert acc.
  induction records as [|r records IH]; intros acc Hacc Hall; cbn [fold_left].
  - split; [done|]. intros k Hk. by left.
  - apply Forall_cons in Hall as [Hr Hall].
    destruct (IH (acc ++ filter (fun k => k ∉ acc) (keys r))) as [Hnd Hin];
      [|done|].
    + apply NoDup_app. split; [done|]. split; [|by apply NoDup_filter].
      intros k Hk [Hnot _]%list_elem_of_filter. by apply Hnot.
    + split; [done|]. intros k Hk.
      destruct (Hin k Hk) as [Hk'|(r' & Hr' & Hk')].
      * apply elem_of_app in Hk' as [Hk'|[_ Hk']%list_elem_of_filter];
          [by left|].
        right. exists r. split; [by left|done].
      * right. exists r'. split; [by right|done].
Qed.

Lemma remove_dups_shorter (names : list string) :
  ~ NoDup names -> length (remove_dups names) < length names.
Proof.
  assert (length (remove_dups names) <= length names) as Hle.
  { induction names as [|n ns IH]; cbn [remove_dups length]; [lia|].
    destruct (decide_rel _ _ _); cbn [length]; lia. }
  intros Hdup.
  destruct (decide (length (remove_dups names) = length names)) as [Heq|];
    [|lia].
  exfalso. apply Hdup. clear Hle Hdup.
  induction names as [|n ns IH]; [apply NoDup_nil_2|].
  cbn [remove_dups length] in Heq.
  assert (length (remove_dups ns) <= length ns) as Hle.
  { clear. induction ns as [|n ns IH]; cbn [remove_dups length]; [lia|].
    destruct (decide_rel _ _ _); cbn [length]; lia. }
  destruct (decide_rel _ _ _) as [Hin|Hnin]; cbn [length] in Heq; [lia|].
  apply NoDup_cons. split; [done|]. apply IH. lia.
Qed.

(** A record with no repeated key, all of them keys of the layout for
    [names], has fewer keys than the layout has labels once a name
    repeats. *)
Lemma repeated_name_fewer_keys (ks names : list string) :
  NoDup ks ->
  (forall k, k ∈ ks -> k ∈ chunk_column_names ++ flat_map metric_keys names) ->
  ~ NoDup names ->
  length ks < length (_create_multilevel_index names).
Proof.
  intros Hnd Hin Hdup. rewrite index_length.
  assert (length ks
          <= length (chunk_column_names
                     ++ flat_map metric_keys (remove_dups names))) as Hle.
  { apply submseteq_length, NoDup_submseteq; [done|].
    intros k Hk. apply Hin in Hk. rewrite elem_of_app in *.
    destruct Hk as [Hk|Hk]; [by left|right].
    apply elem_of_flat_metric_keys in Hk as (n & Hn & Hk).
    apply list_elem_of_In, in_flat_map. exists n.
    split; apply list_elem_of_In; [by apply elem_of_remove_dups|done]. }
  rewrite length_app, flat_metric_keys_length in Hle.
  pose proof (remove_dups_shorter names Hdup).
  change (length chunk_column_names) with 7 in Hle. lia.
Qed.

Lemma repeated_name_value_error (records : list (dict cell))
    (names : list string) :
  Forall (fun r => NoDup (keys r)
                   /\ forall k, k ∈ keys r ->
                        k ∈ chunk_column_names ++ flat_map metric_keys names)
         records ->
  ~ NoDup names ->
  set_labels (from_records records) (_create_multilevel_index names)
  = inl ValueError.
Proof.
  intros Hall Hdup. unfold set_labels, from_records. cbn [labels].
  rewrite decide_False; [done|].
  destruct (union_keys_from records []) as [Hnd Hin]; [apply NoDup_nil_2| |].
  { eapply Forall_impl; [exact Hall|]. by intros r [? _]. }
  pose proof (repeated_name_fewer_keys (union_keys records) names Hnd) as Hlt.
  unfold union_keys in *. cut (length (fold_left
    (fun acc r => acc ++ filter (fun k => k ∉ acc) (keys r)) records [])
    < length (_create_multilevel_index names)); [lia|].
  apply Hlt; [|done]. intros k Hk.
  destruct (Hin k Hk) as [Hk'|(r & Hr & Hk')]; [by apply elem_of_nil in Hk'|].
  rewrite Forall_forall in Hall. by apply (Hall r Hr).
Qed.

Section CBPERepeated.

Import CBPE CBPESpec CBPERun.

Context {M K C : Type}.
Context `{!Metric M, !Chunker K, !Calibration.Calibrator C, !Calibration.Check C}.

Implicit Types (s : estimator M K C) (w : World (estimator M K C)).

Lemma cbpe_estimate_metrics_keys s chunk ms d estimates :
  estimate_metrics s chunk ms d = inr estimates ->
  (NoDup (keys d) -> NoDup (keys estimates))
  /\ forall k, k ∈ keys estimates ->
       k ∈ keys d \/ k ∈ flat_map metric_keys (map column_name ms).
Proof.
  revert d. induction ms as [|m ms IH]; intros d; cbn [estimate_metrics].
  - intros [= <-]. split; [done|]. intros k Hk. by left.
  - rewrite cbpe_estimate_metric_eq. destruct (alert chunk m) as [e|a]; [done|].
    intros [Hnd Hin]%IH. split.
    + intros Hd. by apply Hnd, keys_update_NoDup.
    + intros k Hk. change (flat_map metric_keys (map column_name (m :: ms)))
        with (metric_keys (column_name m)
              ++ flat_map metric_keys (map column_name ms)).
      rewrite elem_of_app.
      destruct (Hin k Hk) as [Hk'|Hk']; [|right; by right].
      apply keys_update_inv in Hk' as [Hk'|Hk']; [by left|right; by left].
Qed.

Lemma cbpe_records_keys s cs records :
  traverse (record_of s) cs = inr records ->
  Forall (fun r => NoDup (keys r)
                   /\ forall k, k ∈ keys r ->
                        k ∈ chunk_column_names
                            ++ flat_map metric_keys (map column_name (metrics s)))
         records.
Proof.
  revert records. induction cs as [|chunk cs IH]; intros records;
    cbn [traverse].
  - intros [= <-]. apply Forall_nil_2.
  - destruct (record_of s chunk) as [e|record] eqn:Hrec; [done|].
    destruct (traverse (record_of s) cs) as [e|rest]; [done|].
    intros [= <-]. apply Forall_cons. split; [|by apply IH].
    unfold record_of, _estimate_chunk in Hrec.
    destruct (estimate_metrics _ _ _ _) as [e|estimates] eqn:Hest; [done|].
    injection Hrec as <-.
    apply cbpe_estimate_metrics_keys in Hest as [Hnd Hin]. split.
    + apply keys_update_NoDup. rewrite keys_chunk_record.
      apply chunk_column_names_NoDup.
    + intros k [Hk|Hk]%keys_update_inv; rewrite elem_of_app.
      * left. by rewrite keys_chunk_record in Hk.
      * right. destruct (Hin k Hk) as [Hk'|Hk']; [|done].
        by apply elem_of_nil in Hk'.
Qed.

(** X15. A classification estimator two of whose metrics share a column
    name never returns a result: whatever the frame, [_estimate] raises.
    The second metric overwrites the entries of the first, so every record
    is at least eight keys short of the layout, and assigning the column
    labels fails. *)
Theorem cbpe_repeated_metric_never_estimates w :
  ~ NoDup (map column_name (metrics (self w))) ->
  exists e, (_estimate w).1 = inl e
            /\ result (self (_estimate w).2) = result (self w).
Proof.
  intros Hdup. destruct (empty (data w)) eqn:He.
  { rewrite cbpe_estimate_empty by done. by eexists. }
  destruct (list_missing_cases [y_pred_proba (self w); y_pred (self w)]
              (column_names (data w))) as [[_ Hall]|[_ Hm]].
  2:{ rewrite (cbpe_estimate_missing _ _ He Hm). by eexists. }
  rewrite cbpe_estimate_valid; [|done|apply Hall|apply Hall].
  2:{ by left. }
  2:{ right. by left. }
  unfold estimate_run, table_of.
  destruct (traverse _ _) as [e|records] eqn:Ht; cbn [fst snd self].
  { by eexists. }
  unfold create_index.
  rewrite repeated_name_value_error;
    [|by apply (cbpe_records_keys _ _ _ Ht)|done].
  cbn [fst snd self]. by eexists.
Qed.

End CBPERepeated.

Section DLERepeated.

Import DLE DLESpec DLERun.

Context {M K I L : Type}.
Context `{!Metric M, !Chunker K, !SimpleImputer.t I, !LabelEncoder.t L}.

Implicit Types (s : estimator M K I L) (w : World (estimator M K I L)).

Lemma dle_fold_keys chunk ms (d : dict cell) :
  let estimates :=
    fold_left (fun estimates metric => estimate_metric chunk metric estimates)
              ms d in
  (NoDup (keys d) -> NoDup (keys estimates))
  /\ forall k, k ∈ keys estimates ->
       k ∈ keys d \/ k ∈ flat_map metric_keys (map column_name ms).
Proof.
  cbv zeta. revert d. induction ms as [|m ms IH]; intros d; cbn [fold_left].
  - split; [done|]. intros k Hk. by left.
  - rewrite dle_estimate_metric_eq. destruct (IH (update d (entries chunk m)))
      as [Hnd Hin]. split.
    + intros Hd. by apply Hnd, keys_update_NoDup.
    + intros k Hk. change (flat_map metric_keys (map column_name (m :: ms)))
        with (metric_keys (column_name m)
              ++ flat_map metric_keys (map column_name ms)).
      rewrite elem_of_app.
      destruct (Hin k Hk) as [Hk'|Hk']; [|right; by right].
      apply keys_update_inv in Hk' as [Hk'|Hk']; [by left|right; by left].
Qed.

Lemma dle_records_keys s cs :
  Forall (fun r => NoDup (keys r)
                   /\ forall k, k ∈ keys r ->
                        k ∈ chunk_column_names
                            ++ flat_map metric_keys (map column_name (metrics s)))
         (map (record_of s) cs).
Proof.
  apply Forall_forall. intros r (chunk & -> & _)%list_elem_of_fmap.
  unfold record_of, _estimate_chunk.
  destruct (dle_fold_keys chunk (metrics s) []) as [Hnd Hin]. split.
  - apply keys_update_NoDup. rewrite keys_chunk_record.
    apply chunk_column_names_NoDup.
  - intros k [Hk|Hk]%keys_update_inv; rewrite elem_of_app.
    + left. by rewrite keys_chunk_record in Hk.
    + right. destruct (Hin k Hk) as [Hk'|Hk']; [|done].
      by apply elem_of_nil in Hk'.
Qed.

(** X16. A regression estimator two of whose metrics share a column name
    never returns a result either: whatever the frame, [_estimate] raises
    and the result the estimator holds stays as it was.  When the frame
    passes validation and is encoded without error, the error is the
    ValueError of the layout: every record is at least eight keys short of
    the labels. *)
Theorem dle_repeated_metric_never_estimates w :
  ~ NoDup (map column_name (metrics (self w))) ->
  exists e,
    (_estimate w).1 = inl e
    /\ result (self (_estimate w).2) = result (self w)
    /\ (forall cats,
          empty (data w) = false ->
          y_pred (self w) ∈ column_names (data w) ->
          categorical (self w) (data w) = inr cats ->
          (estimate_block (self w) (data w) cats w).1 = inr tt ->
          e = ValueError).
Proof.
  intros Hdup. destruct (empty (data w)) eqn:He.
  { rewrite dle_estimate_empty by done. eexists. split; [done|].
    split; [done|]. by intros cats [=]. }
  destruct (list_missing_cases [y_pred (self w)] (column_names (data w)))
    as [[_ Hall]|[_ Hm]].
  2:{ rewrite (dle_estimate_missing _ _ He Hm). eexists. split; [done|].
      split; [done|]. intros cats _ Hpred _ _. exfalso.
      rewrite list_missing_ok in Hm; [done|].
      by intros c ->%list_elem_of_singleton. }
  rewrite dle_estimate_valid; [|done|apply Hall; by left].
  unfold estimate_run.
  destruct (categorical (self w) (data w)) as [e|cats]; cbn [fst snd].
  { eexists. split; [done|]. split; [done|]. by intros cats _ _ [=]. }
  destruct (dle_estimate_block_keeps (self w) (data w) cats w)
    as (enc & Hs & _).
  destruct (estimate_block (self w) (data w) cats w) as [[e|[]] w1] eqn:Hblock;
    cbn [fst snd] in *.
  { exists e. split; [done|]. split; [rewrite Hs; by destruct (self w)|].
    intros cats' _ _ [= <-] Hok. by rewrite Hblock in Hok. }
  unfold estimate_tail, table_of, names.
  rewrite repeated_name_value_error; [|apply dle_records_keys|].
  - cbn [fst snd]. exists ValueError. split; [done|].
    split; [rewrite Hs; by destruct (self w)|done].
  - rewrite Hs. by destruct (self w).
Qed.

End DLERepeated.

Lemma cbpe_repeated_metric_never_estimates_witness :
  exists e,
    (CBPE._estimate (mkWorld (cbpe_with [roc_auc; roc_auc]) analysis [])).1
    = inl e.
Proof.
  destruct (cbpe_repeated_metric_never_estimates
              (mkWorld (cbpe_with [roc_auc; roc_auc]) analysis []))
    as (e & He & _).
  - intros [Hnot _]%NoDup_cons. apply Hnot. by left.
  - by exists e.
Defined.

Lemma dle_repeated_metric_never_estimates_witness :
  (DLE._estimate
     (mkWorld (dle ["km_driven"] [mae None None None 1; mae None None None 2])
              numeric [])).1
  = inl ValueError
  /\ exists r,
       (DLE._estimate
          (mkWorld (dle ["km_driven"] [mae None None None 1]) numeric [])).1
       = inr r.
Proof.
  split; [|vm_compute; eauto].
  destruct (dle_repeated_metric_never_estimates
              (mkWorld (dle ["km_driven"] [mae None None None 1;
                                           mae None None None 2])
                       numeric []))
    as (e & He & _ & Herror).
  - intros [Hnot _]%NoDup_cons. apply Hnot. by left.
  - rewrite He. f_equal. apply (Herror []).
    + reflexivity.
    + in_columns.
    + by vm_compute.
    + by vm_compute.
Defined.
